(** * Tic_Tac_Toe_5.py: 5x5 Tic-Tac-Toe with a tabular Q-learning AI

    A shallow embedding of [src/Tic-Tac-Toe/Tic_Tac_Toe_5.py].

    - Python lists are [list]s, indexed with stdpp's lookup; an index that is
      out of range raises [IndexError] as in Python.
    - The global dictionary [Q] is a [gmap] from state keys to vectors of
      action values; a missing key raises [KeyError].
    - Exceptions are the [Raise] constructor of [result].
    - numpy's float64 values are kept abstract behind the class [Number], with
      two instances: exact rationals, and the kernel's binary64 floats.
    - The two calls into [random] read their outcome from a tape of draws
      handed to the training loop.
    - The mutable [TicTacToeGame] object is threaded through its methods,
      which return the object as it is when they return or raise. *)

From Stdlib Require Import ZArith QArith Qpower Lqa Floats Uint63.
From stdpp Require Import gmap strings list.

Set Warnings "-inexact-float".

(** ** Outcomes of a computation *)

Inductive exn : Set := KeyError | IndexError | ValueError | RecursionError.

(** [Starved] is not an outcome of the program: it is what a loop of the model
    answers when the tape of random draws it was given ends before the loop
    does. *)
Inductive result (A : Type) : Type :=
  | Ok (a : A)
  | Raise (e : exn)
  | Starved.
Arguments Ok {A} a.
Arguments Raise {A} e.
Arguments Starved {A}.

#[global] Instance result_ret : MRet result := fun A a => Ok a.
#[global] Instance result_bind : MBind result := fun A B f m =>
  match m with
  | Ok a => f a
  | Raise e => Raise e
  | Starved => Starved
  end.

(** [l[i]] on a Python list or numpy vector. *)
Definition getitem {A : Type} (l : list A) (i : nat) : result A :=
  match l !! i with
  | Some x => Ok x
  | None => Raise IndexError
  end.

(** [m[i][j]]: the row is fetched first. *)
Definition getitem2 {A : Type} (m : list (list A)) (i j : nat) : result A :=
  row ← getitem m i; getitem row j.

(** [m[i][j] = x], used where [m[i][j]] has just been read. *)
Definition setitem2 {A : Type} (m : list (list A)) (i j : nat) (x : A)
  : list (list A) :=
  alter (fun row => <[j := x]> row) i m.

(** Python's [all(...)] over a generator whose items may raise: it stops at
    the first false item. *)
Fixpoint all_ (tests : list (result bool)) : result bool :=
  match tests with
  | [] => Ok true
  | t :: tests' => b ← t; if b : bool then all_ tests' else Ok false
  end.

(** [a or b]: [b] is evaluated only when [a] is false. *)
Definition or_ (a b : result bool) : result bool :=
  x ← a; if x : bool then Ok true else b.

(** A [for] loop whose body returns [True] on the first hit. *)
Fixpoint any_ (tests : list (result bool)) : result bool :=
  match tests with
  | [] => Ok false
  | t :: tests' => b ← t; if b : bool then Ok true else any_ tests'
  end.

(** ** Numbers *)

(** The arithmetic the program performs on Q-values and rates. *)
Class Number (V : Type) : Type := {
  num_zero : V;                    (* an entry of np.zeros *)
  num_of_int : Z -> V;             (* an int reward promoted in [reward + ...] *)
  num_lit : Q -> V;                (* a decimal literal of the source *)
  num_add : V -> V -> V;
  num_sub : V -> V -> V;
  num_mul : V -> V -> V;
  num_le : V -> V -> bool;
  num_lt : V -> V -> bool;
  num_isnan : V -> bool
}.

(** Exact arithmetic. *)
#[global] Instance Q_Number : Number Q := {|
  num_zero := 0%Q;
  num_of_int := inject_Z;
  num_lit := fun q => q;
  num_add := Qplus;
  num_sub := Qminus;
  num_mul := Qmult;
  num_le := Qle_bool;
  num_lt := fun x y => negb (Qle_bool y x);
  num_isnan := fun _ => false
|}.

(** IEEE 754 binary64, the arithmetic of numpy's float64 and of Python's
    floats. An int becomes the nearest double, ties to even: through the
    primitive conversion below 2^63 and through the rounding of the
    specification from there on. Beyond the largest double the result is an
    infinity, where Python raises [OverflowError]; the rewards of the program
    are -1, 0 and 1. *)
Definition float_of_Z (z : Z) : float :=
  if (Z.abs z <? 9223372036854775808)%Z then
    match z with
    | Z0 => PrimFloat.zero
    | Zpos _ => PrimFloat.of_uint63 (Uint63.of_Z z)
    | Zneg p => PrimFloat.opp (PrimFloat.of_uint63 (Uint63.of_Z (Zpos p)))
    end
  else SF2Prim (binary_normalize prec emax z 0 false).

#[global] Instance float_Number : Number float := {|
  num_zero := PrimFloat.zero;
  num_of_int := float_of_Z;
  num_lit := fun q => PrimFloat.div (float_of_Z (Qnum q)) (float_of_Z (Zpos (Qden q)));
  num_add := PrimFloat.add;
  num_sub := PrimFloat.sub;
  num_mul := PrimFloat.mul;
  num_le := PrimFloat.leb;
  num_lt := PrimFloat.ltb;
  num_isnan := PrimFloat.is_nan
|}.

(** ** Boards and state keys *)

Definition BOARD_SIZE : nat := 5.

(** A board is a list of rows of one-character strings: [" "], ["X"], ["O"]
    or the symbol the human typed. *)
Abbreviation Board := (list (list string)).

(** An immutable Python tuple. *)
Record tuple (A : Type) : Type := Tuple { items : list A }.
Arguments Tuple {A} items.
Arguments items {A} t.

#[global] Instance tuple_eq_dec `{EqDecision A} : EqDecision (tuple A).
Proof. solve_decision. Defined.

#[global] Instance tuple_countable `{Countable A} : Countable (tuple A) :=
  inj_countable' items Tuple (fun t => match t with Tuple _ => eq_refl end).

Abbreviation StateKey := (tuple (tuple string)).

Definition board_to_tuple (board : Board) : StateKey :=
  Tuple (map (fun row => Tuple row) board).

(** [[[' ' for _ in range(BOARD_SIZE)] for _ in range(BOARD_SIZE)]] *)
Definition empty_board : Board :=
  replicate BOARD_SIZE (replicate BOARD_SIZE " "%string).

Definition is_winner (board : Board) (player : string) : result bool :=
  let cell i j := c ← getitem2 board i j; Ok (String.eqb c player) in
  let range := seq 0 BOARD_SIZE in
  hit ← any_ (map (fun i =>
                     or_ (all_ (map (fun j => cell i j) range))
                         (all_ (map (fun j => cell j i) range))) range);
  if hit : bool then Ok true
  else
    diag ← or_ (all_ (map (fun i => cell i i) range))
               (all_ (map (fun i => cell i (BOARD_SIZE - i - 1)) range));
    if diag : bool then Ok true else Ok false.

Definition is_draw (board : Board) : bool :=
  forallb (fun row => forallb (fun cell => negb (String.eqb cell " ")) row) board.

(** ** The value table, the policy and the learner *)

Section QLearning.
Context {V : Type} `{Number V}.

(** Hyperparameters. [EXPLORATION_RATE] is a global the trainer overwrites; the
    constant below is the value the module assigns at import. *)
Definition INITIAL_EXPLORATION_RATE : V := num_lit 1.0.
Definition EXPLORATION_DECAY : V := num_lit 0.995.
Definition LEARNING_RATE : V := num_lit 0.1.
Definition DISCOUNT_FACTOR : V := num_lit 0.9.
Definition EPISODES : nat := 1000.

(** The dictionary [Q]. *)
Abbreviation QTable := (gmap StateKey (list V)).

(** [Q[state]] *)
Definition getkey (Qt : QTable) (state : StateKey) : result (list V) :=
  match Qt !! state with
  | Some values => Ok values
  | None => Raise KeyError
  end.

Definition initialize_q_table (board : Board) (Qt : QTable) : QTable :=
  let state := board_to_tuple board in
  match Qt !! state with
  | None => <[state := replicate (BOARD_SIZE * BOARD_SIZE) num_zero]> Qt
  | Some _ => Qt
  end.

(** [np.argmax] on a vector of floats: the running maximum [mp] is replaced
    only by an item that is not [<=] it, so the first of several equal maxima
    is kept; a NaN counts as maximal and ends the scan. An empty vector raises
    [ValueError]. *)
Fixpoint argmax_scan (max_ind : nat) (mp : V) (i : nat) (ip : list V) : nat :=
  match ip with
  | [] => max_ind
  | x :: ip' =>
      if num_le x mp then argmax_scan max_ind mp (S i) ip'
      else if num_isnan x then i
      else argmax_scan i x (S i) ip'
  end.

Definition argmax (values : list V) : result nat :=
  match values with
  | [] => Raise ValueError
  | mp :: ip => if num_isnan mp then Ok 0 else Ok (argmax_scan 0 mp 1 ip)
  end.

(** One call of [choose_action] consumes one outcome of [random.uniform(0, 1)]
    and, when it explores, one outcome of [random.randint(0, 24)]. *)
Record draw : Type := Draw { uniform : V; randint : nat }.

Definition choose_action (Qt : QTable) (state : StateKey) (exploration_rate : V)
    (d : draw) : result nat :=
  if num_lt (uniform d) exploration_rate then Ok (randint d)
  else values ← getkey Qt state; argmax values.

Definition update_q_table (state : StateKey) (action : nat) (reward : Z)
    (next_state : StateKey) (Qt : QTable) : result QTable :=
  next_values ← getkey Qt next_state;
  best_next_action ← argmax next_values;
  next_values ← getkey Qt next_state;
  best_next ← getitem next_values best_next_action;
  let td_target := num_add (num_of_int reward) (num_mul DISCOUNT_FACTOR best_next) in
  values ← getkey Qt state;
  old ← getitem values action;
  let td_error := num_sub td_target old in
  (* Q[state][action] += LEARNING_RATE * td_error *)
  values ← getkey Qt state;
  old ← getitem values action;
  Ok (<[state := <[action := num_add old (num_mul LEARNING_RATE td_error)]> values]> Qt).

(** ** The trainer *)

(** What one call of the learner is given: state before the move, action,
    reward, state after the move. *)
Record transition : Type := Transition {
  tr_state : StateKey;
  tr_action : nat;
  tr_reward : Z;
  tr_next_state : StateKey
}.

(** The module's globals. [learner_calls] is a ghost component: the
    transitions [update_q_table] has been called with, oldest first. *)
Record globals : Type := Globals {
  Q_table : QTable;
  EXPLORATION_RATE : V;
  learner_calls : list transition
}.

Definition initial_globals : globals :=
  {| Q_table := ∅; EXPLORATION_RATE := INITIAL_EXPLORATION_RATE; learner_calls := [] |}.

(** The locals of [train_ai] that live across iterations of its [while]. *)
Record episode : Type := Episode {
  board : Board;
  state : StateKey;
  done : bool;
  current_player : string
}.

(** One iteration of the body of [while not done]. *)
Definition turn (d : draw) (l : episode) (g : globals) : result (episode * globals) :=
  action ← choose_action (Q_table g) (state l) (EXPLORATION_RATE g) d;
  let row := (action / BOARD_SIZE)%nat in
  let col := (action mod BOARD_SIZE)%nat in
  cell ← getitem2 (board l) row col;
  if String.eqb cell " " then
    let board' := setitem2 (board l) row col (current_player l) in
    won ← is_winner board' (current_player l);
    let '(reward, done') :=
      if won : bool then
        (if String.eqb (current_player l) "O" then 1%Z else (-1)%Z, true)
      else if is_draw board' then (0%Z, true)
      else (0%Z, done l) in
    let next_state := board_to_tuple board' in
    let Qt1 := initialize_q_table board' (Q_table g) in
    Qt2 ← update_q_table (state l) action reward next_state Qt1;
    Ok ({| board := board';
           state := next_state;
           done := done';
           current_player := if String.eqb (current_player l) "O" then "X" else "O" |},
        {| Q_table := Qt2;
           EXPLORATION_RATE := EXPLORATION_RATE g;
           learner_calls :=
             learner_calls g ++ [Transition (state l) action reward next_state] |})
  else Ok (l, g).

(** [while not done: ...], one draw per iteration. *)
Fixpoint play (tape : list draw) (l : episode) (g : globals)
  : result (episode * globals * list draw) :=
  if done l then Ok (l, g, tape)
  else
    match tape with
    | [] => Starved
    | d :: tape' => '(l', g') ← turn d l g; play tape' l' g'
    end.

(** The state in which an episode enters its [while]. *)
Definition episode_start (g : globals) : episode * globals :=
  let board := empty_board in
  ({| board := board; state := board_to_tuple board; done := false;
      current_player := "O" |},
   {| Q_table := initialize_q_table board (Q_table g);
      EXPLORATION_RATE := EXPLORATION_RATE g;
      learner_calls := learner_calls g |}).

(** The decay that ends an episode. *)
Definition decay (g : globals) : globals :=
  {| Q_table := Q_table g;
     EXPLORATION_RATE := num_mul (EXPLORATION_RATE g) EXPLORATION_DECAY;
     learner_calls := learner_calls g |}.

Fixpoint train_ai (episodes : nat) (tape : list draw) (g : globals)
  : result (globals * list draw) :=
  match episodes with
  | O => Ok (g, tape)
  | S episodes' =>
      let '(l, g1) := episode_start g in
      '(_, g2, tape') ← play tape l g1;
      train_ai episodes' tape' (decay g2)
  end.

End QLearning.

(** ** The interactive game *)

Module TicTacToeGame.

(** The attributes of a [TicTacToeGame] object. [buttons] holds the text of
    each Tk button; [shown] is a ghost attribute: the messages passed to
    [messagebox.showinfo], oldest first. *)
Record game : Type := Game {
  board : Board;
  human_symbol : string;
  ai_symbol : string;
  current_player : string;
  buttons : list (list string);
  shown : list string
}.

Definition set_board (b : Board) (self : game) : game :=
  {| board := b; human_symbol := human_symbol self; ai_symbol := ai_symbol self;
     current_player := current_player self; buttons := buttons self;
     shown := shown self |}.

Definition set_current_player (p : string) (self : game) : game :=
  {| board := board self; human_symbol := human_symbol self;
     ai_symbol := ai_symbol self; current_player := p; buttons := buttons self;
     shown := shown self |}.

Definition set_buttons (bs : list (list string)) (self : game) : game :=
  {| board := board self; human_symbol := human_symbol self;
     ai_symbol := ai_symbol self; current_player := current_player self;
     buttons := bs; shown := shown self |}.

Definition set_shown (ms : list string) (self : game) : game :=
  {| board := board self; human_symbol := human_symbol self;
     ai_symbol := ai_symbol self; current_player := current_player self;
     buttons := buttons self; shown := ms |}.

(** A method: it returns or raises, and leaves the object as it has mutated it
    up to that point. *)
Definition M (A : Type) : Type := game -> result A * game.

Definition ret {A : Type} (a : A) : M A := fun self => (Ok a, self).

Definition bind {A B : Type} (m : M A) (k : A -> M B) : M B := fun self =>
  match m self with
  | (Ok a, self') => k a self'
  | (Raise e, self') => (Raise e, self')
  | (Starved, self') => (Starved, self')
  end.

(** A computation that reads the object and may raise. *)
Definition eval {A : Type} (f : game -> result A) : M A := fun self => (f self, self).

(** An assignment to attributes. *)
Definition assign (f : game -> game) : M unit := fun self => (Ok tt, f self).

Declare Scope method_scope.
Delimit Scope method_scope with method.
Notation "x <- m ;; k" := (bind m (fun x => k))
  (at level 100, m at next level, right associativity) : method_scope.
Notation "m ;; k" := (bind m (fun _ => k))
  (at level 100, right associativity) : method_scope.
Local Open Scope method_scope.

(** [self.board[row][col] = symbol] *)
Definition mark (row col : nat) (symbol : string) : M unit :=
  assign (fun self => set_board (setitem2 (board self) row col symbol) self).

(** [self.buttons[row][col].config(text=text)] *)
Definition config (row col : nat) (text : string) : M unit :=
  _ <- eval (fun self => getitem2 (buttons self) row col) ;;
  assign (fun self => set_buttons (setitem2 (buttons self) row col text) self).

(** The object once [mark] and [config] have put [symbol] on the board and on
    its button. *)
Definition marked (row col : nat) (symbol : string) (self : game) : game :=
  set_buttons (setitem2 (buttons self) row col symbol)
    (set_board (setitem2 (board self) row col symbol) self).

(** [messagebox.showinfo("Game Over", message)] *)
Definition showinfo (message : string) : M unit :=
  assign (fun self => set_shown (shown self ++ [message]) self).

(** [for x in xs: body(x)] *)
Fixpoint for_ {A : Type} (xs : list A) (body : A -> M unit) : M unit :=
  match xs with
  | [] => ret tt
  | x :: xs' => body x ;; for_ xs' body
  end.

Section Methods.
Context {V : Type} `{Number V}.

(** The global [Q], which the game only reads. *)
Variable Qt : gmap StateKey (list V).

(** [reset_game] and [end_game] call back into [ai_move], passed here as
    [ai_move]. *)
Definition reset_game (ai_move : M unit) : M unit :=
  assign (set_board empty_board) ;;
  for_ (seq 0 BOARD_SIZE) (fun i =>
    for_ (seq 0 BOARD_SIZE) (fun j => config i j " ")) ;;
  assign (fun self => set_current_player (human_symbol self) self) ;;
  again <- eval (fun self => Ok (String.eqb (current_player self) (ai_symbol self))) ;;
  if again : bool then ai_move else ret tt.

Definition end_game (ai_move : M unit) (message : string) : M unit :=
  showinfo message ;;
  reset_game ai_move.

(** [ai_move] can re-enter itself through [end_game] and [reset_game];
    [depth] is the number of nested activations of [ai_move] the interpreter
    still allows before it raises [RecursionError]. *)
Fixpoint ai_move (depth : nat) : M unit :=
  match depth with
  | O => eval (fun _ => Raise RecursionError)
  | S depth' =>
      state <- eval (fun self => Ok (board_to_tuple (board self))) ;;
      values <- eval (fun _ => getkey Qt state) ;;
      action <- eval (fun _ => argmax values) ;;
      let row := (action / BOARD_SIZE)%nat in
      let col := (action mod BOARD_SIZE)%nat in
      cell <- eval (fun self => getitem2 (board self) row col) ;;
      if String.eqb cell " " then
        ai <- eval (fun self => Ok (ai_symbol self)) ;;
        mark row col ai ;;
        config row col ai ;;
        won <- eval (fun self => is_winner (board self) ai) ;;
        if won : bool then
          end_game (ai_move depth') ("AI (" +:+ ai +:+ ") wins!")
        else
          full <- eval (fun self => Ok (is_draw (board self))) ;;
          if full : bool then end_game (ai_move depth') "It's a draw!"
          else assign (fun self => set_current_player (human_symbol self) self)
      else ret tt
  end.

Definition make_move (depth : nat) (row col : nat) : M unit :=
  cell <- eval (fun self => getitem2 (board self) row col) ;;
  mine <- eval (fun self => Ok (String.eqb (current_player self) (human_symbol self))) ;;
  if String.eqb cell " " && mine then
    human <- eval (fun self => Ok (human_symbol self)) ;;
    mark row col human ;;
    config row col human ;;
    won <- eval (fun self => is_winner (board self) human) ;;
    if won : bool then
      end_game (ai_move depth) ("Player " +:+ human +:+ " wins!")
    else
      full <- eval (fun self => Ok (is_draw (board self))) ;;
      if full : bool then end_game (ai_move depth) "It's a draw!"
      else
        assign (fun self => set_current_player (ai_symbol self) self) ;;
        ai_move depth
  else ret tt.

(** [__init__], without the Tk window: the object once [create_buttons] has
    run, then the opening [ai_move] when the AI starts. *)
Definition created (player_symbol ai_symbol : string) (human_starts : bool) : game :=
  {| board := empty_board;
     human_symbol := player_symbol;
     ai_symbol := ai_symbol;
     current_player := if human_starts then player_symbol else ai_symbol;
     buttons := replicate BOARD_SIZE (replicate BOARD_SIZE " "%string);
     shown := [] |}.

Definition init (depth : nat) (player_symbol ai_symbol : string) (human_starts : bool)
  : result unit * game :=
  (if human_starts then ret tt else ai_move depth)
    (created player_symbol ai_symbol human_starts).

(** The Tk main loop delivering a series of clicks: an exception raised by a
    callback is reported by Tk and the loop goes on with the object as the
    callback left it. *)
Fixpoint mainloop (depth : nat) (clicks : list (nat * nat)) (self : game) : game :=
  match clicks with
  | [] => self
  | (row, col) :: clicks' => mainloop depth clicks' (snd (make_move depth row col self))
  end.

End Methods.

(** The symbol the main program gives the AI once the human has typed theirs. *)
Definition ai_symbol_for (human_symbol : string) : string :=
  if String.eqb human_symbol "X" then "O" else "X".

End TicTacToeGame.

(** ** Vocabulary of the properties *)

(** A board of [BOARD_SIZE] rows of [BOARD_SIZE] cells, as every board the
    program builds. *)
Definition wf_board (b : Board) : Prop :=
  length b = BOARD_SIZE /\ Forall (fun row => length row = BOARD_SIZE) b.

(** A computation that returns, whatever it returns. *)
Definition returns {A : Type} (r : result A) : Prop := exists a, r = Ok a.

Section Vocabulary.
Context {V : Type} `{Number V}.

(** The two functions that write to [Q]. *)
Inductive table_op : Type :=
  | Initialize (board : Board)
  | Update (state : StateKey) (action : nat) (reward : Z) (next_state : StateKey).

(** An [update_q_table] that raises does so before its only write, so it
    leaves the table as it was. *)
Definition run_op (Qt : gmap StateKey (list V)) (op : table_op)
  : gmap StateKey (list V) :=
  match op with
  | Initialize board => initialize_q_table board Qt
  | Update state action reward next_state =>
      match update_q_table state action reward next_state Qt with
      | Ok Qt' => Qt'
      | _ => Qt
      end
  end.

Definition run_ops (ops : list table_op) (Qt : gmap StateKey (list V))
  : gmap StateKey (list V) :=
  foldl run_op Qt ops.

(** [Q[state][action]], when both the key and the index are there. *)
Definition value (Qt : gmap StateKey (list V)) (state : StateKey) (action : nat)
  : option V :=
  values ← Qt !! state; values !! action.

(** The temporal-difference rule in closed form:
    [old + LEARNING_RATE * (reward + DISCOUNT_FACTOR * best_next - old)]. *)
Definition td_update (old : V) (reward : Z) (best_next : V) : V :=
  num_add old
    (num_mul LEARNING_RATE
       (num_sub (num_add (num_of_int reward) (num_mul DISCOUNT_FACTOR best_next)) old)).

(** [values[i]] is [m], no value of the vector exceeds [m], and every value
    before index [i] is strictly below [m]. *)
Definition first_max (values : list V) (i : nat) (m : V) : Prop :=
  values !! i = Some m
  /\ (forall j x, values !! j = Some x -> num_le x m = true)
  /\ (forall j x, (j < i)%nat -> values !! j = Some x -> num_le m x = false).

(** The reward and the [done] flag that the [if]/[elif] of a turn assigns,
    given the answer [won] of [is_winner] for the mover on the new board. *)
Definition judged (won : bool) (board' : Board) (player : string) (done : bool)
  : Z * bool :=
  if won then (if String.eqb player "O" then 1%Z else (-1)%Z, true)
  else if is_draw board' then (0%Z, true)
  else (0%Z, done).

(** The exploration rate after [k] decays. *)
Definition rate_after (k : nat) (rate : V) : V :=
  Nat.iter k (fun r => num_mul r EXPLORATION_DECAY) rate.

(** What the specification says of a turn whose action targets an occupied
    cell: the board stays, the mover alternates, and the learner is called
    with the state as its own successor and reward 0. *)
Definition consumed_noop_turn (d : @draw V) (l : episode) (g : @globals V) : Prop :=
  forall action cell,
    choose_action (Q_table g) (state l) (EXPLORATION_RATE g) d = Ok action ->
    getitem2 (board l) (action / BOARD_SIZE) (action mod BOARD_SIZE) = Ok cell ->
    cell <> " "%string ->
    exists l' g',
      turn d l g = Ok (l', g')
      /\ board l' = board l
      /\ current_player l' = (if String.eqb (current_player l) "O" then "X" else "O")%string
      /\ learner_calls g'
         = learner_calls g ++ [Transition (state l) action 0 (state l)].

(** Every vector of the table has one value per cell. *)
Definition table_ok (Qt : gmap StateKey (list V)) : Prop :=
  map_Forall (fun _ values => length values = (BOARD_SIZE * BOARD_SIZE)%nat) Qt.

(** An outcome of [random.randint(0, BOARD_SIZE * BOARD_SIZE - 1)]. *)
Definition valid_draw (d : @draw V) : Prop :=
  (randint d < BOARD_SIZE * BOARD_SIZE)%nat.

(** What holds each time the trainer tests [while not done]: the board is
    5x5, the table is well formed and has an entry for [state]. *)
Definition loop_inv (l : episode) (g : @globals V) : Prop :=
  wf_board (board l) /\ table_ok (Q_table g) /\ is_Some (Q_table g !! state l).

(** The locals after a turn that plays [action]: as in [turn], without the
    table. *)
Definition move (action : nat) (l : episode) : episode :=
  let row := (action / BOARD_SIZE)%nat in
  let col := (action mod BOARD_SIZE)%nat in
  match getitem2 (board l) row col with
  | Ok cell =>
      if String.eqb cell " " then
        let board' := setitem2 (board l) row col (current_player l) in
        match is_winner board' (current_player l) with
        | Ok won =>
            {| board := board';
               state := board_to_tuple board';
               done := snd (judged won board' (current_player l) (done l));
               current_player :=
                 if String.eqb (current_player l) "O" then "X" else "O" |}
        | _ => l
        end
      else l
  | _ => l
  end.

(** The locals when the [while] ends, if playing exactly [actions], one per
    iteration, ends it with the last of them. *)
Fixpoint replay (actions : list nat) (l : episode) : option episode :=
  match actions with
  | [] => if done l then Some l else None
  | action :: actions' => if done l then None else replay actions' (move action l)
  end.

End Vocabulary.

(** The number of cells of a board that hold [symbol]. *)
Definition count_in_row (symbol : string) (row : list string) : nat :=
  sum_list (map (fun cell => if String.eqb cell symbol then 1 else 0)%nat row).

Definition count_symbol (symbol : string) (b : Board) : nat :=
  sum_list (map (count_in_row symbol) b).

(** The board a key was made from. *)
Definition key_board (k : StateKey) : Board := map items (items k).

(** A position in which X has not moved more often than O. *)
Definition balanced (b : Board) : Prop :=
  (count_symbol "X" b <= count_symbol "O" b)%nat.

(** Every key of the table is a position in which X has not moved more often
    than O. *)
Definition keys_balanced {V : Type} (Qt : gmap StateKey (list V)) : Prop :=
  forall k, is_Some (Qt !! k) -> balanced (key_board k).

(** O moves first and the players alternate. *)
Definition alternating (l : episode) : Prop :=
  (current_player l = "O"%string
   /\ count_symbol "O" (board l) = count_symbol "X" (board l))
  \/ (current_player l = "X"%string
      /\ count_symbol "O" (board l) = S (count_symbol "X" (board l))).

(** The object as [reset_game] leaves it: an empty board, blank buttons, the
    human to move; the symbols and the messages shown are kept. *)
Definition fresh (self : TicTacToeGame.game) : TicTacToeGame.game :=
  {| TicTacToeGame.board := empty_board;
     TicTacToeGame.human_symbol := TicTacToeGame.human_symbol self;
     TicTacToeGame.ai_symbol := TicTacToeGame.ai_symbol self;
     TicTacToeGame.current_player := TicTacToeGame.human_symbol self;
     TicTacToeGame.buttons := empty_board;
     TicTacToeGame.shown := TicTacToeGame.shown self |}.

(** The object after [end_game message]: reset, with the message shown. *)
Definition ended (message : string) (self : TicTacToeGame.game) : TicTacToeGame.game :=
  fresh (TicTacToeGame.set_shown (TicTacToeGame.shown self ++ [message]) self).

(** What a click by the human comes to, in the words of the specification. *)
Inductive report : Set := report_continue | report_humanWins | report_draw.

Section GameVocabulary.
Context {V : Type} `{Number V}.
Variable Qt : gmap StateKey (list V).
Import TicTacToeGame.

(** What [end_game message] comes to on a game whose buttons form a 5x5 grid:
    the message is shown and the game is reset with the human to move; when
    the human's symbol is also the AI's, [reset_game] then has the AI move. *)
Definition announced (depth : nat) (message : string) (self : game)
  : result unit * game :=
  if String.eqb (human_symbol self) (ai_symbol self)
  then ai_move Qt depth (ended message self)
  else (Ok tt, ended message self).

(** [make_move] has placed the human's mark and the click has come to what
    the report says. The human owns a line: the message "Player ... wins!" is
    shown and the game is reset. No cell is blank: the message "It's a draw!"
    is shown and the game is reset. Otherwise nothing is shown, the turn
    passes to the AI and the call goes on as [ai_move] on the marked board. *)
Definition reported (depth row col : nat) (self : game) (r : report) : Prop :=
  let human := human_symbol self in
  let m := marked row col human self in
  match r with
  | report_humanWins =>
      is_winner (board m) human = Ok true
      /\ make_move Qt depth row col self
         = announced depth ("Player " +:+ human +:+ " wins!") m
  | report_draw =>
      is_winner (board m) human = Ok false
      /\ is_draw (board m) = true
      /\ make_move Qt depth row col self = announced depth "It's a draw!" m
  | report_continue =>
      is_winner (board m) human = Ok false
      /\ is_draw (board m) = false
      /\ shown (set_current_player (ai_symbol self) m) = shown self
      /\ make_move Qt depth row col self
         = ai_move Qt depth (set_current_player (ai_symbol self) m)
  end.

End GameVocabulary.

(** The board is 5x5 and every button shows the cell it stands for. *)
Definition consistent (self : TicTacToeGame.game) : Prop :=
  wf_board (TicTacToeGame.board self)
  /\ TicTacToeGame.buttons self = TicTacToeGame.board self.

(** What a call can have done to a session: nothing to the symbols; to the
    messages, nothing, or one message more, and then the game has been reset. *)
Definition same_session (self self' : TicTacToeGame.game) : Prop :=
  TicTacToeGame.human_symbol self' = TicTacToeGame.human_symbol self
  /\ TicTacToeGame.ai_symbol self' = TicTacToeGame.ai_symbol self
  /\ (TicTacToeGame.shown self' = TicTacToeGame.shown self
      \/ exists message,
           TicTacToeGame.shown self' = TicTacToeGame.shown self ++ [message]
           /\ TicTacToeGame.board self' = empty_board
           /\ TicTacToeGame.current_player self' = TicTacToeGame.human_symbol self).

(** The twelve lines of the board, as lists of (row, column): the five rows,
    the five columns and the two diagonals. *)
Definition lines : list (list (nat * nat)) :=
  map (fun i => map (fun j => (i, j)) (seq 0 BOARD_SIZE)) (seq 0 BOARD_SIZE)
  ++ map (fun i => map (fun j => (j, i)) (seq 0 BOARD_SIZE)) (seq 0 BOARD_SIZE)
  ++ [map (fun i => (i, i)) (seq 0 BOARD_SIZE);
      map (fun i => (i, BOARD_SIZE - i - 1)%nat) (seq 0 BOARD_SIZE)].

(** Every cell of the line holds [player]. *)
Definition line_of (b : Board) (player : string) (line : list (nat * nat)) : Prop :=
  Forall (fun ij => getitem2 b (fst ij) (snd ij) = Ok player) line.

(** A position of a game in which O moves first and the players alternate:
    a 5x5 board of blanks, O and X on which O has as many marks as X, or one
    more. *)
Definition legal_position (b : Board) : Prop :=
  wf_board b
  /\ (count_symbol " " b + count_symbol "O" b + count_symbol "X" b
      = BOARD_SIZE * BOARD_SIZE)%nat
  /\ (count_symbol "O" b = count_symbol "X" b
      \/ count_symbol "O" b = S (count_symbol "X" b)).

(** What holds of the locals each time the trainer tests [while not done]. *)
Definition episode_inv (l : episode) : Prop :=
  state l = board_to_tuple (board l)
  /\ wf_board (board l)
  /\ (count_symbol " " (board l) + count_symbol "O" (board l)
      + count_symbol "X" (board l) = BOARD_SIZE * BOARD_SIZE)%nat
  /\ alternating l.

(** The transition records a move: its action's cell is blank in the state
    before, the state after is the state before with O or X in that cell, and
    the reward is 1 when the mover is O and has a full line afterwards, -1 when
    the mover is X and has one, 0 otherwise. *)
Definition real_move (t : transition) : Prop :=
  let before := key_board (tr_state t) in
  let after := key_board (tr_next_state t) in
  let row := (tr_action t / BOARD_SIZE)%nat in
  let col := (tr_action t mod BOARD_SIZE)%nat in
  exists mover won,
    (mover = "O" \/ mover = "X")%string
    /\ getitem2 before row col = Ok " "%string
    /\ after = setitem2 before row col mover
    /\ is_winner after mover = Ok won
    /\ tr_reward t
       = (if won : bool then if String.eqb mover "O" then 1 else -1 else 0)%Z.

(** The number of moves that have been made on a board. *)
Definition marks (b : Board) : nat :=
  (count_symbol "O" b + count_symbol "X" b)%nat.

(** Every key of the table is a legal position. *)
Definition legal_keys {V : Type} (Qt : gmap StateKey (list V)) : Prop :=
  forall k, is_Some (Qt !! k) -> legal_position (key_board k).

(** Every value of the table lies between -10 and 10: the bound
    1 / (1 - DISCOUNT_FACTOR) on a discounted sum of rewards between -1
    and 1. *)
Definition bounded_values (Qt : gmap StateKey (list Q)) : Prop :=
  map_Forall (fun _ values => Forall (fun v => (-10 <= v <= 10)%Q) values) Qt.

(** A position at which an episode ends: O or X owns a line, or no cell is
    blank. *)
Definition over (b : Board) : Prop :=
  (exists player line,
     (player = "O" \/ player = "X")%string /\ line ∈ lines /\ line_of b player line)
  \/ is_draw b = true.

(** The positions at which an episode ends are valued as [initialize_q_table]
    has entered them. *)
Definition final_keys_zero {V : Type} `{Number V} (Qt : gmap StateKey (list V)) : Prop :=
  forall k values,
    Qt !! k = Some values -> over (key_board k) ->
    values = replicate (BOARD_SIZE * BOARD_SIZE) num_zero.

(** Every value of the table lies between -1 and 1. *)
Definition unit_values (Qt : gmap StateKey (list Q)) : Prop :=
  map_Forall (fun _ values => Forall (fun v => (-1 <= v <= 1)%Q) values) Qt.

(** What holds of the locals and the table each time the trainer tests
    [while not done]. *)
Definition running_inv {V : Type} `{Number V} (l : episode) (g : @globals V) : Prop :=
  episode_inv l
  /\ (done l = false -> ~ over (board l))
  /\ final_keys_zero (Q_table g).

(** ** Concrete boards, tables and tapes used in the examples *)

(** A game the human plays as O and has opened in the top left corner; it is
    the AI's turn. *)
Definition corner_game : TicTacToeGame.game :=
  TicTacToeGame.set_current_player "X"
    (TicTacToeGame.marked 0 0 "O" (TicTacToeGame.created "O" "X" true)).

(** A table that knows this position and values all its actions 0, as
    [initialize_q_table] enters it. *)
Definition table_corner : gmap StateKey (list Q) :=
  <[board_to_tuple (TicTacToeGame.board corner_game) := replicate 25 0%Q]> ∅.

(** The key of the empty board and of the board after O has opened in the
    top left corner. *)
Definition key_empty : StateKey := board_to_tuple empty_board.
Definition key_corner : StateKey := board_to_tuple (setitem2 empty_board 0 0 "O"%string).

(** A table in which every action of the empty board is valued 0 and the best
    action of the next state is valued 0.8. *)
Definition table_08 : gmap StateKey (list Q) :=
  <[key_corner := <[7%nat := 0.8%Q]> (replicate 25 0%Q)]>
    (<[key_empty := replicate 25 0%Q]> ∅).

(** A tape on which every draw explores and O fills the top row while X
    fills four cells of the second: an episode of nine turns. *)
Definition actions_O_wins : list nat := [0; 5; 1; 6; 2; 7; 3; 8; 4]%nat.

Definition tape_O_wins : list (@draw Q) := map (Draw 0%Q) actions_O_wins.

(** The first episode of a fresh program after O has explored into the top
    left corner: X is to move. *)
Definition corner_taken : episode * @globals Q :=
  match
    turn (Draw 0%Q 0) (fst (episode_start initial_globals))
      (snd (episode_start initial_globals))
  with
  | Ok s => s
  | _ => episode_start initial_globals
  end.

(** A vector whose maximum 5 is attained at indices 1 and 2. *)
Definition tied_values : list Q :=
  [0; 5; 5; 0; 0; 0; 0; 0; 0; 0; 0; 0; 0; 0; 0; 0; 0; 0; 0; 0; 0; 0; 0; 0; 0]%Q.

(** The same vector as numpy holds it, in binary64. *)
Definition tied_values_binary64 : list float :=
  [0; 5; 5; 0; 0; 0; 0; 0; 0; 0; 0; 0; 0; 0; 0; 0; 0; 0; 0; 0; 0; 0; 0; 0; 0]%float.

(** A full board on which O's last move completed the top row. *)
Definition full_board_O_wins : Board :=
  [ ["O"; "O"; "O"; "O"; "O"];
    ["X"; "X"; "X"; "X"; "O"];
    ["O"; "X"; "O"; "X"; "X"];
    ["X"; "O"; "X"; "O"; "O"];
    ["O"; "X"; "O"; "X"; "X"] ]%string.

(** A game in which the human, playing X, has four marks in the top row and
    is to move. *)
Definition four_in_a_row : Board :=
  [ ["X"; "X"; "X"; "X"; " "];
    ["O"; "O"; "O"; "O"; " "];
    [" "; " "; " "; " "; " "];
    [" "; " "; " "; " "; " "];
    [" "; " "; " "; " "; " "] ]%string.

Definition winning_chance : TicTacToeGame.game :=
  {| TicTacToeGame.board := four_in_a_row;
     TicTacToeGame.human_symbol := "X";
     TicTacToeGame.ai_symbol := "O";
     TicTacToeGame.current_player := "X";
     TicTacToeGame.buttons := four_in_a_row;
     TicTacToeGame.shown := [] |}.

(** The locals and globals of an episode in which O has opened in the top
    left corner and X is to move, with a table that values every action of
    that position 0 and an exploration rate of 0.995. *)
Definition corner_episode : episode :=
  {| board := TicTacToeGame.board corner_game;
     state := board_to_tuple (TicTacToeGame.board corner_game);
     done := false;
     current_player := "X" |}.

Definition corner_globals : @globals Q :=
  {| Q_table := table_corner; EXPLORATION_RATE := 0.995%Q; learner_calls := [] |}.

(** The locals with which the episode that plays [actions_O_wins] ends. *)
Definition O_has_won : episode :=
  {| board :=
       [ ["O"; "O"; "O"; "O"; "O"];
         ["X"; "X"; "X"; "X"; " "];
         [" "; " "; " "; " "; " "];
         [" "; " "; " "; " "; " "];
         [" "; " "; " "; " "; " "] ]%string;
     state :=
       board_to_tuple
         [ ["O"; "O"; "O"; "O"; "O"];
           ["X"; "X"; "X"; "X"; " "];
           [" "; " "; " "; " "; " "];
           [" "; " "; " "; " "; " "];
           [" "; " "; " "; " "; " "] ]%string;
     done := true;
     current_player := "X" |}.
(** * Properties *)

(** ** Results and indexing *)

(** Closes [a = b] by evaluating both sides in the virtual machine; the kernel
    redoes the evaluation when the proof is closed. Unlike [vm_compute]
    followed by [reflexivity], the proof term does not hold the normal form. *)
Ltac vm_refl :=
  lazymatch goal with
  | |- ?a = ?b => vm_cast_no_check (@eq_refl _ b)
  end.

Lemma bind_Ok {A B : Type} (m : result A) (f : A -> result B) (b : B) :
  m ≫= f = Ok b -> exists a, m = Ok a /\ f a = Ok b.
Proof. destruct m as [a| |]; simpl; intros E; try discriminate. eauto. Qed.

Lemma result_bind_Ok {A B : Type} (a : A) (f : A -> result B) : Ok a ≫= f = f a.
Proof. reflexivity. Qed.

Lemma Ok_pair_inj {A B : Type} (a a' : A) (b b' : B) :
  Ok (a, b) = Ok (a', b') -> a = a' /\ b = b'.
Proof. intros [= -> ->]. now split. Qed.

Lemma getitem_Ok {A : Type} (l : list A) (i : nat) (x : A) :
  getitem l i = Ok x <-> l !! i = Some x.
Proof.
  unfold getitem. destruct (l !! i); split; intros E; congruence.
Qed.

Lemma getitem2_Ok {A : Type} (m : list (list A)) (i j : nat) (x : A) :
  getitem2 m i j = Ok x <-> exists row, m !! i = Some row /\ row !! j = Some x.
Proof.
  unfold getitem2. split.
  - intros E. apply bind_Ok in E as (row & E1 & E2).
    exists row. split; now apply getitem_Ok.
  - intros (row & E1 & E2). apply getitem_Ok in E1. rewrite E1. simpl.
    now apply getitem_Ok.
Qed.

(** ** Win and draw detection *)

(** What [is_draw] computes: the board has no blank cell. *)
Lemma is_draw_full (b : Board) :
  is_draw b = true <->
  forall row cell, row ∈ b -> cell ∈ row -> cell <> " "%string.
Proof.
  unfold is_draw. rewrite forallb_forall. split.
  - intros F row cell Hrow Hcell. apply list_elem_of_In in Hrow, Hcell.
    specialize (F row Hrow). rewrite forallb_forall in F.
    specialize (F cell Hcell). apply negb_true_iff, String.eqb_neq in F. exact F.
  - intros F row Hrow. apply forallb_forall. intros cell Hcell.
    apply negb_true_iff, String.eqb_neq.
    apply (F row cell); now apply list_elem_of_In.
Qed.

(** ** The value table *)

Section TableFacts.
Context {V : Type} `{Number V}.
Implicit Types (Qt : gmap StateKey (list V)) (values : list V).

Lemma getkey_Ok Qt state values :
  getkey Qt state = Ok values <-> Qt !! state = Some values.
Proof. unfold getkey. destruct (Qt !! state); split; intros E; congruence. Qed.

(** [np.argmax] answers an index of the vector. *)
Lemma argmax_scan_range (ip : list V) (max_ind : nat) (mp : V) (i : nat) :
  argmax_scan max_ind mp i ip = max_ind
  \/ (i <= argmax_scan max_ind mp i ip < i + length ip)%nat.
Proof.
  revert max_ind mp i. induction ip as [|x ip IH]; intros max_ind mp i; simpl.
  - now left.
  - destruct (num_le x mp).
    + destruct (IH max_ind mp (S i)) as [E|E]; [now left|right; lia].
    + destruct (num_isnan x); [right; lia|].
      destruct (IH i x (S i)) as [E|E]; right; lia.
Qed.

Lemma argmax_lt values (i : nat) :
  argmax values = Ok i -> (i < length values)%nat.
Proof.
  destruct values as [|mp ip]; simpl; [discriminate|].
  destruct (num_isnan mp); intros [= <-]; [lia|].
  destruct (argmax_scan_range ip 0 mp 1) as [->|E]; lia.
Qed.

Lemma argmax_nonempty values :
  values <> [] -> exists i, argmax values = Ok i.
Proof.
  destruct values as [|mp ip]; [congruence|]. intros _. simpl.
  destruct (num_isnan mp); eauto.
Qed.

(** [initialize_q_table] adds at most the key of its board, with the zero
    vector, and leaves every entry that is there as it is. *)
Lemma initialize_q_table_keeps board Qt state values :
  Qt !! state = Some values ->
  initialize_q_table board Qt !! state = Some values.
Proof.
  intros E. unfold initialize_q_table.
  destruct (Qt !! board_to_tuple board) eqn:E'; [exact E|].
  rewrite lookup_insert_ne; [exact E|]. intros <-. congruence.
Qed.

Lemma initialize_q_table_present board Qt :
  exists values, initialize_q_table board Qt !! board_to_tuple board = Some values.
Proof.
  unfold initialize_q_table.
  destruct (Qt !! board_to_tuple board) eqn:E; [eauto|].
  rewrite lookup_insert_eq. eauto.
Qed.

Lemma initialize_q_table_lookup board Qt state values :
  initialize_q_table board Qt !! state = Some values ->
  Qt !! state = Some values
  \/ (Qt !! state = None /\ state = board_to_tuple board
      /\ values = replicate (BOARD_SIZE * BOARD_SIZE) num_zero).
Proof.
  unfold initialize_q_table.
  destruct (Qt !! board_to_tuple board) eqn:E; [now left|].
  destruct (decide (board_to_tuple board = state)) as [<-|Hne].
  - rewrite lookup_insert_eq. intros [= <-]. now right.
  - rewrite lookup_insert_ne by exact Hne. now left.
Qed.

Lemma initialize_q_table_ok board Qt :
  table_ok Qt -> table_ok (initialize_q_table board Qt).
Proof.
  intros Hok state values E.
  apply initialize_q_table_lookup in E as [E|(_ & _ & ->)].
  - exact (Hok _ _ E).
  - apply length_replicate.
Qed.

(** When [update_q_table] returns and what it returns. *)
Lemma update_q_table_Ok state action reward next_state Qt Qt' :
  update_q_table state action reward next_state Qt = Ok Qt' <->
  exists values old next_values best best_next,
    Qt !! state = Some values /\ values !! action = Some old
    /\ Qt !! next_state = Some next_values /\ argmax next_values = Ok best
    /\ next_values !! best = Some best_next
    /\ Qt' = <[state := <[action := td_update old reward best_next]> values]> Qt.
Proof.
  unfold update_q_table. split.
  - intros E.
    apply bind_Ok in E as (next_values & E1 & E). apply getkey_Ok in E1.
    apply bind_Ok in E as (best & E2 & E).
    apply bind_Ok in E as (next_values' & E3 & E). apply getkey_Ok in E3.
    assert (next_values' = next_values) as -> by congruence.
    apply bind_Ok in E as (best_next & E4 & E). apply getitem_Ok in E4.
    apply bind_Ok in E as (values & E5 & E). apply getkey_Ok in E5.
    apply bind_Ok in E as (old & E6 & E). apply getitem_Ok in E6.
    apply bind_Ok in E as (values' & E7 & E). apply getkey_Ok in E7.
    assert (values' = values) as -> by congruence.
    apply bind_Ok in E as (old' & E8 & E). apply getitem_Ok in E8.
    assert (old' = old) as -> by congruence.
    injection E as <-.
    exists values, old, next_values, best, best_next. now repeat split.
  - intros (values & old & next_values & best & best_next
            & E1 & E2 & E3 & E4 & E5 & ->).
    apply getkey_Ok in E1, E3. apply getitem_Ok in E2, E5.
    rewrite E3. simpl. rewrite E4. simpl. rewrite E5. simpl.
    rewrite E1. simpl. rewrite E2. simpl.
    reflexivity.
Qed.

Lemma update_q_table_ok state action reward next_state Qt Qt' :
  table_ok Qt ->
  update_q_table state action reward next_state Qt = Ok Qt' ->
  table_ok Qt'.
Proof.
  intros Hok E.
  apply update_q_table_Ok in E
    as (values & old & next_values & best & best_next & E1 & _ & _ & _ & _ & ->).
  apply map_Forall_insert_2; [|exact Hok].
  rewrite length_insert. exact (Hok _ _ E1).
Qed.

Lemma run_op_ok Qt (op : table_op) : table_ok Qt -> table_ok (run_op Qt op).
Proof.
  intros Hok. destruct op as [board|state action reward next_state]; simpl.
  - now apply initialize_q_table_ok.
  - destruct (update_q_table state action reward next_state Qt) eqn:E;
      [|exact Hok|exact Hok].
    exact (update_q_table_ok _ _ _ _ _ _ Hok E).
Qed.

Lemma run_ops_ok (ops : list table_op) Qt : table_ok Qt -> table_ok (run_ops ops Qt).
Proof.
  unfold run_ops. revert Qt. induction ops as [|op ops IH]; intros Qt Hok; simpl.
  - exact Hok.
  - apply IH. now apply run_op_ok.
Qed.

End TableFacts.

(** ** The learner *)

(** [update_q_table] on keys that are present: the value written and the
    frame. *)
Lemma update_q_table_present {V : Type} `{Number V} (Qt : gmap StateKey (list V))
    state action reward next_state values old next_values :
  Qt !! state = Some values -> values !! action = Some old ->
  Qt !! next_state = Some next_values -> next_values <> [] ->
  exists best best_next Qt',
    argmax next_values = Ok best
    /\ value Qt next_state best = Some best_next
    /\ update_q_table state action reward next_state Qt = Ok Qt'
    /\ value Qt' state action = Some (td_update old reward best_next)
    /\ (forall state' action', state' <> state \/ action' <> action ->
          value Qt' state' action' = value Qt state' action')
    /\ dom Qt' = dom Qt.
Proof.
  intros E1 E2 E3 Hne.
  destruct (argmax_nonempty next_values Hne) as [best E4].
  destruct (lookup_lt_is_Some_2 next_values best (argmax_lt _ _ E4))
    as [best_next E5].
  exists best, best_next,
    (<[state := <[action := td_update old reward best_next]> values]> Qt).
  split; [exact E4|]. split; [unfold value; rewrite E3; exact E5|].
  split; [apply update_q_table_Ok; exists values, old, next_values, best, best_next;
          now repeat split|].
  split; [|split].
  - unfold value. rewrite lookup_insert_eq. simpl.
    apply list_lookup_insert_eq. now apply lookup_lt_Some in E2.
  - intros state' action' Hother. unfold value.
    destruct (decide (state = state')) as [<-|Hs].
    + rewrite lookup_insert_eq, E1. simpl.
      destruct Hother as [Hs|Ha]; [congruence|].
      apply list_lookup_insert_ne. congruence.
    + now rewrite lookup_insert_ne.
  - apply set_eq. intros k. rewrite !elem_of_dom.
    destruct (decide (state = k)) as [<-|Hs].
    + rewrite lookup_insert_eq, E1. split; eauto.
    + now rewrite lookup_insert_ne.
Qed.

(** ** The greedy choice *)

Section ArgmaxOrder.
Context {V : Type} `{Number V}.

(** The items of the vector at hand: none of them is a NaN and the comparison
    is that of a total order on them. *)
Variable D : V -> Prop.
Hypothesis no_nan : forall x : V, D x -> num_isnan x = false.
Hypothesis le_total :
  forall x y : V, D x -> D y -> num_le x y = true \/ num_le y x = true.
Hypothesis le_trans :
  forall x y z : V, D x -> D y -> D z ->
    num_le x y = true -> num_le y z = true -> num_le x z = true.

Lemma first_max_snoc_le (pre : list V) (i : nat) (m x : V) :
  first_max pre i m -> num_le x m = true -> first_max (pre ++ [x]) i m.
Proof.
  intros (Hi & Hle & Hlt) Hx. 
  assert (Hlen : (i < length pre)%nat) by now apply lookup_lt_Some in Hi.
  split; [|split].
  - now rewrite lookup_app_l.
  - intros j y Hj. apply lookup_snoc_Some in Hj as [[_ Hj]|[_ <-]]; eauto.
  - intros j y Hji Hj. rewrite lookup_app_l in Hj by lia. eauto.
Qed.

Lemma first_max_snoc_gt (pre : list V) (i : nat) (m x : V) :
  Forall D pre -> D x ->
  first_max pre i m -> num_le x m = false -> first_max (pre ++ [x]) (length pre) x.
Proof.
  intros Hpre Dx (Hi & Hle & Hlt) Hx.
  assert (Din : forall j y, pre !! j = Some y -> D y).
  { intros j y Hj. rewrite Forall_forall in Hpre. apply Hpre.
    eapply list_elem_of_lookup_2. exact Hj. }
  assert (Dm : D m) by exact (Din _ _ Hi).
  assert (Hmx : num_le m x = true).
  { destruct (le_total m x Dm Dx) as [E|E]; [exact E|congruence]. }
  split; [|split].
  - apply list_lookup_middle. reflexivity.
  - intros j y Hj. apply lookup_snoc_Some in Hj as [[_ Hj]|[_ <-]].
    + apply (le_trans y m x); eauto.
    + destruct (le_total x x Dx Dx); assumption.
  - intros j y Hji Hj. rewrite lookup_app_l in Hj by lia.
    destruct (num_le x y) eqn:E; [|reflexivity].
    rewrite (le_trans x y m Dx (Din _ _ Hj) Dm E (Hle _ _ Hj)) in Hx. discriminate.
Qed.

Lemma argmax_scan_first_max (ip pre : list V) (max_ind : nat) (mp : V) :
  Forall D pre -> Forall D ip ->
  first_max pre max_ind mp ->
  exists m, first_max (pre ++ ip) (argmax_scan max_ind mp (length pre) ip) m.
Proof.
  revert pre max_ind mp. induction ip as [|x ip IH]; intros pre max_ind mp Dpre Dip Hpre.
  - simpl. rewrite app_nil_r. eauto.
  - apply Forall_cons in Dip as [Dx Dip].
    assert (Dpre' : Forall D (pre ++ [x])).
    { apply Forall_app. split; [exact Dpre|]. now constructor. }
    simpl. destruct (num_le x mp) eqn:E.
    + replace (pre ++ x :: ip) with ((pre ++ [x]) ++ ip) by now rewrite <- app_assoc.
      replace (S (length pre)) with (length (pre ++ [x]))
        by (rewrite length_app; simpl; lia).
      apply IH; [exact Dpre'|exact Dip|]. now apply first_max_snoc_le.
    + rewrite (no_nan x Dx).
      replace (pre ++ x :: ip) with ((pre ++ [x]) ++ ip) by now rewrite <- app_assoc.
      replace (S (length pre)) with (length (pre ++ [x]))
        by (rewrite length_app; simpl; lia).
      apply IH; [exact Dpre'|exact Dip|]. eapply first_max_snoc_gt; eauto.
Qed.

(** [np.argmax] answers the lowest index at which the maximum is attained. *)
Lemma argmax_first_max (values : list V) :
  Forall D values ->
  values <> [] -> exists i m, argmax values = Ok i /\ first_max values i m.
Proof.
  destruct values as [|mp ip]; [congruence|]. intros Dv _.
  apply Forall_cons in Dv as [Dmp Dip]. simpl. rewrite (no_nan mp Dmp).
  destruct (argmax_scan_first_max ip [mp] 0 mp) as [m Hm].
  - now constructor.
  - exact Dip.
  - split; [reflexivity|]. split.
    + intros [|j] x Hj; simpl in Hj; [|discriminate].
      injection Hj as <-. destruct (le_total mp mp Dmp Dmp); assumption.
    + intros j x Hj. lia.
  - exists (argmax_scan 0 mp 1 ip), m. split; [reflexivity|exact Hm].
Qed.

End ArgmaxOrder.

(** The comparison of binary64 is that of a total order on the doubles that
    are not NaN. *)
Ltac compare_cases :=
  repeat match goal with
         | |- context [(?a ?= ?b)%Z] => destruct (Z.compare_spec a b)
         | H : context [(?a ?= ?b)%Z] |- _ => destruct (Z.compare_spec a b)
         | |- context [(?a ?= ?b)%positive] => destruct (Pos.compare_spec a b)
         | H : context [(?a ?= ?b)%positive] |- _ => destruct (Pos.compare_spec a b)
         end.

Lemma SFleb_total (x y : spec_float) :
  x <> S754_nan -> y <> S754_nan -> SFleb x y = true \/ SFleb y x = true.
Proof.
  intros Hx Hy. unfold SFleb, SFcompare.
  destruct x as [sx|sx| |sx mx ex], y as [sy|sy| |sy my ey]; try congruence;
    try destruct sx; try destruct sy; auto.
  all: change (PosDef.Pos.compare_cont Eq ?a ?b) with (Pos.compare a b).
  all: compare_cases; simpl; auto; try lia.
Qed.

Lemma SFleb_trans (x y z : spec_float) :
  SFleb x y = true -> SFleb y z = true -> SFleb x z = true.
Proof.
  unfold SFleb, SFcompare.
  destruct x as [sx|sx| |sx mx ex], y as [sy|sy| |sy my ey], z as [sz|sz| |sz mz ez];
    try discriminate; try destruct sx; try destruct sy; try destruct sz;
    try discriminate; auto.
  all: change (PosDef.Pos.compare_cont Eq ?a ?b) with (Pos.compare a b).
  all: intros H1 H2; compare_cases; simpl in *; try discriminate; try reflexivity;
    try lia.
Qed.

Lemma is_nan_false (x : float) : PrimFloat.is_nan x = false -> Prim2SF x <> S754_nan.
Proof.
  unfold PrimFloat.is_nan. rewrite FloatAxioms.eqb_spec. intros E Hn.
  rewrite Hn in E. discriminate.
Qed.

Lemma float_le_total (x y : float) :
  PrimFloat.is_nan x = false -> PrimFloat.is_nan y = false ->
  PrimFloat.leb x y = true \/ PrimFloat.leb y x = true.
Proof.
  intros Hx Hy. rewrite !FloatAxioms.leb_spec.
  apply SFleb_total; now apply is_nan_false.
Qed.

Lemma float_le_trans (x y z : float) :
  PrimFloat.leb x y = true -> PrimFloat.leb y z = true -> PrimFloat.leb x z = true.
Proof. rewrite !FloatAxioms.leb_spec. apply SFleb_trans. Qed.

(** Hence on a vector of doubles without NaN, as on any vector of rationals,
    [np.argmax] answers the lowest index of a maximum. *)
Lemma argmax_first_max_binary64 (values : list float) :
  Forall (fun x => PrimFloat.is_nan x = false) values ->
  values <> [] -> exists i m, argmax values = Ok i /\ first_max values i m.
Proof.
  apply (argmax_first_max (fun x => PrimFloat.is_nan x = false)).
  - intros x Hx. exact Hx.
  - intros x y. apply float_le_total.
  - intros x y z _ _ _. apply float_le_trans.
Qed.

Lemma Q_le_total (x y : Q) : Qle_bool x y = true \/ Qle_bool y x = true.
Proof.
  rewrite !Qle_bool_iff. destruct (Qlt_le_dec x y) as [L|L]; [left|right]; auto.
  now apply Qlt_le_weak.
Qed.

Lemma Q_le_trans (x y z : Q) :
  Qle_bool x y = true -> Qle_bool y z = true -> Qle_bool x z = true.
Proof. rewrite !Qle_bool_iff. apply Qle_trans. Qed.

(** ** The interactive game: what [ai_move] does *)

Lemma bind_eval {A B : Type} (f : TicTacToeGame.game -> result A)
    (k : A -> TicTacToeGame.M B) (self : TicTacToeGame.game) :
  TicTacToeGame.bind (TicTacToeGame.eval f) k self
  = match f self with
    | Ok a => k a self
    | Raise e => (Raise e, self)
    | Starved => (Starved, self)
    end.
Proof. unfold TicTacToeGame.bind, TicTacToeGame.eval. now destruct (f self). Qed.

Lemma bind_assign {B : Type} (f : TicTacToeGame.game -> TicTacToeGame.game)
    (k : unit -> TicTacToeGame.M B) (self : TicTacToeGame.game) :
  TicTacToeGame.bind (TicTacToeGame.assign f) k self = k tt (f self).
Proof. reflexivity. Qed.

Lemma bind_ret {A B : Type} (a : A) (k : A -> TicTacToeGame.M B)
    (self : TicTacToeGame.game) :
  TicTacToeGame.bind (TicTacToeGame.ret a) k self = k a self.
Proof. reflexivity. Qed.

Lemma bind_bind {A B C : Type} (m : TicTacToeGame.M A) (k1 : A -> TicTacToeGame.M B)
    (k2 : B -> TicTacToeGame.M C) (self : TicTacToeGame.game) :
  TicTacToeGame.bind (TicTacToeGame.bind m k1) k2 self
  = TicTacToeGame.bind m (fun a => TicTacToeGame.bind (k1 a) k2) self.
Proof.
  unfold TicTacToeGame.bind. destruct (m self) as [[a| |] self']; reflexivity.
Qed.

(** Runs the straight-line part of a method on the object at hand. *)
Ltac run :=
  repeat first
    [ rewrite bind_bind | rewrite bind_eval | rewrite bind_assign
    | rewrite bind_ret
    | progress unfold TicTacToeGame.mark, TicTacToeGame.config, TicTacToeGame.showinfo ];
  cbn [TicTacToeGame.ret TicTacToeGame.marked TicTacToeGame.set_board
       TicTacToeGame.set_buttons TicTacToeGame.set_current_player
       TicTacToeGame.set_shown TicTacToeGame.board TicTacToeGame.buttons
       TicTacToeGame.ai_symbol TicTacToeGame.human_symbol
       TicTacToeGame.current_player TicTacToeGame.shown].

Section GameFacts.
Context {V : Type} `{Number V}.
Variable Qt : gmap StateKey (list V).
Import TicTacToeGame.

(** One activation of [ai_move], with the nested activations left folded. *)
Lemma ai_move_S (depth : nat) :
  ai_move Qt (S depth) =
  (state <- eval (fun self => Ok (board_to_tuple (board self))) ;;
   values <- eval (fun _ => getkey Qt state) ;;
   action <- eval (fun _ => argmax values) ;;
   cell <- eval (fun self =>
             getitem2 (board self) (action / BOARD_SIZE) (action mod BOARD_SIZE)) ;;
   if String.eqb cell " " then
     ai <- eval (fun self => Ok (ai_symbol self)) ;;
     mark (action / BOARD_SIZE) (action mod BOARD_SIZE) ai ;;
     config (action / BOARD_SIZE) (action mod BOARD_SIZE) ai ;;
     won <- eval (fun self => is_winner (board self) ai) ;;
     if won : bool then
       end_game (ai_move Qt depth) ("AI (" +:+ ai +:+ ") wins!")
     else
       full <- eval (fun self => Ok (is_draw (board self))) ;;
       if full : bool then end_game (ai_move Qt depth) "It's a draw!"
       else assign (fun self => set_current_player (human_symbol self) self)
   else ret tt)%method.
Proof. reflexivity. Qed.

(** The AI's greedy action targets a cell that is not blank: nothing happens. *)
Lemma ai_move_occupied (depth : nat) (self : game) values action cell :
  Qt !! board_to_tuple (board self) = Some values ->
  argmax values = Ok action ->
  getitem2 (board self) (action / BOARD_SIZE) (action mod BOARD_SIZE) = Ok cell ->
  cell <> " "%string ->
  ai_move Qt (S depth) self = (Ok tt, self).
Proof.
  intros E1 E2 E3 Hcell. apply getkey_Ok in E1. apply String.eqb_neq in Hcell.
  rewrite ai_move_S. run. rewrite E1. run. rewrite E2. run. rewrite E3. run.
  rewrite Hcell. reflexivity.
Qed.

(** No entry for the board at hand: [Q[state]] raises and nothing has changed. *)
Lemma ai_move_unseen (depth : nat) (self : game) :
  Qt !! board_to_tuple (board self) = None ->
  ai_move Qt (S depth) self = (Raise KeyError, self).
Proof.
  intros E. rewrite ai_move_S. run. unfold getkey. rewrite E. reflexivity.
Qed.

(** The AI's greedy action targets a blank cell and the game goes on: the
    mark goes to the cell of that action and the turn passes to the human. *)
Lemma ai_move_continue (depth : nat) (self : game) values action label :
  let row := (action / BOARD_SIZE)%nat in
  let col := (action mod BOARD_SIZE)%nat in
  Qt !! board_to_tuple (board self) = Some values ->
  argmax values = Ok action ->
  getitem2 (board self) row col = Ok " "%string ->
  getitem2 (buttons self) row col = Ok label ->
  is_winner (setitem2 (board self) row col (ai_symbol self)) (ai_symbol self) = Ok false ->
  is_draw (setitem2 (board self) row col (ai_symbol self)) = false ->
  ai_move Qt (S depth) self
  = (Ok tt, set_current_player (human_symbol self) (marked row col (ai_symbol self) self)).
Proof.
  intros row col E1 E2 E3 E4 E5 E6. apply getkey_Ok in E1.
  rewrite ai_move_S. run. rewrite E1. run. rewrite E2. run.
  fold row col. rewrite E3. run. rewrite String.eqb_refl. run.
  rewrite E4. run. rewrite E5. run. rewrite E6.
  reflexivity.
Qed.

(** A click on an occupied cell, or when it is not the human's turn, does
    nothing. *)
Lemma make_move_rejected (depth row col : nat) (self : game) (cell : string) :
  getitem2 (board self) row col = Ok cell ->
  cell <> " "%string \/ current_player self <> human_symbol self ->
  make_move Qt depth row col self = (Ok tt, self).
Proof.
  intros E Hno. unfold make_move. run. rewrite E. run.
  replace (String.eqb cell " " && String.eqb (current_player self) (human_symbol self))
    with false; [reflexivity|].
  symmetry. apply andb_false_iff.
  destruct Hno as [Hc|Hp]; [left|right]; now apply String.eqb_neq.
Qed.

(** A click that does not index the board raises; the object is unchanged. *)
Lemma make_move_outside (depth row col : nat) (self : game) (e : exn) :
  getitem2 (board self) row col = Raise e ->
  make_move Qt depth row col self = (Raise e, self).
Proof. intros E. unfold make_move. run. now rewrite E. Qed.

(** A click by the human on a blank cell: the mark is placed, then the game
    is won, drawn, or the AI replies. *)
Lemma make_move_accepted (depth row col : nat) (self : game) (label : string)
    (won : bool) :
  let human := human_symbol self in
  let m := marked row col human self in
  getitem2 (board self) row col = Ok " "%string ->
  current_player self = human_symbol self ->
  getitem2 (buttons self) row col = Ok label ->
  is_winner (board m) human = Ok won ->
  make_move Qt depth row col self
  = if won then end_game (ai_move Qt depth) ("Player " +:+ human +:+ " wins!") m
    else if is_draw (board m) then end_game (ai_move Qt depth) "It's a draw!" m
    else ai_move Qt depth (set_current_player (ai_symbol self) m).
Proof.
  intros human m E1 E2 E3 E4. unfold make_move. run. rewrite E1. run.
  rewrite E2, !String.eqb_refl. cbn [andb]. run. rewrite E3. run.
  fold human. change (setitem2 (board self) row col human) with (board m).
  rewrite E4. destruct won; [reflexivity|]. run.
  change (setitem2 (board self) row col human) with (board m).
  destruct (is_draw (board m)); run; reflexivity.
Qed.

End GameFacts.

(** ** The training loop *)

Section TrainingFacts.
Context {V : Type} `{Number V}.
Implicit Types (l : episode) (g : @globals V) (d : @draw V).

(** The two ways a turn returns: the target is occupied and nothing changes, or
    it is blank and the move, the table entry and the update are made. *)
Lemma turn_Ok d l g l' g' :
  turn d l g = Ok (l', g') ->
  exists action cell,
    choose_action (Q_table g) (state l) (EXPLORATION_RATE g) d = Ok action
    /\ getitem2 (board l) (action / BOARD_SIZE) (action mod BOARD_SIZE) = Ok cell
    /\ ((cell <> " "%string /\ l' = l /\ g' = g)
        \/ (cell = " "%string
            /\ exists won Qt2,
                 let board' :=
                   setitem2 (board l) (action / BOARD_SIZE) (action mod BOARD_SIZE)
                     (current_player l) in
                 let j := judged won board' (current_player l) (done l) in
                 is_winner board' (current_player l) = Ok won
                 /\ update_q_table (state l) action (fst j) (board_to_tuple board')
                      (initialize_q_table board' (Q_table g)) = Ok Qt2
                 /\ l' = {| board := board'; state := board_to_tuple board';
                            done := snd j;
                            current_player :=
                              if String.eqb (current_player l) "O" then "X" else "O" |}
                 /\ g' = {| Q_table := Qt2;
                            EXPLORATION_RATE := EXPLORATION_RATE g;
                            learner_calls :=
                              learner_calls g
                              ++ [Transition (state l) action (fst j)
                                    (board_to_tuple board')] |})).
Proof.
  unfold turn. intros E.
  apply bind_Ok in E as (action & E1 & E).
  apply bind_Ok in E as (cell & E2 & E).
  exists action, cell. split; [exact E1|]. split; [exact E2|].
  destruct (String.eqb_spec cell " ") as [->|Hcell].
  - right. split; [reflexivity|].
    apply bind_Ok in E as (won & E3 & E).
    exists won. unfold judged.
    destruct won; [|destruct (is_draw _)];
      apply bind_Ok in E as (Qt2 & E4 & E); injection E as <- <-;
      exists Qt2; simpl; auto.
  - left. injection E as <- <-. auto.
Qed.

(** A turn whose target is occupied returns the state it was given. *)
Lemma turn_occupied d l g action cell :
  choose_action (Q_table g) (state l) (EXPLORATION_RATE g) d = Ok action ->
  getitem2 (board l) (action / BOARD_SIZE) (action mod BOARD_SIZE) = Ok cell ->
  cell <> " "%string ->
  turn d l g = Ok (l, g).
Proof.
  intros E1 E2 Hcell. unfold turn. rewrite E1, result_bind_Ok. cbv zeta.
  rewrite E2, result_bind_Ok.
  apply String.eqb_neq in Hcell. now rewrite Hcell.
Qed.

Lemma turn_rate d l g l' g' :
  turn d l g = Ok (l', g') -> EXPLORATION_RATE g' = EXPLORATION_RATE g.
Proof.
  intros E. apply turn_Ok in E as (action & cell & _ & _ & [(_ & _ & ->)|(_ & E)]).
  - reflexivity.
  - destruct E as (won & Qt2 & _ & _ & _ & ->). reflexivity.
Qed.

(** A property of the loop state that every turn preserves holds when the
    [while] is left. *)
Lemma play_invariant (P : episode -> @globals V -> Prop) :
  (forall d l g l' g', P l g -> turn d l g = Ok (l', g') -> P l' g') ->
  forall tape l g l' g' tape',
    P l g -> play tape l g = Ok (l', g', tape') -> P l' g'.
Proof.
  intros Hturn tape. induction tape as [|d tape IH]; intros l g l' g' tape' HP E.
  - simpl in E. destruct (done l); [|discriminate]. now injection E as <- <- <-.
  - simpl in E. destruct (done l); [now injection E as <- <- <-|].
    apply bind_Ok in E as ([l1 g1] & E1 & E).
    apply (IH l1 g1 l' g' tape'); [|exact E]. exact (Hturn _ _ _ _ _ HP E1).
Qed.

(** A property of the globals that the start of an episode turns into a loop
    invariant and that the decay restores holds after training. *)
Lemma train_ai_invariant (R : @globals V -> Prop) (P : episode -> @globals V -> Prop) :
  (forall g, R g -> P (fst (episode_start g)) (snd (episode_start g))) ->
  (forall d l g l' g', P l g -> turn d l g = Ok (l', g') -> P l' g') ->
  (forall l g, P l g -> R (decay g)) ->
  forall episodes tape g g' tape',
    R g -> train_ai episodes tape g = Ok (g', tape') -> R g'.
Proof.
  intros Hstart Hturn Hdecay episodes.
  induction episodes as [|episodes IH]; intros tape g g' tape' HR E.
  - simpl in E. now injection E as <- <-.
  - simpl in E. apply bind_Ok in E as ([[l2 g2] tape2] & E1 & E).
    apply (IH tape2 (decay g2) g' tape'); [|exact E].
    apply (Hdecay l2).
    exact (play_invariant P Hturn _ _ _ _ _ _ (Hstart g HR) E1).
Qed.

Lemma rate_after_S (k : nat) (rate : V) :
  rate_after k (num_mul rate EXPLORATION_DECAY) = rate_after (S k) rate.
Proof. unfold rate_after. now rewrite Nat.iter_succ_r. Qed.

(** Training decays the rate once for each episode, whatever the tape. *)
Lemma train_ai_rate episodes tape g g' tape' :
  train_ai episodes tape g = Ok (g', tape') ->
  EXPLORATION_RATE g' = rate_after episodes (EXPLORATION_RATE g).
Proof.
  revert tape g. induction episodes as [|episodes IH]; intros tape g E.
  - simpl in E. now injection E as <- <-.
  - simpl in E. apply bind_Ok in E as ([[l2 g2] tape2] & E1 & E).
    apply IH in E. rewrite E. simpl EXPLORATION_RATE.
    rewrite <- rate_after_S. f_equal. f_equal.
    apply (play_invariant (fun _ g1 => EXPLORATION_RATE g1 = EXPLORATION_RATE g))
      in E1; [exact E1| |reflexivity].
    intros d l1 g1 l1' g1' HP Et. rewrite <- HP. exact (turn_rate _ _ _ _ _ Et).
Qed.

End TrainingFacts.

(** ** The exploration rate *)

Lemma rate_after_succ (k : nat) (rate : Q) :
  rate_after (S k) rate = (rate_after k rate * 0.995)%Q.
Proof. reflexivity. Qed.

Lemma rate_after_power (k : nat) (rate : Q) :
  (rate_after k rate == rate * 0.995 ^ Z.of_nat k)%Q.
Proof.
  induction k as [|k IH].
  - change (rate_after 0 rate) with rate. simpl. ring.
  - rewrite rate_after_succ, IH, Nat2Z.inj_succ. unfold Z.succ.
    rewrite Qpower_plus by discriminate. change (0.995 ^ 1)%Q with 0.995%Q. ring.
Qed.

Lemma rate_after_nonneg (k : nat) (rate : Q) :
  (0 <= rate -> 0 <= rate_after k rate)%Q.
Proof.
  intros Hr. induction k as [|k IH]; [exact Hr|].
  rewrite rate_after_succ. lra.
Qed.

Lemma rate_after_decreases (k : nat) (rate : Q) :
  (0 <= rate -> rate_after (S k) rate <= rate_after k rate)%Q.
Proof.
  intros Hr. pose proof (rate_after_nonneg k rate Hr) as Hk.
  rewrite rate_after_succ. lra.
Qed.

(** The rate after the thousand episodes the program trains for. *)
Lemma Qpower_base_mono (n : nat) (a b : Q) :
  (0 <= a -> a <= b -> a ^ Z.of_nat n <= b ^ Z.of_nat n)%Q.
Proof.
  intros Ha Hab. induction n as [|n IH].
  - simpl. apply Qle_refl.
  - rewrite Nat2Z.inj_succ. unfold Z.succ.
    rewrite !Qpower_plus' by lia.
    change (a ^ 1)%Q with a. change (b ^ 1)%Q with b.
    apply Qmult_le_compat_nonneg.
    + split; [apply Qpower_0_le; exact Ha|exact IH].
    + split; assumption.
Qed.

(** The hundredth power of the decay, to five digits. *)
Lemma decay_power_100 : (0.60577 <= 0.995 ^ 100 /\ 0.995 ^ 100 <= 0.60578)%Q.
Proof. split; vm_compute; discriminate. Qed.

Lemma rate_after_1000_bounds :
  (0.00665 < rate_after EPISODES INITIAL_EXPLORATION_RATE
   /\ rate_after EPISODES INITIAL_EXPLORATION_RATE < 0.00666)%Q.
Proof.
  destruct decay_power_100 as [Hlo Hhi].
  assert (E : (rate_after EPISODES INITIAL_EXPLORATION_RATE == (0.995 ^ 100) ^ 10)%Q).
  { rewrite rate_after_power. change (Z.of_nat EPISODES) with (100 * 10)%Z.
    rewrite Qpower_mult. generalize ((0.995 ^ 100) ^ 10)%Q. intros c.
    change (INITIAL_EXPLORATION_RATE : Q) with 1.0%Q. ring. }
  rewrite E. split.
  - apply Qlt_le_trans with (0.60577 ^ 10)%Q; [vm_compute; reflexivity|].
    apply (Qpower_base_mono 10); [vm_compute; discriminate|exact Hlo].
  - apply Qle_lt_trans with (0.60578 ^ 10)%Q; [|vm_compute; reflexivity].
    apply (Qpower_base_mono 10); [|exact Hhi].
    apply Qle_trans with 0.60577%Q; [vm_compute; discriminate|exact Hlo].
Qed.

(** ** Well-formed boards *)

Lemma wf_board_empty : wf_board empty_board.
Proof. split; [reflexivity|]. repeat constructor. Qed.

Lemma wf_board_getitem2 (b : Board) (row col : nat) :
  wf_board b -> (row < BOARD_SIZE)%nat -> (col < BOARD_SIZE)%nat ->
  returns (getitem2 b row col).
Proof.
  intros [Hlen Hrows] Hrow Hcol.
  destruct (lookup_lt_is_Some_2 b row) as [r Hr]; [now rewrite Hlen|].
  assert (Hr' : length r = BOARD_SIZE).
  { rewrite Forall_forall in Hrows. apply Hrows.
    eapply list_elem_of_lookup_2. exact Hr. }
  destruct (lookup_lt_is_Some_2 r col) as [c Hc]; [now rewrite Hr'|].
  exists c. apply getitem2_Ok. eauto.
Qed.

Lemma wf_board_setitem2 (b : Board) (i j : nat) (x : string) :
  wf_board b -> wf_board (setitem2 b i j x).
Proof.
  intros [Hlen Hrows]. unfold setitem2. split.
  - now rewrite length_alter.
  - rewrite Forall_forall in *. intros row Hrow.
    apply list_elem_of_lookup in Hrow as [k Hk].
    destruct (decide (i = k)) as [<-|Hne].
    + destruct (b !! i) as [r|] eqn:Hr.
      * rewrite list_lookup_alter_eq, Hr in Hk. simpl in Hk.
        injection Hk as <-. rewrite length_insert. apply Hrows.
        eapply list_elem_of_lookup_2. exact Hr.
      * rewrite list_lookup_alter_eq, Hr in Hk. discriminate.
    + rewrite list_lookup_alter_ne in Hk by exact Hne.
      apply Hrows. eapply list_elem_of_lookup_2. exact Hk.
Qed.

Lemma all_returns (tests : list (result bool)) :
  Forall returns tests -> returns (all_ tests).
Proof.
  induction 1 as [|t tests [b ->] _ IH]; simpl.
  - now exists true.
  - destruct b; [exact IH|now exists false].
Qed.

Lemma any_returns (tests : list (result bool)) :
  Forall returns tests -> returns (any_ tests).
Proof.
  induction 1 as [|t tests [b ->] _ IH]; simpl.
  - now exists false.
  - destruct b; [now exists true|exact IH].
Qed.

Lemma or_returns (a b : result bool) : returns a -> returns b -> returns (or_ a b).
Proof. intros [x ->] Hb. destruct x; simpl; [now exists true|exact Hb]. Qed.

(** On a 5x5 board [is_winner] indexes within range: it returns. *)
Lemma is_winner_returns (b : Board) (player : string) :
  wf_board b -> returns (is_winner b player).
Proof.
  intros Hwf. unfold is_winner.
  assert (Hcell : forall i j, (i < BOARD_SIZE)%nat -> (j < BOARD_SIZE)%nat ->
            returns (c ← getitem2 b i j; Ok (String.eqb c player))).
  { intros i j Hi Hj. destruct (wf_board_getitem2 b i j Hwf Hi Hj) as [c ->].
    now exists (String.eqb c player). }
  assert (Hline : forall f g : nat -> nat,
            (forall i, (i < BOARD_SIZE)%nat -> (f i < BOARD_SIZE)%nat) ->
            (forall i, (i < BOARD_SIZE)%nat -> (g i < BOARD_SIZE)%nat) ->
            returns (all_ (map (fun i => c ← getitem2 b (f i) (g i);
                                         Ok (String.eqb c player))
                             (seq 0 BOARD_SIZE)))).
  { intros f g Hf Hg. apply all_returns. apply Forall_map, Forall_forall.
    intros i Hi. apply elem_of_seq in Hi. apply Hcell; [apply Hf|apply Hg]; lia. }
  assert (Hany : returns (any_ (map (fun i =>
            or_ (all_ (map (fun j => c ← getitem2 b i j; Ok (String.eqb c player))
                         (seq 0 BOARD_SIZE)))
                (all_ (map (fun j => c ← getitem2 b j i; Ok (String.eqb c player))
                         (seq 0 BOARD_SIZE)))) (seq 0 BOARD_SIZE)))).
  { apply any_returns. apply Forall_map, Forall_forall. intros i Hi.
    apply elem_of_seq in Hi. apply or_returns.
    - apply (Hline (fun _ => i) (fun j => j)); intros; lia.
    - apply (Hline (fun j => j) (fun _ => i)); intros; lia. }
  destruct Hany as [hit ->]. rewrite result_bind_Ok.
  destruct hit; [now exists true|].
  assert (Hdiag : returns (or_
            (all_ (map (fun i => c ← getitem2 b i i; Ok (String.eqb c player))
                     (seq 0 BOARD_SIZE)))
            (all_ (map (fun i => c ← getitem2 b i (BOARD_SIZE - i - 1);
                                 Ok (String.eqb c player)) (seq 0 BOARD_SIZE))))).
  { apply or_returns.
    - apply (Hline (fun i => i) (fun i => i)); intros; lia.
    - apply (Hline (fun i => i) (fun i => (BOARD_SIZE - i - 1)%nat)); intros; lia. }
  destruct Hdiag as [diag ->]. rewrite result_bind_Ok. destruct diag; [now exists true|now exists false].
Qed.

(** ** The training loop never raises *)

Section TrainingTotal.
Context {V : Type} `{Number V}.
Implicit Types (l : episode) (g : @globals V) (d : @draw V)
  (Qt : gmap StateKey (list V)).

Lemma loop_inv_start g :
  table_ok (Q_table g) ->
  loop_inv (fst (episode_start g)) (snd (episode_start g)).
Proof.
  intros Hok. split; [exact wf_board_empty|]. split.
  - simpl. now apply initialize_q_table_ok.
  - simpl. destruct (initialize_q_table_present empty_board (Q_table g)) as [v Hv].
    rewrite Hv. eauto.
Qed.

(** On a well-formed table whose key is present, the policy answers an action
    index. *)
Lemma choose_action_returns Qt state rate d :
  table_ok Qt -> is_Some (Qt !! state) -> valid_draw d ->
  exists action,
    choose_action Qt state rate d = Ok action
    /\ (action < BOARD_SIZE * BOARD_SIZE)%nat.
Proof.
  intros Hok [values Hv] Hd. unfold choose_action.
  destruct (num_lt (uniform d) rate).
  - exists (randint d). split; [reflexivity|exact Hd].
  - apply getkey_Ok in Hv as Hk. rewrite Hk, result_bind_Ok.
    destruct (argmax_nonempty values) as [action Ha].
    { intros ->. specialize (Hok _ _ Hv). discriminate. }
    exists action. split; [exact Ha|].
    rewrite <- (Hok _ _ Hv). exact (argmax_lt _ _ Ha).
Qed.

(** The update that follows a move returns, whatever the reward. *)
Lemma update_after_move Qt state action reward (board' : Board) :
  table_ok Qt -> is_Some (Qt !! state) ->
  (action < BOARD_SIZE * BOARD_SIZE)%nat ->
  exists Qt',
    update_q_table state action reward (board_to_tuple board')
      (initialize_q_table board' Qt) = Ok Qt'
    /\ table_ok Qt' /\ is_Some (Qt' !! board_to_tuple board').
Proof.
  intros Hok [values Hv] Ha.
  pose proof (initialize_q_table_ok board' Qt Hok) as Hok1.
  pose proof (initialize_q_table_keeps board' Qt _ _ Hv) as Hv1.
  destruct (initialize_q_table_present board' Qt) as [next_values Hn].
  destruct (lookup_lt_is_Some_2 values action) as [old Ho].
  { now rewrite (Hok _ _ Hv). }
  destruct (update_q_table_present (initialize_q_table board' Qt) state action reward
              (board_to_tuple board') values old next_values Hv1 Ho Hn)
    as (best & best_next & Qt' & _ & _ & Eu & _ & _ & Hdom).
  { intros ->. specialize (Hok1 _ _ Hn). discriminate. }
  exists Qt'. split; [exact Eu|]. split.
  - exact (update_q_table_ok _ _ _ _ _ _ Hok1 Eu).
  - apply elem_of_dom. rewrite Hdom. apply elem_of_dom. eauto.
Qed.

(** A turn whose action is an index of the board returns: the locals are
    those of [move], the rate is unchanged, the invariant holds again. *)
Lemma turn_returns d l g action :
  loop_inv l g ->
  choose_action (Q_table g) (state l) (EXPLORATION_RATE g) d = Ok action ->
  (action < BOARD_SIZE * BOARD_SIZE)%nat ->
  exists g',
    turn d l g = Ok (move action l, g')
    /\ loop_inv (move action l) g'
    /\ EXPLORATION_RATE g' = EXPLORATION_RATE g.
Proof.
  intros (Hwf & Hok & Hstate) Ea Ha.
  assert (Hrow : (action / BOARD_SIZE < BOARD_SIZE)%nat)
    by (apply Nat.Div0.div_lt_upper_bound; exact Ha).
  assert (Hcol : (action mod BOARD_SIZE < BOARD_SIZE)%nat)
    by (apply Nat.mod_upper_bound; discriminate).
  destruct (wf_board_getitem2 _ _ _ Hwf Hrow Hcol) as [cell Ec].
  unfold turn, move. rewrite Ea, result_bind_Ok. cbv zeta.
  rewrite Ec, result_bind_Ok.
  destruct (String.eqb cell " ").
  - set (board' := setitem2 (board l) (action / BOARD_SIZE) (action mod BOARD_SIZE)
                     (current_player l)).
    assert (Hwf' : wf_board board') by now apply wf_board_setitem2.
    destruct (is_winner_returns board' (current_player l) Hwf') as [won Ew].
    rewrite Ew, result_bind_Ok.
    assert (Hu : forall reward, exists Qt',
               update_q_table (state l) action reward (board_to_tuple board')
                 (initialize_q_table board' (Q_table g)) = Ok Qt'
               /\ table_ok Qt' /\ is_Some (Qt' !! board_to_tuple board'))
      by (intros reward; now apply update_after_move).
    unfold judged.
    destruct won; [|destruct (is_draw board')];
      match goal with
      | |- context [update_q_table _ _ ?r _ _] =>
          destruct (Hu r) as (Qt' & -> & Hok' & Hs')
      end;
      rewrite result_bind_Ok; eexists; (split; [reflexivity|]);
      (split; [|reflexivity]);
      (split; [exact Hwf'|split; [exact Hok'|exact Hs']]).
  - exists g. split; [reflexivity|]. split; [|reflexivity].
    split; [exact Hwf|split; [exact Hok|exact Hstate]].
Qed.

(** Hence a turn on a valid draw returns and keeps the invariant. *)
Lemma turn_total d l g :
  loop_inv l g -> valid_draw d ->
  exists l' g', turn d l g = Ok (l', g') /\ loop_inv l' g'.
Proof.
  intros Hinv Hd.
  destruct Hinv as (Hwf & Hok & Hstate).
  destruct (choose_action_returns (Q_table g) (state l) (EXPLORATION_RATE g) d
              Hok Hstate Hd) as (action & Ea & Ha).
  destruct (turn_returns d l g action (conj Hwf (conj Hok Hstate)) Ea Ha)
    as (g' & Et & Hinv' & _).
  eauto.
Qed.

(** The [while] of an episode never raises: it returns, or the tape ends. *)
Lemma play_never_raises (tape : list draw) l g (e : exn) :
  loop_inv l g -> Forall valid_draw tape -> play tape l g <> Raise e.
Proof.
  revert l g. induction tape as [|d tape IH]; intros l g Hinv Hvalid; simpl.
  - destruct (done l); discriminate.
  - destruct (done l); [discriminate|].
    apply Forall_cons in Hvalid as [Hd Hvalid].
    destruct (turn_total d l g Hinv Hd) as (l' & g' & -> & Hinv').
    rewrite result_bind_Ok. now apply IH.
Qed.

Lemma play_table_ok (tape : list draw) l g l' g' tape' :
  loop_inv l g -> Forall valid_draw tape ->
  play tape l g = Ok (l', g', tape') ->
  loop_inv l' g' /\ Forall valid_draw tape'.
Proof.
  revert l g. induction tape as [|d tape IH]; intros l g Hinv Hvalid; simpl.
  - destruct (done l); [|discriminate]. intros [= <- <- <-]. now split.
  - destruct (done l); [intros [= <- <- <-]; now split|].
    apply Forall_cons in Hvalid as [Hd Hvalid].
    destruct (turn_total d l g Hinv Hd) as (l1 & g1 & -> & Hinv1).
    rewrite result_bind_Ok. now apply IH.
Qed.

(** Training on outcomes that [random.randint(0, 24)] can produce never
    raises [KeyError], [IndexError] or [ValueError]. *)
Lemma train_ai_never_raises (episodes : nat) (tape : list draw) g (e : exn) :
  table_ok (Q_table g) -> Forall valid_draw tape ->
  train_ai episodes tape g <> Raise e.
Proof.
  revert tape g. induction episodes as [|episodes IH]; intros tape g Hok Hvalid; simpl.
  - discriminate.
  - pose proof (loop_inv_start g Hok) as Hinv.
    destruct (play tape (fst (episode_start g)) (snd (episode_start g)))
      as [[[l2 g2] tape2]|e'|] eqn:Ep.
    + unfold episode_start in Ep. simpl in Ep. rewrite Ep, result_bind_Ok.
      apply play_table_ok in Ep as [(_ & Hok2 & _) Hvalid2];
        [|exact Hinv|exact Hvalid].
      now apply IH.
    + exfalso. exact (play_never_raises tape _ _ e' Hinv Hvalid Ep).
    + unfold episode_start in Ep. simpl in Ep. rewrite Ep. discriminate.
Qed.

(** Training keeps the table well formed. *)
Lemma train_ai_table_ok (episodes : nat) (tape tape' : list draw) g g' :
  table_ok (Q_table g) ->
  train_ai episodes tape g = Ok (g', tape') ->
  table_ok (Q_table g').
Proof.
  apply (train_ai_invariant (fun g => table_ok (Q_table g))
           (fun _ g => table_ok (Q_table g))).
  - intros g0 Hok. simpl. now apply initialize_q_table_ok.
  - intros d l g0 l' g0' Hok E.
    apply turn_Ok in E as (action & cell & _ & _ & [(_ & _ & ->)|(_ & E)]);
      [exact Hok|].
    destruct E as (won & Qt2 & _ & Eu & _ & ->). simpl.
    eapply update_q_table_ok; [|exact Eu]. now apply initialize_q_table_ok.
  - intros _ g0 Hok. exact Hok.
Qed.

End TrainingTotal.

(** ** Training runs that complete *)

Section TrainingCompletes.
Context {V : Type} `{Number V}.
Implicit Types (l : episode) (g : @globals V).

(** While every draw explores, the locals follow [replay] whatever the table
    holds. *)
Lemma play_exploring (u : V) (actions : list nat) (rest : list draw) l g l' :
  loop_inv l g ->
  num_lt u (EXPLORATION_RATE g) = true ->
  Forall (fun action => (action < BOARD_SIZE * BOARD_SIZE)%nat) actions ->
  replay actions l = Some l' ->
  exists g',
    play (map (Draw u) actions ++ rest) l g = Ok (l', g', rest)
    /\ loop_inv l' g'
    /\ EXPLORATION_RATE g' = EXPLORATION_RATE g.
Proof.
  revert l g. induction actions as [|action actions IH]; intros l g Hinv Hu Hlt Hr.
  - simpl in Hr. destruct (done l) eqn:Hd; [|discriminate]. injection Hr as <-.
    exists g. split; [|now split].
    simpl. destruct rest; simpl; now rewrite Hd.
  - simpl in Hr. destruct (done l) eqn:Hd; [discriminate|].
    apply Forall_cons in Hlt as [Ha Hlt].
    destruct (turn_returns (Draw u action) l g action Hinv) as (g1 & Et & Hinv1 & Hrate1).
    { unfold choose_action. simpl. now rewrite Hu. }
    { exact Ha. }
    destruct (IH (move action l) g1 Hinv1) as (g' & Ep & Hinv' & Hrate');
      [now rewrite Hrate1|exact Hlt|exact Hr|].
    exists g'. split; [|split; [exact Hinv'|congruence]].
    simpl. now rewrite Hd, Et, result_bind_Ok.
Qed.

(** Training completes on the tape that repeats, once per episode, a series
    of exploring draws that plays an episode to its end. *)
Lemma train_ai_completes (u : V) (actions : list nat) (l' : episode)
    (episodes : nat) g :
  Forall (fun action => (action < BOARD_SIZE * BOARD_SIZE)%nat) actions ->
  (forall g0 : @globals V, replay actions (fst (episode_start g0)) = Some l') ->
  table_ok (Q_table g) ->
  (forall j, (j < episodes)%nat ->
     num_lt u (rate_after j (EXPLORATION_RATE g)) = true) ->
  exists g',
    train_ai episodes (concat (replicate episodes (map (Draw u) actions))) g
    = Ok (g', [])
    /\ table_ok (Q_table g').
Proof.
  intros Hlt Hr. revert g.
  induction episodes as [|episodes IH]; intros g Hok Hu.
  - exists g. now split.
  - destruct (play_exploring u actions
                (concat (replicate episodes (map (Draw u) actions)))
                (fst (episode_start g)) (snd (episode_start g)) l')
      as (g2 & Ep & (_ & Hok2 & _) & Hrate2).
    + now apply loop_inv_start.
    + apply (Hu 0%nat). lia.
    + exact Hlt.
    + apply Hr.
    + destruct (IH (decay g2)) as (g' & Et & Hok').
      * exact Hok2.
      * intros j Hj. simpl EXPLORATION_RATE. rewrite Hrate2.
        simpl EXPLORATION_RATE. rewrite rate_after_S. apply Hu. lia.
      * exists g'. split; [|exact Hok'].
        simpl. unfold episode_start in Ep. simpl in Ep. rewrite Ep, result_bind_Ok.
        exact Et.
Qed.

End TrainingCompletes.

(** In exact arithmetic the rate stays positive, so a draw of 0 explores in
    every episode. *)
Lemma rate_after_pos (k : nat) (rate : Q) : (0 < rate -> 0 < rate_after k rate)%Q.
Proof.
  intros Hr. induction k as [|k IH]; [exact Hr|].
  rewrite rate_after_succ. lra.
Qed.

Lemma replay_actions_O_wins :
  exists l', forall g0 : @globals Q,
    replay actions_O_wins (fst (episode_start g0)) = Some l'.
Proof. eexists. intros g0. vm_compute. reflexivity. Qed.

(** For any number of episodes there is a tape on which training a fresh
    program completes. *)
Lemma training_completes (episodes : nat) :
  exists g' : @globals Q,
    train_ai episodes (concat (replicate episodes tape_O_wins)) initial_globals
    = Ok (g', [])
    /\ table_ok (Q_table g').
Proof.
  destruct replay_actions_O_wins as [l' Hr].
  apply (train_ai_completes 0%Q actions_O_wins l' episodes initial_globals).
  - unfold actions_O_wins. repeat constructor; vm_compute; lia.
  - exact Hr.
  - apply map_Forall_empty.
  - intros j _. simpl num_lt. apply negb_true_iff, not_true_is_false.
    intros E. apply Qle_bool_iff in E.
    assert (Hp : (0 < rate_after j (EXPLORATION_RATE initial_globals))%Q)
      by (apply rate_after_pos; vm_compute; reflexivity).
    exact (Qlt_not_le _ _ Hp E).
Qed.

(** ** The interactive game: clicks *)

Lemma wf_board_getitem2_lt (b : Board) (row col : nat) (cell : string) :
  wf_board b -> getitem2 b row col = Ok cell ->
  (row < BOARD_SIZE)%nat /\ (col < BOARD_SIZE)%nat.
Proof.
  intros [Hlen Hrows] E. apply getitem2_Ok in E as (r & Hr & Hc).
  split.
  - rewrite <- Hlen. now apply lookup_lt_Some in Hr.
  - rewrite Forall_forall in Hrows.
    rewrite <- (Hrows r); [now apply lookup_lt_Some in Hc|].
    eapply list_elem_of_lookup_2. exact Hr.
Qed.

(** The symbol the main program gives the AI differs from the human's. *)
Lemma ai_symbol_for_differs (human_symbol : string) :
  TicTacToeGame.ai_symbol_for human_symbol <> human_symbol.
Proof.
  unfold TicTacToeGame.ai_symbol_for.
  destruct (String.eqb_spec human_symbol "X") as [->|Hne]; [discriminate|congruence].
Qed.

(** The human, playing O, opens in the top left corner of a fresh game; the
    table values every action of the new position 0, so the AI's greedy action
    is that same corner: the click returns with the AI still to move. *)
Lemma human_opening_gets_no_reply :
  TicTacToeGame.make_move table_corner 1 0 0 (TicTacToeGame.created "O" "X" true)
  = (Ok tt, corner_game).
Proof. vm_refl. Qed.

(** ** The positions training can have seen *)

Lemma key_board_board_to_tuple (b : Board) : key_board (board_to_tuple b) = b.
Proof.
  unfold key_board, board_to_tuple. simpl. rewrite map_map. simpl. apply map_id.
Qed.

Lemma count_in_row_insert (symbol : string) (row : list string) (j : nat)
    (old new : string) :
  row !! j = Some old ->
  (count_in_row symbol (<[j := new]> row) + (if String.eqb old symbol then 1 else 0)
   = count_in_row symbol row + (if String.eqb new symbol then 1 else 0))%nat.
Proof.
  unfold count_in_row. revert j. induction row as [|c row IH]; intros [|j] E;
    simpl in *; try discriminate.
  - injection E as ->. lia.
  - specialize (IH j E). lia.
Qed.

Lemma count_symbol_setitem2 (symbol : string) (b : Board) (i j : nat)
    (old new : string) :
  getitem2 b i j = Ok old ->
  (count_symbol symbol (setitem2 b i j new) + (if String.eqb old symbol then 1 else 0)
   = count_symbol symbol b + (if String.eqb new symbol then 1 else 0))%nat.
Proof.
  intros E. apply getitem2_Ok in E as (row & Hrow & Hold).
  unfold count_symbol, setitem2. revert i Hrow.
  induction b as [|r b IH]; intros [|i] Hrow; try discriminate.
  - injection Hrow as ->.
    change (alter (fun row0 => <[j := new]> row0) 0%nat (row :: b))
      with (<[j := new]> row :: b).
    cbn [map sum_list sum_list_with id].
    pose proof (count_in_row_insert symbol row j old new Hold) as Hc.
    destruct (String.eqb old symbol), (String.eqb new symbol); lia.
  - change (alter (fun row0 => <[j := new]> row0) (S i) (r :: b))
      with (r :: alter (fun row0 => <[j := new]> row0) i b).
    cbn [map sum_list sum_list_with id].
    specialize (IH i Hrow).
    destruct (String.eqb old symbol), (String.eqb new symbol); lia.
Qed.

Section SeenPositions.
Context {V : Type} `{Number V}.
Implicit Types (l : episode) (g : @globals V) (Qt : gmap StateKey (list V)).

Lemma turn_keys_balanced (d : draw) l g l' g' :
  keys_balanced (Q_table g) /\ alternating l ->
  turn d l g = Ok (l', g') ->
  keys_balanced (Q_table g') /\ alternating l'.
Proof.
  intros [Hkeys Halt] E.
  apply turn_Ok in E as (action & cell & _ & Ec & [(_ & -> & ->)|(-> & E)]).
  - now split.
  - destruct E as (won & Qt2 & _ & Eu & -> & ->). cbn [Q_table board current_player].
    pose proof (count_symbol_setitem2 "O" _ _ _ _ (current_player l) Ec) as HO.
    pose proof (count_symbol_setitem2 "X" _ _ _ _ (current_player l) Ec) as HX.
    cbn [String.eqb Ascii.eqb Bool.eqb] in HO, HX.
    set (board' := setitem2 (board l) (action / BOARD_SIZE) (action mod BOARD_SIZE)
                     (current_player l)) in *.
    assert (Hnew : balanced board' /\ alternating
              {| board := board'; state := board_to_tuple board';
                 done := snd (judged won board' (current_player l) (done l));
                 current_player :=
                   if String.eqb (current_player l) "O" then "X" else "O" |}).
    { unfold balanced, alternating. cbn [board current_player].
      destruct Halt as [[Hp Hc]|[Hp Hc]]; rewrite Hp in *;
        cbn [String.eqb Ascii.eqb Bool.eqb] in *; split; try lia.
      - right. split; [reflexivity|lia].
      - left. split; [reflexivity|lia]. }
    destruct Hnew as [Hbal Halt']. split; [|exact Halt'].
    intros k Hk.
    apply update_q_table_Ok in Eu
      as (values & old & next_values & best & best_next & E1 & _ & _ & _ & _ & ->).
    assert (Hk1 : is_Some (initialize_q_table board' (Q_table g) !! k)).
    { destruct (decide (state l = k)) as [<-|Hne].
      - rewrite E1. eauto.
      - now rewrite lookup_insert_ne in Hk. }
    destruct Hk1 as [v Hv].
    apply initialize_q_table_lookup in Hv as [Hv|(_ & -> & _)].
    + apply Hkeys. eauto.
    + now rewrite key_board_board_to_tuple.
Qed.

(** After training a fresh program, whatever the tape, every key of the table
    is a position in which X has not moved more often than O. *)
Lemma train_ai_keys_balanced (episodes : nat) (tape tape' : list draw) g g' :
  keys_balanced (Q_table g) ->
  train_ai episodes tape g = Ok (g', tape') ->
  keys_balanced (Q_table g').
Proof.
  apply (train_ai_invariant
           (fun g => keys_balanced (Q_table g))
           (fun l g => keys_balanced (Q_table g) /\ alternating l)).
  - intros g0 Hkeys. split.
    + intros k Hk. cbn [episode_start snd Q_table] in Hk. destruct Hk as [v Hv].
      apply initialize_q_table_lookup in Hv as [Hv|(_ & -> & _)].
      * apply Hkeys. eauto.
      * rewrite key_board_board_to_tuple. unfold balanced. vm_compute. lia.
    + left. split; [reflexivity|]. vm_compute. reflexivity.
  - intros d l g0 l' g0'. apply turn_keys_balanced.
  - intros l g0 [Hkeys _]. exact Hkeys.
Qed.

End SeenPositions.

(** ** Resetting and ending a game *)

(** A 5x5 matrix, cell by cell. *)
Lemma wf_board_shape (b : Board) :
  wf_board b ->
  exists c00 c01 c02 c03 c04 c10 c11 c12 c13 c14 c20 c21 c22 c23 c24
         c30 c31 c32 c33 c34 c40 c41 c42 c43 c44,
    b = [ [c00; c01; c02; c03; c04]; [c10; c11; c12; c13; c14];
          [c20; c21; c22; c23; c24]; [c30; c31; c32; c33; c34];
          [c40; c41; c42; c43; c44] ].
Proof.
  intros [Hlen Hrows].
  destruct b as [|r0 [|r1 [|r2 [|r3 [|r4 [|r5 b]]]]]]; try discriminate.
  apply Forall_cons in Hrows as [H0 Hrows]. apply Forall_cons in Hrows as [H1 Hrows].
  apply Forall_cons in Hrows as [H2 Hrows]. apply Forall_cons in Hrows as [H3 Hrows].
  apply Forall_cons in Hrows as [H4 _].
  destruct r0 as [|? [|? [|? [|? [|? [|? ?]]]]]]; try discriminate.
  destruct r1 as [|? [|? [|? [|? [|? [|? ?]]]]]]; try discriminate.
  destruct r2 as [|? [|? [|? [|? [|? [|? ?]]]]]]; try discriminate.
  destruct r3 as [|? [|? [|? [|? [|? [|? ?]]]]]]; try discriminate.
  destruct r4 as [|? [|? [|? [|? [|? [|? ?]]]]]]; try discriminate.
  repeat eexists.
Qed.

Lemma bind_returned {A B : Type} (m : TicTacToeGame.M A) (k : A -> TicTacToeGame.M B)
    (self self' : TicTacToeGame.game) (a : A) :
  m self = (Ok a, self') -> TicTacToeGame.bind m k self = k a self'.
Proof. intros E. unfold TicTacToeGame.bind. now rewrite E. Qed.

Section ResetFacts.
Context {V : Type} `{Number V}.
Variable Qt : gmap StateKey (list V).
Import TicTacToeGame.

(** The double loop of [reset_game] blanks every button of a 5x5 grid. *)
Lemma blank_all_buttons (self : game) :
  wf_board (buttons self) ->
  for_ (seq 0 BOARD_SIZE) (fun i =>
    for_ (seq 0 BOARD_SIZE) (fun j => config i j " ")) self
  = (Ok tt, set_buttons empty_board self).
Proof.
  intros Hwf. destruct self as [b h a p bs ms]. cbn [buttons] in Hwf.
  destruct (wf_board_shape bs Hwf)
    as (c00 & c01 & c02 & c03 & c04 & c10 & c11 & c12 & c13 & c14 & c20 & c21 & c22
        & c23 & c24 & c30 & c31 & c32 & c33 & c34 & c40 & c41 & c42 & c43 & c44 & ->).
  reflexivity.
Qed.

Lemma reset_game_fresh (ai : M unit) (self : game) :
  wf_board (buttons self) ->
  reset_game ai self
  = if String.eqb (human_symbol self) (ai_symbol self) then ai (fresh self)
    else (Ok tt, fresh self).
Proof.
  intros Hwf. unfold reset_game. run.
  rewrite (bind_returned _ _ _ _ _ (blank_all_buttons (set_board empty_board self) Hwf)).
  run. unfold fresh. cbn [human_symbol ai_symbol shown].
  destruct (String.eqb (human_symbol self) (ai_symbol self)); reflexivity.
Qed.

Lemma end_game_ended (ai : M unit) (message : string) (self : game) :
  wf_board (buttons self) ->
  end_game ai message self
  = if String.eqb (human_symbol self) (ai_symbol self) then ai (ended message self)
    else (Ok tt, ended message self).
Proof.
  intros Hwf. unfold end_game. run.
  rewrite reset_game_fresh by exact Hwf. reflexivity.
Qed.

End ResetFacts.

(** ** What a call of [ai_move] or [make_move] can do *)

Lemma consistent_marked (row col : nat) (symbol : string) (self : TicTacToeGame.game) :
  consistent self -> consistent (TicTacToeGame.marked row col symbol self).
Proof.
  intros [Hwf Hb]. split; cbn [TicTacToeGame.marked TicTacToeGame.set_buttons
    TicTacToeGame.set_board TicTacToeGame.board TicTacToeGame.buttons].
  - now apply wf_board_setitem2.
  - now rewrite Hb.
Qed.

Lemma consistent_ended (message : string) (self : TicTacToeGame.game) :
  consistent (ended message self).
Proof. split; [exact wf_board_empty|reflexivity]. Qed.

Lemma getitem2_not_Starved {A : Type} (m : list (list A)) (i j : nat) :
  getitem2 m i j <> Starved.
Proof.
  unfold getitem2, getitem. destruct (m !! i) as [r|]; [|discriminate].
  rewrite result_bind_Ok. destruct (r !! j); discriminate.
Qed.

Lemma argmax_not_Starved {V : Type} `{Number V} (values : list V) :
  argmax values <> Starved.
Proof. destruct values as [|v values]; simpl; [|destruct (num_isnan v)]; discriminate. Qed.

Section CallFacts.
Context {V : Type} `{Number V}.
Variable Qt : gmap StateKey (list V).
Import TicTacToeGame.

(** The ways [ai_move] ends on a consistent object when the two symbols
    differ: it raises on its lookups with the object untouched, finds its cell
    occupied, or marks the cell of its greedy action and then passes the turn,
    or ends the game. *)
Lemma ai_move_cases (depth : nat) (self : game) :
  human_symbol self <> ai_symbol self ->
  consistent self ->
  (exists e,
     ai_move Qt depth self = (Raise e, self)
     /\ (depth = 0%nat
         \/ Qt !! board_to_tuple (board self) = None
         \/ exists values,
              Qt !! board_to_tuple (board self) = Some values
              /\ (argmax values = Raise e
                  \/ exists action,
                       argmax values = Ok action
                       /\ getitem2 (board self) (action / BOARD_SIZE)
                            (action mod BOARD_SIZE) = Raise e)))
  \/ ai_move Qt depth self = (Ok tt, self)
  \/ exists values action,
       let row := (action / BOARD_SIZE)%nat in
       let col := (action mod BOARD_SIZE)%nat in
       let m := marked row col (ai_symbol self) self in
       Qt !! board_to_tuple (board self) = Some values
       /\ argmax values = Ok action
       /\ getitem2 (board self) row col = Ok " "%string
       /\ ((is_winner (board m) (ai_symbol self) = Ok true
            /\ ai_move Qt depth self
               = (Ok tt, ended ("AI (" +:+ ai_symbol self +:+ ") wins!") m))
           \/ (is_winner (board m) (ai_symbol self) = Ok false
               /\ is_draw (board m) = true
               /\ ai_move Qt depth self = (Ok tt, ended "It's a draw!" m))
           \/ (is_winner (board m) (ai_symbol self) = Ok false
               /\ is_draw (board m) = false
               /\ ai_move Qt depth self
                  = (Ok tt, set_current_player (human_symbol self) m))).
Proof.
  intros Hsym Hcons. destruct depth as [|depth].
  { left. exists RecursionError. split; [reflexivity|now left]. }
  rewrite ai_move_S. run.
  destruct (Qt !! board_to_tuple (board self)) as [values|] eqn:Ek;
    [|left; exists KeyError; unfold getkey; rewrite Ek; split; [reflexivity|];
      right; now left].
  unfold getkey. rewrite Ek. run.
  destruct (argmax values) as [action|e|] eqn:Ea;
    [|left; exists e; split; [reflexivity|]; right; right; exists values; split;
       [reflexivity|now left]
     |now apply argmax_not_Starved in Ea].
  run.
  destruct (getitem2 (board self) (action / BOARD_SIZE) (action mod BOARD_SIZE))
    as [cell|e|] eqn:Ec;
    [|left; exists e; split; [reflexivity|]; right; right; exists values; split;
       [reflexivity|]; right; exists action; now split|].
  2:{ now apply getitem2_not_Starved in Ec. }
  destruct (String.eqb_spec cell " ") as [->|Hcell]; [|right; left; reflexivity].
  right. right. exists values, action. cbv zeta.
  split; [reflexivity|]. split; [exact Ea|]. split; [exact Ec|].
  run.
  destruct Hcons as [Hwf Hb].
  assert (Eb : getitem2 (buttons self) (action / BOARD_SIZE) (action mod BOARD_SIZE)
               = Ok " "%string) by now rewrite Hb.
  rewrite Eb. run.
  set (m := marked (action / BOARD_SIZE) (action mod BOARD_SIZE) (ai_symbol self) self).
  assert (Hcm : consistent m) by (apply consistent_marked; now split).
  change (setitem2 (board self) (action / BOARD_SIZE) (action mod BOARD_SIZE)
            (ai_symbol self)) with (board m).
  destruct (is_winner_returns (board m) (ai_symbol self) (proj1 Hcm)) as [won Ew].
  rewrite Ew.
  assert (Hbm : wf_board (buttons m)) by (rewrite (proj2 Hcm); exact (proj1 Hcm)).
  assert (Hne : String.eqb (human_symbol m) (ai_symbol m) = false)
    by (apply String.eqb_neq; exact Hsym).
  destruct won.
  - left. split; [reflexivity|].
    change (set_buttons _ _) with m.
    rewrite end_game_ended by exact Hbm. now rewrite Hne.
  - run. change (setitem2 (board self) (action / BOARD_SIZE) (action mod BOARD_SIZE)
                   (ai_symbol self)) with (board m).
    destruct (is_draw (board m)) eqn:Ed.
    + right. left. split; [reflexivity|]. split; [reflexivity|].
      change (set_buttons _ _) with m.
      rewrite end_game_ended by exact Hbm. now rewrite Hne.
    + right. right. split; [reflexivity|]. split; [reflexivity|]. run. reflexivity.
Qed.

(** Whatever [ai_move] does, the object stays consistent, keeps its symbols
    and gets at most one message, with a reset. *)
Lemma ai_move_keeps (depth : nat) (self : game) :
  human_symbol self <> ai_symbol self ->
  consistent self ->
  consistent (snd (ai_move Qt depth self))
  /\ same_session self (snd (ai_move Qt depth self)).
Proof.
  intros Hsym Hcons.
  assert (Hsame : same_session self self) by (repeat split; now left).
  destruct (ai_move_cases depth self Hsym Hcons)
    as [[e [-> _]]|[->|(values & action & _ & _ & _ & Hcase)]];
    [now split|now split|].
  cbv zeta in Hcase.
  destruct Hcase as [(_ & ->)|[(_ & _ & ->)|(_ & _ & ->)]]; cbn [snd].
  - split; [apply consistent_ended|]. repeat split. right. eexists. now repeat split.
  - split; [apply consistent_ended|]. repeat split. right. eexists. now repeat split.
  - split.
    + destruct (consistent_marked (action / BOARD_SIZE) (action mod BOARD_SIZE)
                  (ai_symbol self) self Hcons) as [Hwf Hb].
      split; [exact Hwf|exact Hb].
    + repeat split. now left.
Qed.

(** The ways [make_move] ends on a consistent object when the two symbols
    differ. *)
Lemma make_move_cases (depth row col : nat) (self : game) :
  human_symbol self <> ai_symbol self ->
  consistent self ->
  let m := marked row col (human_symbol self) self in
  (exists e, make_move Qt depth row col self = (Raise e, self))
  \/ make_move Qt depth row col self = (Ok tt, self)
  \/ (getitem2 (board self) row col = Ok " "%string
      /\ current_player self = human_symbol self
      /\ ((is_winner (board m) (human_symbol self) = Ok true
           /\ make_move Qt depth row col self
              = (Ok tt, ended ("Player " +:+ human_symbol self +:+ " wins!") m))
          \/ (is_winner (board m) (human_symbol self) = Ok false
              /\ is_draw (board m) = true
              /\ make_move Qt depth row col self = (Ok tt, ended "It's a draw!" m))
          \/ (is_winner (board m) (human_symbol self) = Ok false
              /\ is_draw (board m) = false
              /\ make_move Qt depth row col self
                 = ai_move Qt depth (set_current_player (ai_symbol self) m)))).
Proof.
  intros Hsym Hcons m.
  destruct (getitem2 (board self) row col) as [cell|e|] eqn:Ec.
  2:{ left. exists e. now apply make_move_outside. }
  2:{ now apply getitem2_not_Starved in Ec. }
  destruct (String.eqb_spec cell " ") as [->|Hcell].
  2:{ right. left. apply (make_move_rejected Qt depth row col self cell Ec). now left. }
  destruct (String.eqb_spec (current_player self) (human_symbol self)) as [Hturn|Hturn].
  2:{ right. left. apply (make_move_rejected Qt depth row col self " " Ec). now right. }
  right. right. split; [reflexivity|]. split; [exact Hturn|].
  destruct Hcons as [Hwf Hb].
  assert (Eb : getitem2 (buttons self) row col = Ok " "%string) by now rewrite Hb.
  assert (Hcm : consistent m) by (apply consistent_marked; now split).
  destruct (is_winner_returns (board m) (human_symbol self) (proj1 Hcm)) as [won Ew].
  pose proof (make_move_accepted Qt depth row col self " " won Ec Hturn Eb Ew) as Em.
  cbv zeta in Em. fold m in Em. rewrite Em.
  assert (Hbm : wf_board (buttons m)) by (rewrite (proj2 Hcm); exact (proj1 Hcm)).
  assert (Hne : String.eqb (human_symbol m) (ai_symbol m) = false)
    by (apply String.eqb_neq; exact Hsym).
  destruct won.
  - left. split; [exact Ew|]. rewrite end_game_ended by exact Hbm. now rewrite Hne.
  - destruct (is_draw (board m)) eqn:Ed.
    + right. left. split; [exact Ew|]. split; [reflexivity|].
      rewrite end_game_ended by exact Hbm. now rewrite Hne.
    + right. right. now repeat split.
Qed.

Lemma make_move_keeps (depth row col : nat) (self : game) :
  human_symbol self <> ai_symbol self ->
  consistent self ->
  consistent (snd (make_move Qt depth row col self))
  /\ same_session self (snd (make_move Qt depth row col self)).
Proof.
  intros Hsym Hcons.
  assert (Hsame : same_session self self) by (repeat split; now left).
  destruct (make_move_cases depth row col self Hsym Hcons)
    as [[e ->]|[->|(_ & _ & Hcase)]]; [now split|now split|].
  cbv zeta in Hcase.
  destruct Hcase as [(_ & ->)|[(_ & _ & ->)|(_ & _ & ->)]]; cbn [snd].
  - split; [apply consistent_ended|]. repeat split. right. eexists. now repeat split.
  - split; [apply consistent_ended|]. repeat split. right. eexists. now repeat split.
  - set (s1 := set_current_player (ai_symbol self)
                 (marked row col (human_symbol self) self)).
    assert (Hc1 : consistent s1).
    { destruct (consistent_marked row col (human_symbol self) self Hcons) as [Hwf Hb].
      split; [exact Hwf|exact Hb]. }
    destruct (ai_move_keeps depth s1 Hsym Hc1) as [Hc2 (Hh & Ha & Hs)].
    split; [exact Hc2|]. split; [exact Hh|]. split; [exact Ha|exact Hs].
Qed.

(** A series of clicks keeps the object consistent and its symbols, and shows
    at most one message per click. *)
Lemma mainloop_keeps (depth : nat) (clicks : list (nat * nat)) (self : game) :
  human_symbol self <> ai_symbol self ->
  consistent self ->
  let self' := mainloop Qt depth clicks self in
  consistent self'
  /\ human_symbol self' = human_symbol self
  /\ ai_symbol self' = ai_symbol self
  /\ exists messages,
       shown self' = shown self ++ messages
       /\ (length messages <= length clicks)%nat.
Proof.
  revert self. induction clicks as [|[row col] clicks IH]; intros self Hsym Hcons.
  - cbn. split; [exact Hcons|]. repeat split. exists []. now rewrite app_nil_r.
  - cbn [mainloop].
    destruct (make_move_keeps depth row col self Hsym Hcons) as [Hc1 (Hh & Ha & Hs)].
    set (s1 := snd (make_move Qt depth row col self)) in *.
    destruct (IH s1) as (Hc & Hh' & Ha' & messages & Hm & Hlen);
      [congruence|exact Hc1|].
    split; [exact Hc|]. split; [congruence|]. split; [congruence|].
    destruct Hs as [Hs|(message & Hs & _)].
    + exists messages. rewrite Hm, Hs. split; [reflexivity|]. simpl. lia.
    + exists (message :: messages). rewrite Hm, Hs, <- app_assoc.
      split; [reflexivity|]. simpl. lia.
Qed.

End CallFacts.

(** * The claims *)

(** ** Win and draw detection *)

(** C1. [is_draw] answers true on a full board that holds a winning line: it
    tests fullness only, although its docstring promises "full and no player
    has won". *)
Theorem is_draw_true_on_won_board :
  is_draw full_board_O_wins = true
  /\ is_winner full_board_O_wins "O" = Ok true
  /\ is_winner full_board_O_wins "X" = Ok false.
Proof. repeat split; vm_compute; reflexivity. Qed.

(** ** A turn on an occupied cell *)

(** C2, as the code has it. When the chosen action targets an occupied cell
    the iteration changes nothing: board, state key, mover, table and the
    record of learner calls are those it was given, so the learner is not
    called and the same player chooses again at the next iteration. *)
Theorem occupied_target_changes_nothing {V : Type} `{Number V}
    (d : draw) (l : episode) (g : globals) (action : nat) (cell : string)
    (tape : list draw) :
  choose_action (Q_table g) (state l) (EXPLORATION_RATE g) d = Ok action ->
  getitem2 (board l) (action / BOARD_SIZE) (action mod BOARD_SIZE) = Ok cell ->
  cell <> " "%string ->
  turn d l g = Ok (l, g)
  /\ (done l = false -> play (d :: tape) l g = play tape l g).
Proof.
  intros E1 E2 Hcell.
  assert (Et : turn d l g = Ok (l, g)) by exact (turn_occupied d l g _ _ E1 E2 Hcell).
  split; [exact Et|].
  intros Hdone. simpl. now rewrite Hdone, Et.
Qed.

Lemma occupied_target_changes_nothing_witness :
  turn (Draw 0%Q 0) (fst corner_taken) (snd corner_taken)
  = Ok (fst corner_taken, snd corner_taken)
  /\ (done (fst corner_taken) = false ->
      play [Draw 0%Q 0; Draw 0%Q 1] (fst corner_taken) (snd corner_taken)
      = play [Draw 0%Q 1] (fst corner_taken) (snd corner_taken)).
Proof.
  apply (occupied_target_changes_nothing (Draw 0%Q 0) (fst corner_taken)
           (snd corner_taken) 0%nat "O"%string [Draw 0%Q 1]).
  - vm_refl.
  - vm_refl.
  - discriminate.
Defined.

(** C2, as stated, fails in the first episode of a fresh program: O explores
    into the top left corner, X then draws the same cell, and after that
    iteration X is still the mover and the learner has been called once, for
    O's move only. *)
Lemma occupied_turn_is_not_consumed :
  turn (Draw 0%Q 0) (fst (episode_start initial_globals))
    (snd (episode_start initial_globals)) = Ok corner_taken
  /\ current_player (fst corner_taken) = "X"%string
  /\ length (learner_calls (snd corner_taken)) = 1%nat
  /\ ~ consumed_noop_turn (Draw 0%Q 0) (fst corner_taken) (snd corner_taken).
Proof.
  split; [vm_refl|].
  split; [vm_refl|].
  split; [vm_refl|].
  intros Hc.
  destruct (Hc 0%nat "O"%string) as (l' & g' & Et & _ & Hp & _).
  - vm_refl.
  - vm_refl.
  - discriminate.
  - rewrite (turn_occupied (Draw 0%Q 0) (fst corner_taken) (snd corner_taken)
               0%nat "O"%string) in Et; [|vm_refl|vm_refl|discriminate].
    apply Ok_pair_inj in Et as [<- _]. vm_compute in Hp. discriminate.
Qed.

(** ** The learner's update *)

(** C3. When [state] and [next_state] are keys of the table and [action]
    indexes the vector of [state], [update_q_table] returns; it replaces
    [Q[state][action]] by
    [old + LEARNING_RATE * (reward + DISCOUNT_FACTOR * Q[next_state][argmax] - old)]
    and changes no other value and no key. In exact arithmetic, with old value
    0, reward 0 and a best next value of 0.8 the new value is 0.072. *)
Theorem update_q_table_rule :
  (forall (V : Type) (HV : Number V) (Qt : gmap StateKey (list V))
          state action reward next_state values old next_values,
     Qt !! state = Some values -> values !! action = Some old ->
     Qt !! next_state = Some next_values -> next_values <> [] ->
     exists best best_next Qt',
       argmax next_values = Ok best
       /\ value Qt next_state best = Some best_next
       /\ update_q_table state action reward next_state Qt = Ok Qt'
       /\ value Qt' state action = Some (td_update old reward best_next)
       /\ (forall state' action', state' <> state \/ action' <> action ->
             value Qt' state' action' = value Qt state' action')
       /\ dom Qt' = dom Qt)
  /\ (exists Qt' new,
        update_q_table key_empty 0 0 key_corner table_08 = Ok Qt'
        /\ value table_08 key_empty 0 = Some 0%Q
        /\ value Qt' key_empty 0 = Some new
        /\ (new == 0.072)%Q).
Proof.
  split.
  - intros V HV. apply update_q_table_present.
  - exists (<[key_empty := <[0%nat := td_update 0%Q 0 0.8%Q]> (replicate 25 0%Q)]> table_08),
           (td_update 0%Q 0 0.8%Q).
    split; [|split; [|split]].
    + apply update_q_table_Ok.
      exists (replicate 25 0%Q), 0%Q, (<[7%nat := 0.8%Q]> (replicate 25 0%Q)), 7%nat, 0.8%Q.
      repeat split; vm_compute; reflexivity.
    + vm_compute. reflexivity.
    + vm_compute. reflexivity.
    + vm_compute. reflexivity.
Qed.

Lemma update_q_table_rule_witness :
  exists best best_next Qt',
    argmax (<[7%nat := 0.8%Q]> (replicate 25 0%Q)) = Ok best
    /\ value table_08 key_corner best = Some best_next
    /\ update_q_table key_empty 0 1 key_corner table_08 = Ok Qt'
    /\ value Qt' key_empty 0 = Some (td_update 0%Q 1 best_next)
    /\ (forall state' action', state' <> key_empty \/ action' <> 0%nat ->
          value Qt' state' action' = value table_08 state' action')
    /\ dom Qt' = dom table_08.
Proof.
  apply (proj1 update_q_table_rule Q _ table_08 key_empty 0%nat 1%Z key_corner
           (replicate 25 0%Q) 0%Q (<[7%nat := 0.8%Q]> (replicate 25 0%Q))).
  - vm_compute. reflexivity.
  - vm_compute. reflexivity.
  - vm_compute. reflexivity.
  - vm_compute. discriminate.
Defined.

(** In binary64 the hyperparameters are the doubles that Python reads from
    the literals of the source. *)
Remark hyperparameters_binary64 :
  (INITIAL_EXPLORATION_RATE : float) = 1%float
  /\ (EXPLORATION_DECAY : float) = 0.995%float
  /\ (LEARNING_RATE : float) = 0.1%float
  /\ (DISCOUNT_FACTOR : float) = 0.9%float.
Proof. repeat split; vm_compute; reflexivity. Qed.

(** The same update in binary64: the value written is the double next above
    the double nearest to 0.072. *)
Remark update_q_table_binary64 :
  td_update 0%float 0 0.8%float = 0.07200000000000001%float
  /\ PrimFloat.eqb (td_update 0%float 0 0.8%float) 0.072%float = false
  /\ PrimFloat.next_up 0.072%float = td_update 0%float 0 0.8%float.
Proof. repeat split; vm_compute; reflexivity. Qed.

(** ** The greedy choice *)

(** C4. [np.argmax] answers an index that holds a maximal value and is the
    lowest such index, on every non-empty vector none of whose items is a NaN
    and whose items the comparison orders totally: on every vector of
    rationals, and on every vector of binary64 doubles none of which is a
    NaN. On [0, 5, 5, 0, ..., 0] it answers 1, in exact arithmetic and in
    binary64. The exploiting branch of
    [choose_action] answers [np.argmax(Q[state])], and [ai_move] plays the cell
    [divmod(np.argmax(Q[state]), BOARD_SIZE)]. *)
Theorem argmax_lowest_index_of_maximum :
  (forall (V : Type) (HV : Number V) (values : list V),
     (forall x, x ∈ values -> num_isnan x = false) ->
     (forall x y, x ∈ values -> y ∈ values ->
        num_le x y = true \/ num_le y x = true) ->
     (forall x y z, x ∈ values -> y ∈ values -> z ∈ values ->
        num_le x y = true -> num_le y z = true -> num_le x z = true) ->
     values <> [] ->
     exists i m, argmax values = Ok i /\ first_max values i m)
  /\ (forall values : list Q,
        values <> [] ->
        exists i m, argmax values = Ok i /\ first_max values i m)
  /\ (forall values : list float,
        Forall (fun x => PrimFloat.is_nan x = false) values ->
        values <> [] ->
        exists i m, argmax values = Ok i /\ first_max values i m)
  /\ argmax tied_values = Ok 1%nat
  /\ argmax tied_values_binary64 = Ok 1%nat
  /\ (forall (V : Type) (HV : Number V) (Qt : gmap StateKey (list V)) state rate d,
        num_lt (uniform d) rate = false ->
        choose_action Qt state rate d = getkey Qt state ≫= argmax)
  /\ (forall (V : Type) (HV : Number V) (Qt : gmap StateKey (list V)) depth self
             values action,
        let row := (action / BOARD_SIZE)%nat in
        let col := (action mod BOARD_SIZE)%nat in
        let ai := TicTacToeGame.ai_symbol self in
        let board := TicTacToeGame.board self in
        Qt !! board_to_tuple board = Some values ->
        argmax values = Ok action ->
        (forall cell, getitem2 board row col = Ok cell -> cell <> " "%string ->
           TicTacToeGame.ai_move Qt (S depth) self = (Ok tt, self))
        /\ (forall label,
              getitem2 board row col = Ok " "%string ->
              getitem2 (TicTacToeGame.buttons self) row col = Ok label ->
              is_winner (setitem2 board row col ai) ai = Ok false ->
              is_draw (setitem2 board row col ai) = false ->
              TicTacToeGame.ai_move Qt (S depth) self
              = (Ok tt,
                 TicTacToeGame.set_current_player (TicTacToeGame.human_symbol self)
                   (TicTacToeGame.marked row col ai self)))).
Proof.
  split; [|split; [|split; [|split; [|split; [|split]]]]].
  - intros V HV values Hnan Htotal Htrans Hne.
    apply (argmax_first_max (fun x => x ∈ values)).
    + exact Hnan.
    + exact Htotal.
    + exact Htrans.
    + apply Forall_forall. auto.
    + exact Hne.
  - intros values Hne.
    apply (argmax_first_max (fun _ : Q => True)).
    + reflexivity.
    + intros x y _ _. apply Q_le_total.
    + intros x y z _ _ _. apply Q_le_trans.
    + apply Forall_forall. auto.
    + exact Hne.
  - apply argmax_first_max_binary64.
  - vm_compute. reflexivity.
  - vm_compute. reflexivity.
  - intros V HV Qt state rate d E. unfold choose_action. now rewrite E.
  - intros V HV Qt depth self values action row col ai board E1 E2. split.
    + intros cell E3 Hcell. exact (ai_move_occupied Qt depth self _ _ _ E1 E2 E3 Hcell).
    + intros label E3 E4 E5 E6.
      exact (ai_move_continue Qt depth self _ _ _ E1 E2 E3 E4 E5 E6).
Qed.

Lemma argmax_lowest_index_of_maximum_witness :
  exists i m,
    argmax tied_values_binary64 = Ok i /\ first_max tied_values_binary64 i m.
Proof.
  assert (Hnan : Forall (fun x => PrimFloat.is_nan x = false) tied_values_binary64)
    by (repeat constructor).
  rewrite Forall_forall in Hnan.
  apply (proj1 argmax_lowest_index_of_maximum float _ tied_values_binary64).
  - exact Hnan.
  - intros x y Hx Hy. apply float_le_total; now apply Hnan.
  - intros x y z _ _ _. apply float_le_trans.
  - discriminate.
Defined.

(** A vector of doubles that does hold a NaN: [np.argmax] answers the index
    of its first NaN, whatever the other items are. *)
Remark argmax_first_nan_binary64 (pre rest : list float) (n : float) :
  Forall (fun x => PrimFloat.is_nan x = false) pre ->
  PrimFloat.is_nan n = true ->
  argmax (pre ++ n :: rest) = Ok (length pre).
Proof.
  intros Hpre Hn.
  assert (Hle : forall mp : float, PrimFloat.leb n mp = false).
  { intros mp. rewrite FloatAxioms.leb_spec.
    assert (E : Prim2SF n = S754_nan); [|now rewrite E].
    unfold PrimFloat.is_nan in Hn. rewrite FloatAxioms.eqb_spec in Hn.
    apply negb_true_iff in Hn. unfold SFeqb, SFcompare in Hn.
    destruct (Prim2SF n) as [s|s| |s m e]; try discriminate; [destruct s; discriminate| |].
    - reflexivity.
    - exfalso. destruct s; rewrite Z.compare_refl in Hn;
        change (PosDef.Pos.compare_cont Eq m m) with (Pos.compare m m) in Hn;
        rewrite Pos.compare_refl in Hn; discriminate. }
  assert (Hscan : forall ip max_ind mp i,
             Forall (fun x => PrimFloat.is_nan x = false) ip ->
             argmax_scan max_ind mp i (ip ++ n :: rest) = (i + length ip)%nat).
  { induction ip as [|x ip IH]; intros max_ind mp i Hip.
    - cbn [app argmax_scan num_le num_isnan float_Number length].
      rewrite Hle, Hn. lia.
    - apply Forall_cons in Hip as [Hx Hip].
      cbn [app argmax_scan num_le num_isnan float_Number length].
      rewrite Hx. destruct (PrimFloat.leb x mp); rewrite (IH _ _ _ Hip); lia. }
  destruct pre as [|mp pre].
  - cbn [app argmax num_isnan float_Number length]. now rewrite Hn.
  - apply Forall_cons in Hpre as [Hmp Hpre].
    cbn [app argmax num_isnan float_Number length]. rewrite Hmp.
    now rewrite (Hscan pre 0%nat mp 1%nat Hpre).
Qed.

(** ** Lookups of the table *)

(** C5. After training a fresh program, whatever the number of episodes and
    the tape, the table has no entry for a board that holds a single X. So
    when the human plays X and starts, their first click, on any cell, places
    the mark and passes the turn to the AI, and [ai_move] then raises
    [KeyError] on [Q[state]]: unlike [train_ai], it looks the state up without
    calling [initialize_q_table] first. *)
Theorem ai_move_raises_KeyError_on_unseen_position {V : Type} `{Number V}
    (episodes : nat) (tape tape' : list draw) (g : globals)
    (depth row col : nat) :
  train_ai episodes tape initial_globals = Ok (g, tape') ->
  (row < BOARD_SIZE)%nat -> (col < BOARD_SIZE)%nat ->
  let game := TicTacToeGame.created "X" (TicTacToeGame.ai_symbol_for "X") true in
  TicTacToeGame.make_move (Q_table g) (S depth) row col game
  = (Raise KeyError,
     TicTacToeGame.set_current_player "O" (TicTacToeGame.marked row col "X" game)).
Proof.
  intros Et Hrow Hcol game. unfold BOARD_SIZE in Hrow, Hcol.
  assert (Hkeys : keys_balanced (Q_table g)).
  { apply (train_ai_keys_balanced episodes tape tape' initial_globals g); [|exact Et].
    intros k [v Hv]. simpl in Hv. now rewrite lookup_empty in Hv. }
  assert (Hblank : getitem2 empty_board row col = Ok " "%string).
  { do 5 (destruct row as [|row]; [do 5 (destruct col as [|col]; [reflexivity|]); lia|]).
    lia. }
  set (m := TicTacToeGame.marked row col "X" game).
  assert (Hunseen : Q_table g !! board_to_tuple (TicTacToeGame.board m) = None).
  { destruct (Q_table g !! board_to_tuple (TicTacToeGame.board m)) eqn:E; [|reflexivity].
    exfalso. specialize (Hkeys _ (ex_intro _ _ E)).
    rewrite key_board_board_to_tuple in Hkeys. unfold balanced in Hkeys.
    pose proof (count_symbol_setitem2 "X" empty_board row col " " "X" Hblank) as HX.
    pose proof (count_symbol_setitem2 "O" empty_board row col " " "X" Hblank) as HO.
    change (setitem2 empty_board row col "X") with (TicTacToeGame.board m) in HX, HO.
    change (count_symbol "X" empty_board) with 0%nat in HX.
    change (count_symbol "O" empty_board) with 0%nat in HO.
    cbn [String.eqb Ascii.eqb Bool.eqb] in HX, HO. lia. }
  assert (Hwon : is_winner (TicTacToeGame.board m) "X" = Ok false
                 /\ is_draw (TicTacToeGame.board m) = false).
  { subst m game.
    do 5 (destruct row as [|row];
          [do 5 (destruct col as [|col]; [split; vm_compute; reflexivity|]); lia|]).
    lia. }
  destruct Hwon as [Hwon Hdraw].
  rewrite (make_move_accepted (Q_table g) (S depth) row col game " " false);
    [|exact Hblank|reflexivity|exact Hblank|exact Hwon].
  cbn [TicTacToeGame.human_symbol game TicTacToeGame.created].
  fold game. fold m. rewrite Hdraw.
  apply ai_move_unseen. exact Hunseen.
Qed.

Lemma ai_move_raises_KeyError_on_unseen_position_witness :
  exists g : @globals Q,
    train_ai 1 (concat (replicate 1 tape_O_wins)) initial_globals = Ok (g, [])
    /\ TicTacToeGame.make_move (Q_table g) 1 0 0 (TicTacToeGame.created "X" "O" true)
       = (Raise KeyError,
          TicTacToeGame.set_current_player "O"
            (TicTacToeGame.marked 0 0 "X" (TicTacToeGame.created "X" "O" true))).
Proof.
  destruct (training_completes 1) as (g & E & _).
  exists g. split; [exact E|].
  apply (ai_move_raises_KeyError_on_unseen_position 1 _ [] g 0 0 0 E); vm_compute; lia.
Defined.

(** ** Clicks *)

(** C6. A click on a cell that is occupied, or made when it is not the human's
    turn, returns without an exception and leaves the object as it was: board,
    button texts, current player and the messages shown. A click by the human,
    on their turn, on a blank cell of a 5x5 board places the mark and comes to
    exactly one of three results. The human has won: "Player ... wins!" is
    shown and the game is reset. The game is drawn: "It's a draw!" is shown
    and the game is reset. The game continues: nothing is shown, the turn
    passes to the AI and the AI's reply follows. Between two different
    symbols the first two leave the object [ended], with the message added to
    those shown, the board and the buttons blank and the human to move, and
    the AI does not move; and on a consistent object the third ends as the
    AI's reply does: the reply raises or finds its cell occupied, and the
    object is the marked one with the AI to move, or the AI marks a blank
    cell and has won, has drawn, or passes the turn back to the human. *)
Theorem make_move_validates_the_click :
  (forall (V : Type) (HV : Number V) (Qt : gmap StateKey (list V))
          (depth row col : nat) (self : TicTacToeGame.game) (cell : string),
     getitem2 (TicTacToeGame.board self) row col = Ok cell ->
     cell <> " "%string
     \/ TicTacToeGame.current_player self <> TicTacToeGame.human_symbol self ->
     TicTacToeGame.make_move Qt depth row col self = (Ok tt, self))
  /\ (forall (V : Type) (HV : Number V) (Qt : gmap StateKey (list V))
             (depth row col : nat) (self : TicTacToeGame.game),
        wf_board (TicTacToeGame.board self) ->
        wf_board (TicTacToeGame.buttons self) ->
        getitem2 (TicTacToeGame.board self) row col = Ok " "%string ->
        TicTacToeGame.current_player self = TicTacToeGame.human_symbol self ->
        exists! r : report, reported Qt depth row col self r)
  /\ (forall (V : Type) (HV : Number V) (Qt : gmap StateKey (list V))
             (depth : nat) (message : string) (self : TicTacToeGame.game),
        TicTacToeGame.human_symbol self <> TicTacToeGame.ai_symbol self ->
        announced Qt depth message self = (Ok tt, ended message self)
        /\ TicTacToeGame.shown (ended message self)
           = TicTacToeGame.shown self ++ [message]
        /\ TicTacToeGame.board (ended message self) = empty_board
        /\ TicTacToeGame.buttons (ended message self) = empty_board
        /\ TicTacToeGame.current_player (ended message self)
           = TicTacToeGame.human_symbol self)
  /\ (forall (V : Type) (HV : Number V) (Qt : gmap StateKey (list V))
             (depth row col : nat) (self : TicTacToeGame.game),
        TicTacToeGame.human_symbol self <> TicTacToeGame.ai_symbol self ->
        consistent self ->
        reported Qt depth row col self report_continue ->
        let human := TicTacToeGame.human_symbol self in
        let ai := TicTacToeGame.ai_symbol self in
        let s :=
          TicTacToeGame.set_current_player ai
            (TicTacToeGame.marked row col human self) in
        (exists e, TicTacToeGame.make_move Qt depth row col self = (Raise e, s))
        \/ TicTacToeGame.make_move Qt depth row col self = (Ok tt, s)
        \/ exists action,
             let m :=
               TicTacToeGame.marked (action / BOARD_SIZE) (action mod BOARD_SIZE) ai s in
             getitem2 (TicTacToeGame.board s) (action / BOARD_SIZE)
               (action mod BOARD_SIZE) = Ok " "%string
             /\ (TicTacToeGame.make_move Qt depth row col self
                 = (Ok tt, ended ("AI (" +:+ ai +:+ ") wins!") m)
                 \/ TicTacToeGame.make_move Qt depth row col self
                    = (Ok tt, ended "It's a draw!" m)
                 \/ TicTacToeGame.make_move Qt depth row col self
                    = (Ok tt, TicTacToeGame.set_current_player human m))).
Proof.
  split; [|split; [|split]].
  - intros V HV Qt depth row col self cell. apply make_move_rejected.
  - intros V HV Qt depth row col self Hwf Hwfb E Hturn.
    destruct (wf_board_getitem2_lt _ _ _ _ Hwf E) as [Hrow Hcol].
    destruct (wf_board_getitem2 _ row col Hwfb Hrow Hcol) as [label El].
    set (human := TicTacToeGame.human_symbol self).
    set (m := TicTacToeGame.marked row col human self).
    assert (Hwfm : wf_board (TicTacToeGame.board m))
      by (apply wf_board_setitem2; exact Hwf).
    assert (Hwfbm : wf_board (TicTacToeGame.buttons m))
      by (apply wf_board_setitem2; exact Hwfb).
    destruct (is_winner_returns _ human Hwfm) as [won Ew].
    pose proof (make_move_accepted Qt depth row col self label won E Hturn El Ew) as Em.
    fold human m in Em.
    assert (Hend : forall message,
               TicTacToeGame.end_game (TicTacToeGame.ai_move Qt depth) message m
               = announced Qt depth message m)
      by (intros message; apply end_game_ended; exact Hwfbm).
    destruct won; [|destruct (is_draw (TicTacToeGame.board m)) eqn:Ed].
    + rewrite Hend in Em.
      exists report_humanWins. split; [split; assumption|].
      intros [| |]; unfold reported; fold human m.
      * intros (Hw & _). congruence.
      * reflexivity.
      * intros (Hw & _). congruence.
    + rewrite Hend in Em.
      exists report_draw. split; [repeat split; assumption|].
      intros [| |]; unfold reported; fold human m.
      * intros (_ & Hd & _). congruence.
      * intros (Hw & _). congruence.
      * reflexivity.
    + exists report_continue. split; [repeat split; assumption|].
      intros [| |]; unfold reported; fold human m.
      * reflexivity.
      * intros (Hw & _). congruence.
      * intros (_ & Hd & _). congruence.
  - intros V HV Qt depth message self Hsym. unfold announced.
    apply String.eqb_neq in Hsym. rewrite Hsym. repeat split.
  - intros V HV Qt depth row col self Hsym Hcons (_ & _ & _ & Em) human ai s.
    fold human ai s in Em. rewrite Em.
    assert (Hcs : consistent s).
    { destruct (consistent_marked row col human self Hcons) as [Hwf Hb].
      split; [exact Hwf|exact Hb]. }
    destruct (ai_move_cases Qt depth s Hsym Hcs)
      as [(e & E & _)|[E|(values & action & _ & _ & Ec & Hcase)]].
    + left. exists e. exact E.
    + right. left. exact E.
    + right. right. exists action. cbv zeta in Hcase. split; [exact Ec|].
      destruct Hcase as [(_ & E)|[(_ & _ & E)|(_ & _ & E)]]; auto.
Qed.

Lemma make_move_validates_the_click_witness :
  TicTacToeGame.make_move table_corner 1 0 0 corner_game = (Ok tt, corner_game)
  /\ (exists! r : report,
        reported table_corner 1 0 0 (TicTacToeGame.created "O" "X" true) r)
  /\ (exists! r : report, reported table_corner 1 0 4 winning_chance r)
  /\ announced table_corner 1 "Player X wins!"
       (TicTacToeGame.marked 0 4 "X" winning_chance)
     = (Ok tt, ended "Player X wins!" (TicTacToeGame.marked 0 4 "X" winning_chance))
  /\ ((exists e,
         TicTacToeGame.make_move table_corner 1 0 0 (TicTacToeGame.created "O" "X" true)
         = (Raise e, corner_game))
      \/ TicTacToeGame.make_move table_corner 1 0 0 (TicTacToeGame.created "O" "X" true)
         = (Ok tt, corner_game)
      \/ exists action,
           getitem2 (TicTacToeGame.board corner_game) (action / BOARD_SIZE)
             (action mod BOARD_SIZE) = Ok " "%string
           /\ (TicTacToeGame.make_move table_corner 1 0 0
                 (TicTacToeGame.created "O" "X" true)
               = (Ok tt,
                  ended "AI (X) wins!"
                    (TicTacToeGame.marked (action / BOARD_SIZE) (action mod BOARD_SIZE)
                       "X" corner_game))
               \/ TicTacToeGame.make_move table_corner 1 0 0
                    (TicTacToeGame.created "O" "X" true)
                  = (Ok tt,
                     ended "It's a draw!"
                       (TicTacToeGame.marked (action / BOARD_SIZE)
                          (action mod BOARD_SIZE) "X" corner_game))
               \/ TicTacToeGame.make_move table_corner 1 0 0
                    (TicTacToeGame.created "O" "X" true)
                  = (Ok tt,
                     TicTacToeGame.set_current_player "O"
                       (TicTacToeGame.marked (action / BOARD_SIZE)
                          (action mod BOARD_SIZE) "X" corner_game)))).
Proof.
  split; [|split; [|split; [|split]]].
  - apply (proj1 make_move_validates_the_click Q _ table_corner 1%nat 0%nat 0%nat
             corner_game "O"%string).
    + vm_compute. reflexivity.
    + left. discriminate.
  - apply (proj1 (proj2 make_move_validates_the_click) Q _ table_corner 1%nat 0%nat 0%nat
             (TicTacToeGame.created "O" "X" true)).
    + exact wf_board_empty.
    + exact wf_board_empty.
    + vm_compute. reflexivity.
    + reflexivity.
  - apply (proj1 (proj2 make_move_validates_the_click) Q _ table_corner 1%nat 0%nat 4%nat
             winning_chance).
    + split; [reflexivity|]. repeat constructor.
    + split; [reflexivity|]. repeat constructor.
    + reflexivity.
    + reflexivity.
  - apply (proj1 (proj2 (proj2 make_move_validates_the_click)) Q _ table_corner 1%nat
             "Player X wins!"%string (TicTacToeGame.marked 0 4 "X" winning_chance)).
    discriminate.
  - apply (proj2 (proj2 (proj2 make_move_validates_the_click)) Q _ table_corner 1%nat
             0%nat 0%nat (TicTacToeGame.created "O" "X" true)).
    + discriminate.
    + split; [exact wf_board_empty|reflexivity].
    + split; [vm_compute; reflexivity|]. split; [vm_compute; reflexivity|].
      split; [reflexivity|]. vm_refl.
Defined.

(** ** The exploration rate *)

(** C7, with the value corrected. Training multiplies the exploration rate by
    [EXPLORATION_DECAY] once for each episode, whatever the lengths of the
    episodes, and for every number of episodes there is a tape on which it
    completes; in exact arithmetic the rate after [k] episodes is the initial
    rate times 0.995 to the [k], the rates never increase and are never
    negative, and after 1000 episodes from 1.0 the rate lies between 0.00665
    and 0.00666. *)
Theorem exploration_rate_decays_once_per_episode :
  (forall (V : Type) (HV : Number V) episodes tape (g g' : globals) tape',
     train_ai episodes tape g = Ok (g', tape') ->
     EXPLORATION_RATE g' = rate_after episodes (EXPLORATION_RATE g))
  /\ (forall episodes, exists tape (g' : @globals Q),
        train_ai episodes tape initial_globals = Ok (g', []))
  /\ (forall (k : nat) (rate : Q), rate_after k rate == rate * 0.995 ^ Z.of_nat k)%Q
  /\ (forall (k : nat) (rate : Q),
        0 <= rate -> 0 <= rate_after (S k) rate /\ rate_after (S k) rate <= rate_after k rate)%Q
  /\ (0.00665 < rate_after EPISODES INITIAL_EXPLORATION_RATE
      /\ rate_after EPISODES INITIAL_EXPLORATION_RATE < 0.00666)%Q.
Proof.
  split; [|split; [|split; [|split]]].
  - intros V HV episodes tape g g' tape'. apply train_ai_rate.
  - intros episodes. destruct (training_completes episodes) as (g' & E & _). eauto.
  - exact rate_after_power.
  - intros k rate Hr. split.
    + now apply rate_after_nonneg.
    + now apply rate_after_decreases.
  - exact rate_after_1000_bounds.
Qed.

Lemma exploration_rate_decays_once_per_episode_witness :
  exists g' : @globals Q,
    train_ai EPISODES (concat (replicate EPISODES tape_O_wins)) initial_globals
    = Ok (g', [])
    /\ EXPLORATION_RATE g' = rate_after EPISODES (EXPLORATION_RATE initial_globals).
Proof.
  destruct (training_completes EPISODES) as (g' & E & _).
  exists g'. split; [exact E|].
  exact (proj1 exploration_rate_decays_once_per_episode Q _ EPISODES _
           initial_globals g' [] E).
Defined.

(** C7, as stated, gives 0.00657 for the rate after 1000 episodes: the rate is
    not within 0.00001 of that value. *)
Lemma rate_after_1000_episodes_is_not_0_00657 :
  ~ (0.00656 <= rate_after EPISODES INITIAL_EXPLORATION_RATE
     /\ rate_after EPISODES INITIAL_EXPLORATION_RATE <= 0.00658)%Q.
Proof.
  intros [_ Hle]. destruct rate_after_1000_bounds as [Hlt _].
  pose proof (Qlt_le_trans _ _ _ Hlt Hle) as Habs.
  vm_compute in Habs. discriminate.
Qed.

(** The same thousand decays in binary64. *)
Remark rate_after_1000_episodes_binary64 :
  rate_after EPISODES (INITIAL_EXPLORATION_RATE : float)
  = 0.0066539685788319482%float.
Proof. vm_compute. reflexivity. Qed.

(** ** The state codec *)

(** C8. [board_to_tuple] is a total function from boards to keys that yields
    equal keys exactly for boards with identical cell contents; applied twice
    to the same board it yields the same key. *)
Theorem board_to_tuple_injective (b1 b2 : Board) :
  (board_to_tuple b1 = board_to_tuple b2 <-> b1 = b2)
  /\ board_to_tuple b1 = board_to_tuple b1.
Proof.
  split; [split|reflexivity].
  - unfold board_to_tuple. intros E. injection E as E.
    revert b2 E. induction b1 as [|r1 b1 IH]; intros [|r2 b2] E;
      simpl in E; try discriminate; [reflexivity|].
    injection E as -> E. f_equal. now apply IH.
  - now intros ->.
Qed.

(** ** A stuck AI *)

(** C9. When [ai_move] runs on a position whose greedy action targets an
    occupied cell it returns with the object unchanged. It is then still the
    AI's turn, so, the two symbols being different, every click returns or
    raises with the object unchanged, and no series of clicks changes the
    board, the buttons or the current player. *)
Theorem stuck_ai_freezes_the_game {V : Type} `{Number V}
    (Qt : gmap StateKey (list V)) (depth : nat) (self : TicTacToeGame.game)
    (values : list V) (action : nat) (cell : string) :
  TicTacToeGame.human_symbol self <> TicTacToeGame.ai_symbol self ->
  TicTacToeGame.current_player self = TicTacToeGame.ai_symbol self ->
  Qt !! board_to_tuple (TicTacToeGame.board self) = Some values ->
  argmax values = Ok action ->
  getitem2 (TicTacToeGame.board self) (action / BOARD_SIZE) (action mod BOARD_SIZE)
  = Ok cell ->
  cell <> " "%string ->
  TicTacToeGame.ai_move Qt (S depth) self = (Ok tt, self)
  /\ (forall depth' row col,
        snd (TicTacToeGame.make_move Qt depth' row col self) = self)
  /\ (forall depth' clicks, TicTacToeGame.mainloop Qt depth' clicks self = self).
Proof.
  intros Hsym Hturn E1 E2 E3 Hcell.
  assert (Hclick : forall depth' row col,
            snd (TicTacToeGame.make_move Qt depth' row col self) = self).
  { intros depth' row col.
    destruct (getitem2 (TicTacToeGame.board self) row col) as [c|e|] eqn:Ec.
    - rewrite (make_move_rejected Qt depth' row col self c Ec); [reflexivity|].
      right. congruence.
    - now rewrite (make_move_outside Qt depth' row col self e Ec).
    - unfold getitem2, getitem in Ec.
      destruct (TicTacToeGame.board self !! row) as [r|]; simpl in Ec;
        [destruct (r !! col)|]; discriminate. }
  split; [exact (ai_move_occupied Qt depth self _ _ _ E1 E2 E3 Hcell)|].
  split; [exact Hclick|].
  intros depth' clicks. induction clicks as [|[row col] clicks IH]; simpl.
  - reflexivity.
  - now rewrite Hclick.
Qed.

Lemma stuck_ai_freezes_the_game_witness :
  TicTacToeGame.ai_move table_corner 1 corner_game = (Ok tt, corner_game)
  /\ (forall depth' row col,
        snd (TicTacToeGame.make_move table_corner depth' row col corner_game)
        = corner_game)
  /\ (forall depth' clicks,
        TicTacToeGame.mainloop table_corner depth' clicks corner_game = corner_game).
Proof.
  apply (stuck_ai_freezes_the_game table_corner 0 corner_game (replicate 25 0%Q)
           0%nat "O"%string).
  - discriminate.
  - reflexivity.
  - vm_compute. reflexivity.
  - vm_compute. reflexivity.
  - vm_compute. reflexivity.
  - discriminate.
Defined.

(** ** The shape of the table *)

(** C10. Starting from the empty dictionary, after any sequence of calls of
    [initialize_q_table] and [update_q_table], and so after any training that
    completes, every vector in the table has [BOARD_SIZE * BOARD_SIZE] = 25
    values: [initialize_q_table] keeps every entry that is there and adds
    nothing but a vector of 25 zeros, and [update_q_table] replaces one
    component of one vector. *)
Theorem q_table_vectors_have_25_values {V : Type} `{Number V} :
  (forall (ops : list table_op) state values,
     run_ops ops (∅ : gmap StateKey (list V)) !! state = Some values ->
     length values = 25%nat)
  /\ (forall episodes tape (g : globals) tape' state values,
        train_ai episodes tape initial_globals = Ok (g, tape') ->
        Q_table g !! state = Some values ->
        length values = 25%nat)
  /\ (forall board (Qt : gmap StateKey (list V)) state values,
        Qt !! state = Some values ->
        initialize_q_table board Qt !! state = Some values)
  /\ (forall board (Qt : gmap StateKey (list V)) state values,
        initialize_q_table board Qt !! state = Some values ->
        Qt !! state = Some values \/ values = replicate 25 num_zero)
  /\ (forall state action reward next_state (Qt Qt' : gmap StateKey (list V)),
        update_q_table state action reward next_state Qt = Ok Qt' ->
        exists values x,
          Qt !! state = Some values /\ Qt' = <[state := <[action := x]> values]> Qt).
Proof.
  repeat split.
  - intros ops state values E.
    assert (Hok : table_ok (run_ops ops (∅ : gmap StateKey (list V)))).
    { apply run_ops_ok. apply map_Forall_empty. }
    exact (Hok _ _ E).
  - intros episodes tape g tape' state values Et E.
    assert (Hok : table_ok (Q_table g)).
    { apply (train_ai_table_ok episodes tape tape' initial_globals g); [|exact Et].
      apply map_Forall_empty. }
    exact (Hok _ _ E).
  - intros board Qt state values. apply initialize_q_table_keeps.
  - intros board Qt state values E.
    apply initialize_q_table_lookup in E as [E|(_ & _ & ->)]; [now left|now right].
  - intros state action reward next_state Qt Qt' E.
    apply update_q_table_Ok in E
      as (values & old & next_values & best & best_next & E1 & _ & _ & _ & _ & ->).
    eauto.
Qed.

Lemma q_table_vectors_have_25_values_witness :
  length (replicate 25 (0%Q)) = 25%nat.
Proof.
  apply (proj1 (@q_table_vectors_have_25_values Q _)
           [Initialize empty_board] key_empty (replicate 25 0%Q)).
  vm_compute. reflexivity.
Defined.

(** * Further properties of the program *)

(** X1. On an object whose buttons form a 5x5 grid, [end_game] shows its
    message once, empties the board, blanks every button and gives the turn to
    the human, whoever had opened the game; it calls [ai_move] again exactly
    when the two symbols are the same string. *)
Theorem end_game_resets_for_the_human {V : Type} `{Number V}
    (Qt : gmap StateKey (list V)) (depth : nat) (message : string)
    (self : TicTacToeGame.game) :
  wf_board (TicTacToeGame.buttons self) ->
  TicTacToeGame.end_game (TicTacToeGame.ai_move Qt depth) message self
  = if String.eqb (TicTacToeGame.human_symbol self) (TicTacToeGame.ai_symbol self)
    then TicTacToeGame.ai_move Qt depth (ended message self)
    else (Ok tt, ended message self).
Proof. apply end_game_ended. Qed.

Lemma end_game_resets_for_the_human_witness :
  TicTacToeGame.end_game (TicTacToeGame.ai_move table_corner 1) "It's a draw!" corner_game
  = (Ok tt, ended "It's a draw!" corner_game).
Proof.
  apply (end_game_resets_for_the_human table_corner 1 "It's a draw!" corner_game).
  apply wf_board_setitem2. exact wf_board_empty.
Defined.

(** X2. On a consistent game with two different symbols, a click by the human
    on a blank cell that completes a line returns with the message
    "Player <symbol> wins!" shown and the game reset; one that fills the board
    without a line returns with "It's a draw!" shown and the game reset. In
    both cases the AI does not move. *)
Theorem make_move_ends_the_game {V : Type} `{Number V}
    (Qt : gmap StateKey (list V)) (depth row col : nat)
    (self : TicTacToeGame.game) (won : bool) :
  let human := TicTacToeGame.human_symbol self in
  let m := TicTacToeGame.marked row col human self in
  human <> TicTacToeGame.ai_symbol self ->
  consistent self ->
  getitem2 (TicTacToeGame.board self) row col = Ok " "%string ->
  TicTacToeGame.current_player self = human ->
  is_winner (TicTacToeGame.board m) human = Ok won ->
  won = true \/ is_draw (TicTacToeGame.board m) = true ->
  TicTacToeGame.make_move Qt depth row col self
  = (Ok tt,
     ended (if won then "Player " +:+ human +:+ " wins!" else "It's a draw!") m).
Proof.
  intros human m Hsym Hcons Ec Hturn Ew Hend.
  assert (Eb : getitem2 (TicTacToeGame.buttons self) row col = Ok " "%string)
    by (destruct Hcons as [_ ->]; exact Ec).
  rewrite (make_move_accepted Qt depth row col self " " won Ec Hturn Eb Ew).
  fold human m.
  assert (Hbm : wf_board (TicTacToeGame.buttons m)).
  { destruct (consistent_marked row col human self Hcons) as [Hwf Hb].
    unfold m. rewrite Hb. exact Hwf. }
  assert (Hne : String.eqb (TicTacToeGame.human_symbol m) (TicTacToeGame.ai_symbol m)
                = false) by (apply String.eqb_neq; exact Hsym).
  destruct won.
  - rewrite end_game_ended by exact Hbm. now rewrite Hne.
  - destruct Hend as [Hend|Hend]; [discriminate|]. rewrite Hend.
    rewrite end_game_ended by exact Hbm. now rewrite Hne.
Qed.

Lemma make_move_ends_the_game_witness :
  TicTacToeGame.make_move table_corner 1 0 4 winning_chance
  = (Ok tt, ended "Player X wins!" (TicTacToeGame.marked 0 4 "X" winning_chance)).
Proof.
  apply (make_move_ends_the_game table_corner 1 0 4 winning_chance true).
  - discriminate.
  - split; [|reflexivity]. split; [reflexivity|]. repeat constructor.
  - reflexivity.
  - reflexivity.
  - vm_compute. reflexivity.
  - now left.
Defined.

(** X3. On a consistent game with two different symbols and a well-formed
    table, the only way [ai_move] fails is the lookup [Q[state]]: it raises
    [KeyError], with the object untouched, when the table has no entry for the
    board, and returns when it has one. *)
Theorem ai_move_fails_only_on_a_missing_key {V : Type} `{Number V}
    (Qt : gmap StateKey (list V)) (depth : nat) (self : TicTacToeGame.game) :
  table_ok Qt ->
  TicTacToeGame.human_symbol self <> TicTacToeGame.ai_symbol self ->
  consistent self ->
  (Qt !! board_to_tuple (TicTacToeGame.board self) = None ->
   TicTacToeGame.ai_move Qt (S depth) self = (Raise KeyError, self))
  /\ (is_Some (Qt !! board_to_tuple (TicTacToeGame.board self)) ->
      fst (TicTacToeGame.ai_move Qt (S depth) self) = Ok tt).
Proof.
  intros Hok Hsym Hcons. split; [apply ai_move_unseen|].
  intros [values Ek].
  destruct (ai_move_cases Qt (S depth) self Hsym Hcons)
    as [(e & _ & Hwhy)|[->|(values' & action & _ & _ & _ & Hcase)]].
  - exfalso. destruct Hwhy as [Hd|[Hnone|(values' & Ek' & Hwhy)]];
      [discriminate|congruence|].
    assert (values' = values) as -> by congruence.
    assert (Hlen : length values = (BOARD_SIZE * BOARD_SIZE)%nat) by exact (Hok _ _ Ek).
    destruct Hwhy as [Ea|(action & Ea & Ec)].
    + destruct (argmax_nonempty values) as [a Ea']; [|congruence].
      intros ->. discriminate.
    + pose proof (argmax_lt _ _ Ea) as Hlt. rewrite Hlen in Hlt.
      destruct (wf_board_getitem2 (TicTacToeGame.board self) (action / BOARD_SIZE)
                  (action mod BOARD_SIZE) (proj1 Hcons)) as [c Ec'].
      * apply Nat.Div0.div_lt_upper_bound. exact Hlt.
      * apply Nat.mod_upper_bound. discriminate.
      * congruence.
  - reflexivity.
  - cbv zeta in Hcase.
    destruct Hcase as [(_ & ->)|[(_ & _ & ->)|(_ & _ & ->)]]; reflexivity.
Qed.

Lemma table_ok_table_corner : table_ok table_corner.
Proof.
  unfold table_corner. apply map_Forall_insert_2; [reflexivity|apply map_Forall_empty].
Qed.

Lemma consistent_corner_game : consistent corner_game.
Proof.
  split; [|reflexivity]. apply wf_board_setitem2. exact wf_board_empty.
Qed.

Lemma ai_move_fails_only_on_a_missing_key_witness :
  (table_corner !! board_to_tuple (TicTacToeGame.board corner_game) = None ->
   TicTacToeGame.ai_move table_corner 1 corner_game = (Raise KeyError, corner_game))
  /\ (is_Some (table_corner !! board_to_tuple (TicTacToeGame.board corner_game)) ->
      fst (TicTacToeGame.ai_move table_corner 1 corner_game) = Ok tt).
Proof.
  apply (ai_move_fails_only_on_a_missing_key table_corner 0 corner_game).
  - exact table_ok_table_corner.
  - discriminate.
  - exact consistent_corner_game.
Defined.

Lemma consistent_created (player_symbol ai_symbol : string) (human_starts : bool) :
  consistent (TicTacToeGame.created player_symbol ai_symbol human_starts).
Proof. split; [exact wf_board_empty|reflexivity]. Qed.

(** X4. In a session between two different symbols, after the constructor and
    any series of clicks, whether calls have returned or raised: the board is
    5x5, every button shows the cell it stands for, the two symbols are those
    the session was created with, and at most one message has been shown for
    the constructor and for each click. *)
Theorem session_stays_consistent {V : Type} `{Number V}
    (Qt : gmap StateKey (list V)) (depth : nat) (human ai : string)
    (human_starts : bool) (clicks : list (nat * nat)) :
  human <> ai ->
  let self :=
    TicTacToeGame.mainloop Qt depth clicks
      (snd (TicTacToeGame.init Qt depth human ai human_starts)) in
  consistent self
  /\ TicTacToeGame.human_symbol self = human
  /\ TicTacToeGame.ai_symbol self = ai
  /\ (length (TicTacToeGame.shown self) <= S (length clicks))%nat.
Proof.
  intros Hsym.
  set (c := TicTacToeGame.created human ai human_starts).
  assert (H0 : consistent (snd (TicTacToeGame.init Qt depth human ai human_starts))
               /\ same_session c (snd (TicTacToeGame.init Qt depth human ai human_starts))).
  { unfold TicTacToeGame.init. fold c. destruct human_starts.
    - split; [apply consistent_created|]. repeat split. now left.
    - apply ai_move_keeps; [exact Hsym|apply consistent_created]. }
  destruct H0 as [Hc0 (Hh0 & Ha0 & Hs0)].
  set (s0 := snd (TicTacToeGame.init Qt depth human ai human_starts)) in *.
  destruct (mainloop_keeps Qt depth clicks s0) as (Hc & Hh & Ha & messages & Hm & Hlen);
    [rewrite Hh0, Ha0; exact Hsym|exact Hc0|].
  cbv zeta. split; [exact Hc|]. split; [now rewrite Hh, Hh0|].
  split; [now rewrite Ha, Ha0|].
  rewrite Hm, length_app.
  destruct Hs0 as [->|(message & -> & _)]; simpl; lia.
Qed.

Lemma session_stays_consistent_witness :
  consistent (TicTacToeGame.mainloop table_corner 1 [(0, 0); (0, 0)]%nat
                (snd (TicTacToeGame.init table_corner 1 "O" "X" true)))
  /\ TicTacToeGame.human_symbol
       (TicTacToeGame.mainloop table_corner 1 [(0, 0); (0, 0)]%nat
          (snd (TicTacToeGame.init table_corner 1 "O" "X" true))) = "O"%string
  /\ TicTacToeGame.ai_symbol
       (TicTacToeGame.mainloop table_corner 1 [(0, 0); (0, 0)]%nat
          (snd (TicTacToeGame.init table_corner 1 "O" "X" true))) = "X"%string
  /\ (length (TicTacToeGame.shown
                (TicTacToeGame.mainloop table_corner 1 [(0, 0); (0, 0)]%nat
                   (snd (TicTacToeGame.init table_corner 1 "O" "X" true)))) <= 3)%nat.
Proof.
  apply (session_stays_consistent table_corner 1 "O" "X" true [(0, 0); (0, 0)]%nat).
  discriminate.
Defined.

(** ** Lines *)

Lemma all_true (tests : list (result bool)) :
  Forall returns tests ->
  all_ tests = Ok true <-> Forall (fun t => t = Ok true) tests.
Proof.
  induction 1 as [|t tests [b ->] _ IH]; simpl.
  - split; [constructor|reflexivity].
  - destruct b.
    + rewrite IH. split; [now constructor|]. intros Hall. now apply Forall_cons in Hall.
    + split; [discriminate|]. intros Hall. apply Forall_cons in Hall as [? _]. discriminate.
Qed.

Lemma any_true (tests : list (result bool)) :
  Forall returns tests ->
  any_ tests = Ok true <-> Exists (fun t => t = Ok true) tests.
Proof.
  induction 1 as [|t tests [b ->] _ IH]; simpl.
  - split; [discriminate|]. intros Hex. inversion Hex.
  - destruct b.
    + split; [now left|reflexivity].
    + rewrite IH. split; [now right|]. intros Hex.
      apply Exists_cons in Hex as [?|?]; [discriminate|assumption].
Qed.

Lemma or_true (a b : result bool) :
  returns a -> returns b -> or_ a b = Ok true <-> a = Ok true \/ b = Ok true.
Proof.
  intros [x ->] [y ->]. destruct x, y; simpl; split; auto; intros [?|?]; congruence.
Qed.

Section LineFacts.
Variables (b : Board) (player : string).
Hypothesis Hwf : wf_board b.

(** The test the source applies to one cell. *)
Let cell (i j : nat) : result bool := c ← getitem2 b i j; Ok (String.eqb c player).

Lemma cell_returns (i j : nat) :
  (i < BOARD_SIZE)%nat -> (j < BOARD_SIZE)%nat -> returns (cell i j).
Proof.
  intros Hi Hj. unfold cell. destruct (wf_board_getitem2 b i j Hwf Hi Hj) as [c ->].
  now exists (String.eqb c player).
Qed.

Lemma cell_true (i j : nat) : cell i j = Ok true <-> getitem2 b i j = Ok player.
Proof.
  unfold cell. destruct (getitem2 b i j) as [c| |]; simpl; split; try discriminate.
  - intros [= E]. apply String.eqb_eq in E. now subst.
  - intros [= ->]. now rewrite String.eqb_refl.
Qed.

(** [all(...)] over a line whose coordinates are on the board. *)
Lemma line_returns (f : nat -> nat * nat) :
  (forall i, (i < BOARD_SIZE)%nat ->
     (fst (f i) < BOARD_SIZE)%nat /\ (snd (f i) < BOARD_SIZE)%nat) ->
  returns (all_ (map (fun i => cell (fst (f i)) (snd (f i))) (seq 0 BOARD_SIZE))).
Proof.
  intros Hf. apply all_returns, Forall_map, Forall_forall. intros i Hi.
  apply elem_of_seq in Hi. destruct (Hf i) as [H1 H2]; [lia|]. now apply cell_returns.
Qed.

Lemma line_true (f : nat -> nat * nat) :
  (forall i, (i < BOARD_SIZE)%nat ->
     (fst (f i) < BOARD_SIZE)%nat /\ (snd (f i) < BOARD_SIZE)%nat) ->
  all_ (map (fun i => cell (fst (f i)) (snd (f i))) (seq 0 BOARD_SIZE)) = Ok true
  <-> line_of b player (map f (seq 0 BOARD_SIZE)).
Proof.
  intros Hf. rewrite all_true.
  - unfold line_of. rewrite !Forall_map. apply Forall_iff. intros i. apply cell_true.
  - apply Forall_map, Forall_forall. intros i Hi.
    apply elem_of_seq in Hi. destruct (Hf i) as [H1 H2]; [lia|]. now apply cell_returns.
Qed.

End LineFacts.

Lemma elem_of_map {A B : Type} (f : A -> B) (l : list A) (y : B) :
  y ∈ map f l <-> exists x, y = f x /\ x ∈ l.
Proof.
  rewrite list_elem_of_In, in_map_iff. split; intros (x & E & Hx); exists x.
  - split; [now symmetry|now apply list_elem_of_In].
  - split; [now symmetry|now apply list_elem_of_In].
Qed.

Lemma elem_of_lines (line : list (nat * nat)) :
  line ∈ lines <->
  (exists i, (i < BOARD_SIZE)%nat /\ line = map (fun j => (i, j)) (seq 0 BOARD_SIZE))
  \/ (exists i, (i < BOARD_SIZE)%nat /\ line = map (fun j => (j, i)) (seq 0 BOARD_SIZE))
  \/ line = map (fun i => (i, i)) (seq 0 BOARD_SIZE)
  \/ line = map (fun i => (i, BOARD_SIZE - i - 1)%nat) (seq 0 BOARD_SIZE).
Proof.
  unfold lines. rewrite !elem_of_app, !elem_of_map, !elem_of_cons, elem_of_nil.
  split.
  - intros [(i & -> & Hi)|[(i & -> & Hi)|[->|[->|[]]]]].
    + left. exists i. apply elem_of_seq in Hi. split; [lia|reflexivity].
    + right. left. exists i. apply elem_of_seq in Hi. split; [lia|reflexivity].
    + right. right. now left.
    + right. right. now right.
  - intros [(i & Hi & ->)|[(i & Hi & ->)|[-> | ->]]].
    + left. exists i. split; [reflexivity|]. apply elem_of_seq. lia.
    + right. left. exists i. split; [reflexivity|]. apply elem_of_seq. lia.
    + right. right. now left.
    + right. right. right. now left.
Qed.

(** [is_winner] answers true exactly when one of the twelve lines is the
    player's. *)
Lemma is_winner_true (b : Board) (player : string) :
  wf_board b ->
  is_winner b player = Ok true <->
  exists line, line ∈ lines /\ line_of b player line.
Proof.
  intros Hwf.
  pose (cell := fun i j : nat => c ← getitem2 b i j; Ok (String.eqb c player)).
  pose (row := fun i : nat => all_ (map (fun j => cell i j) (seq 0 BOARD_SIZE))).
  pose (col := fun i : nat => all_ (map (fun j => cell j i) (seq 0 BOARD_SIZE))).
  pose (diag := all_ (map (fun i => cell i i) (seq 0 BOARD_SIZE))).
  pose (anti := all_ (map (fun i => cell i (BOARD_SIZE - i - 1)%nat) (seq 0 BOARD_SIZE))).
  assert (Hrow : forall i, (i < BOARD_SIZE)%nat ->
            returns (row i)
            /\ (row i = Ok true
                <-> line_of b player (map (fun j => (i, j)) (seq 0 BOARD_SIZE)))).
  { intros i Hi. split.
    - apply (line_returns b player Hwf (fun j => (i, j))). intros j Hj. now split.
    - apply (line_true b player Hwf (fun j => (i, j))). intros j Hj. now split. }
  assert (Hcol : forall i, (i < BOARD_SIZE)%nat ->
            returns (col i)
            /\ (col i = Ok true
                <-> line_of b player (map (fun j => (j, i)) (seq 0 BOARD_SIZE)))).
  { intros i Hi. split.
    - apply (line_returns b player Hwf (fun j => (j, i))). intros j Hj. now split.
    - apply (line_true b player Hwf (fun j => (j, i))). intros j Hj. now split. }
  assert (Hdiag : returns diag
            /\ (diag = Ok true
                <-> line_of b player (map (fun i => (i, i)) (seq 0 BOARD_SIZE)))).
  { split.
    - apply (line_returns b player Hwf (fun i => (i, i))). intros j Hj. now split.
    - apply (line_true b player Hwf (fun i => (i, i))). intros j Hj. now split. }
  assert (Hanti : returns anti
            /\ (anti = Ok true
                <-> line_of b player
                      (map (fun i => (i, BOARD_SIZE - i - 1)%nat) (seq 0 BOARD_SIZE)))).
  { split.
    - apply (line_returns b player Hwf (fun i => (i, BOARD_SIZE - i - 1)%nat)).
      intros j Hj. simpl. split; lia.
    - apply (line_true b player Hwf (fun i => (i, BOARD_SIZE - i - 1)%nat)).
      intros j Hj. simpl. split; lia. }
  change (is_winner b player)
    with (hit ← any_ (map (fun i => or_ (row i) (col i)) (seq 0 BOARD_SIZE));
          if hit : bool then Ok true
          else d ← or_ diag anti; if d : bool then Ok true else Ok false).
  assert (Hall : Forall returns (map (fun i => or_ (row i) (col i)) (seq 0 BOARD_SIZE))).
  { apply Forall_map, Forall_forall. intros i Hi. apply elem_of_seq in Hi.
    apply or_returns; [apply Hrow|apply Hcol]; lia. }
  assert (Hany : any_ (map (fun i => or_ (row i) (col i)) (seq 0 BOARD_SIZE)) = Ok true
            <-> exists i, (i < BOARD_SIZE)%nat
                  /\ (row i = Ok true \/ col i = Ok true)).
  { rewrite (any_true _ Hall), Exists_exists. split.
    - intros (t & Ht & E). apply elem_of_map in Ht as (i & -> & Hi).
      apply elem_of_seq in Hi. exists i. split; [lia|].
      apply or_true; [apply Hrow|apply Hcol|exact E]; lia.
    - intros (i & Hi & E). exists (or_ (row i) (col i)). split.
      + apply elem_of_map. exists i. split; [reflexivity|]. apply elem_of_seq. lia.
      + apply or_true; [apply Hrow|apply Hcol|exact E]; lia. }
  assert (Hor : or_ diag anti = Ok true <-> diag = Ok true \/ anti = Ok true)
    by (apply or_true; [apply Hdiag|apply Hanti]).
  assert (Hd : returns (or_ diag anti)) by (apply or_returns; [apply Hdiag|apply Hanti]).
  destruct (any_returns _ Hall) as [hit Ehit]. destruct Hd as [d Ed].
  rewrite Ehit, result_bind_Ok in *. rewrite Ed in *.
  assert (Hres : (if hit then Ok true else Ok d ≫= (fun d0 : bool => if d0 then Ok true else Ok false))
                 = Ok true <-> hit = true \/ d = true).
  { destruct hit, d; simpl; split; intro H; auto;
      try discriminate; destruct H; discriminate. }
  rewrite Hres. split.
  - intros [-> | ->].
    + destruct (proj1 Hany eq_refl) as (i & Hi & [E|E]).
      * exists (map (fun j => (i, j)) (seq 0 BOARD_SIZE)). split.
        -- apply elem_of_lines. left. eauto.
        -- now apply Hrow.
      * exists (map (fun j => (j, i)) (seq 0 BOARD_SIZE)). split.
        -- apply elem_of_lines. right. left. eauto.
        -- now apply Hcol.
    + destruct (proj1 Hor eq_refl) as [E|E].
      * exists (map (fun i => (i, i)) (seq 0 BOARD_SIZE)). split.
        -- apply elem_of_lines. right. right. now left.
        -- now apply Hdiag.
      * exists (map (fun i => (i, BOARD_SIZE - i - 1)%nat) (seq 0 BOARD_SIZE)). split.
        -- apply elem_of_lines. right. right. now right.
        -- now apply Hanti.
  - intros (line & Hline & Hof).
    apply elem_of_lines in Hline as [(i & Hi & ->)|[(i & Hi & ->)|[-> | ->]]].
    + left. destruct hit; [reflexivity|]. 
      assert (E : @Ok bool false = Ok true); [|discriminate].
      apply Hany. exists i. split; [exact Hi|]. left. now apply Hrow.
    + left. destruct hit; [reflexivity|].
      assert (E : @Ok bool false = Ok true); [|discriminate].
      apply Hany. exists i. split; [exact Hi|]. right. now apply Hcol.
    + right. destruct d; [reflexivity|].
      assert (E : @Ok bool false = Ok true); [|discriminate].
      apply Hor. left. now apply Hdiag.
    + right. destruct d; [reflexivity|].
      assert (E : @Ok bool false = Ok true); [|discriminate].
      apply Hor. right. now apply Hanti.
Qed.

(** X5 ([is_winner]). On a 5x5 board [is_winner] raises nothing, and it
    answers True exactly when each cell of one of the twelve lines (five
    rows, five columns, the two diagonals) holds the player's symbol. *)
Theorem is_winner_finds_a_full_line (b : Board) (player : string) :
  wf_board b ->
  exists won,
    is_winner b player = Ok won
    /\ (won = true <-> exists line, line ∈ lines /\ line_of b player line).
Proof.
  intros Hwf. destruct (is_winner_returns b player Hwf) as [won E].
  exists won. split; [exact E|].
  rewrite <- (is_winner_true b player Hwf), E.
  split; [now intros ->|now intros [= ->]].
Qed.

Lemma is_winner_finds_a_full_line_witness :
  wf_board full_board_O_wins
  /\ exists won,
       is_winner full_board_O_wins "O" = Ok won
       /\ (won = true
           <-> exists line, line ∈ lines /\ line_of full_board_O_wins "O" line).
Proof.
  assert (Hwf : wf_board full_board_O_wins).
  { split; [reflexivity|]. repeat constructor. }
  split; [exact Hwf|]. exact (is_winner_finds_a_full_line full_board_O_wins "O" Hwf).
Defined.

(** ** Five marks to win *)

Ltac line_cells Hof :=
  unfold line_of, BOARD_SIZE in Hof; cbn [map seq] in Hof;
  repeat match type of Hof with
         | Forall _ (_ :: _) =>
             let H := fresh "Hcell" in
             apply Forall_cons in Hof as [H Hof]; vm_compute in H; injection H as ->
         end;
  rewrite ?String.eqb_refl; lia.

(** A player who owns a line has at least five marks on the board. *)
Lemma line_count (b : Board) (player : string) (line : list (nat * nat)) :
  wf_board b -> line ∈ lines -> line_of b player line ->
  (5 <= count_symbol player b)%nat.
Proof.
  intros Hwf Hline Hof.
  destruct (wf_board_shape b Hwf)
    as (c00 & c01 & c02 & c03 & c04 & c10 & c11 & c12 & c13 & c14
        & c20 & c21 & c22 & c23 & c24 & c30 & c31 & c32 & c33 & c34
        & c40 & c41 & c42 & c43 & c44 & ->).
  unfold count_symbol, count_in_row. cbn [map sum_list sum_list_with id].
  apply elem_of_lines in Hline as [(i & Hi & ->)|[(i & Hi & ->)|[-> | ->]]].
  - unfold BOARD_SIZE in Hi.
    destruct i as [|[|[|[|[|i]]]]]; [line_cells Hof..|lia].
  - unfold BOARD_SIZE in Hi.
    destruct i as [|[|[|[|[|i]]]]]; [line_cells Hof..|lia].
  - line_cells Hof.
  - line_cells Hof.
Qed.

Lemma winner_has_five (b : Board) (player : string) :
  wf_board b -> is_winner b player = Ok true -> (5 <= count_symbol player b)%nat.
Proof.
  intros Hwf E. apply (is_winner_true b player Hwf) in E as (line & Hline & Hof).
  exact (line_count b player line Hwf Hline Hof).
Qed.

(** A board that [is_draw] calls drawn has no blank cell. *)
Lemma is_draw_no_blank (b : Board) : is_draw b = true -> count_symbol " " b = 0%nat.
Proof.
  unfold is_draw, count_symbol. induction b as [|row b IH]; [reflexivity|].
  cbn [forallb map sum_list sum_list_with id]. intros E.
  apply andb_true_iff in E as [Erow E]. rewrite (IH E).
  assert (Hrow : count_in_row " " row = 0%nat); [|lia].
  clear IH E. unfold count_in_row. induction row as [|c row IH]; [reflexivity|].
  cbn [forallb map sum_list sum_list_with id] in *.
  apply andb_true_iff in Erow as [Ec Erow]. rewrite (IH Erow).
  apply negb_true_iff in Ec. now rewrite Ec.
Qed.

(** ** The moves of an episode *)

Section EpisodeFacts.
Context {V : Type} `{Number V}.
Implicit Types (l : episode) (g : @globals V) (d : @draw V).

Lemma episode_inv_start g : episode_inv (fst (episode_start g)).
Proof.
  cbn [episode_start fst]. split; [reflexivity|]. split; [exact wf_board_empty|].
  split; [reflexivity|]. left. split; reflexivity.
Qed.

(** A turn leaves everything as it was, or it makes one move and calls the
    learner once with it; the game is then over only with nine marks or more
    on the board. *)
Lemma turn_step d l g l' g' :
  episode_inv l -> turn d l g = Ok (l', g') ->
  (l' = l /\ g' = g)
  \/ (exists t,
        real_move t
        /\ learner_calls g' = learner_calls g ++ [t]
        /\ episode_inv l'
        /\ marks (board l') = S (marks (board l))
        /\ (done l' = true -> done l = true \/ (9 <= marks (board l'))%nat)).
Proof.
  intros (Hstate & Hwf & Hsum & Halt) E.
  apply turn_Ok in E as (action & cell & _ & Ec & [(_ & -> & ->)|(-> & E)]);
    [now left|right].
  destruct E as (won & Qt2 & Ew & _ & -> & ->). cbv zeta in Ew.
  cbn [learner_calls board state done current_player].
  pose proof (count_symbol_setitem2 " " _ _ _ _ (current_player l) Ec) as HB.
  pose proof (count_symbol_setitem2 "O" _ _ _ _ (current_player l) Ec) as HO.
  pose proof (count_symbol_setitem2 "X" _ _ _ _ (current_player l) Ec) as HX.
  cbn [String.eqb Ascii.eqb Bool.eqb] in HB, HO, HX.
  set (board' := setitem2 (board l) (action / BOARD_SIZE) (action mod BOARD_SIZE)
                   (current_player l)) in *.
  assert (Hwf' : wf_board board') by now apply wf_board_setitem2.
  assert (Hmover : current_player l = "O"%string \/ current_player l = "X"%string)
    by (destruct Halt as [[Hp _]|[Hp _]]; auto).
  exists (Transition (state l) action
            (fst (judged won board' (current_player l) (done l)))
            (board_to_tuple board')).
  split; [|split; [reflexivity|split; [|split]]].
  - exists (current_player l), won. cbn [tr_state tr_action tr_reward tr_next_state].
    rewrite Hstate, !key_board_board_to_tuple. fold board'.
    split; [exact Hmover|]. split; [exact Ec|]. split; [reflexivity|].
    split; [exact Ew|].
    unfold judged. destruct won; [reflexivity|]. now destruct (is_draw board').
  - split; [reflexivity|]. split; [exact Hwf'|]. cbn [board current_player].
    unfold alternating. cbn [board current_player].
    destruct Halt as [[Hp Hc]|[Hp Hc]]; rewrite Hp in *;
      cbn [String.eqb Ascii.eqb Bool.eqb] in *; split; try lia.
    + right. split; [reflexivity|lia].
    + left. split; [reflexivity|lia].
  - unfold marks.
    destruct Hmover as [Hp|Hp]; rewrite Hp in *;
      cbn [String.eqb Ascii.eqb Bool.eqb] in *; lia.
  - unfold judged, marks. destruct won; cbn [snd].
    + intros _. right. pose proof (winner_has_five _ _ Hwf' Ew) as H5.
      destruct Halt as [[Hp Hc]|[Hp Hc]]; rewrite Hp in *;
        cbn [String.eqb Ascii.eqb Bool.eqb] in *; lia.
    + destruct (is_draw board') eqn:Hd; cbn [snd]; [|now left].
      intros _. right. apply is_draw_no_blank in Hd.
      destruct Hmover as [Hp|Hp]; rewrite Hp in *;
        cbn [String.eqb Ascii.eqb Bool.eqb] in *; unfold BOARD_SIZE in *; lia.
Qed.

Lemma play_done (tape : list draw) l g l' g' tape' :
  play tape l g = Ok (l', g', tape') -> done l' = true.
Proof.
  revert l g. induction tape as [|d tape IH]; intros l g E; simpl in E.
  - destruct (done l) eqn:Hd; [|discriminate]. now injection E as <- <- <-.
  - destruct (done l) eqn:Hd; [now injection E as <- <- <-|].
    apply bind_Ok in E as ([l1 g1] & _ & E). exact (IH _ _ E).
Qed.

(** The moves of an episode: each a real move, one for every mark on the final
    board, nine at least and twenty-five at most. *)
Lemma play_moves (tape : list draw) g l' g' tape' :
  play tape (fst (episode_start g)) (snd (episode_start g)) = Ok (l', g', tape') ->
  exists moves,
    learner_calls g' = learner_calls g ++ moves
    /\ Forall real_move moves
    /\ length moves = marks (board l')
    /\ (9 <= length moves <= 25)%nat.
Proof.
  intros E. pose proof (play_done _ _ _ _ _ _ E) as Hdone.
  apply (play_invariant
           (fun l1 g1 =>
              episode_inv l1
              /\ (done l1 = true -> (9 <= marks (board l1))%nat)
              /\ exists moves,
                   learner_calls g1 = learner_calls g ++ moves
                   /\ Forall real_move moves
                   /\ length moves = marks (board l1))) in E.
  - destruct E as (Hinv & H9 & moves & Hcalls & Hreal & Hlen).
    exists moves. split; [exact Hcalls|]. split; [exact Hreal|].
    split; [exact Hlen|]. rewrite Hlen. split; [exact (H9 Hdone)|].
    destruct Hinv as (_ & _ & Hsum & _). unfold marks, BOARD_SIZE in *. lia.
  - intros d l1 g1 l2 g2 (Hinv & H9 & moves & Hcalls & Hreal & Hlen) Et.
    destruct (turn_step d l1 g1 l2 g2 Hinv Et)
      as [[-> ->]|(t & Ht & Hcalls' & Hinv' & Hm & Hd)].
    + split; [exact Hinv|]. split; [exact H9|]. exists moves. auto.
    + split; [exact Hinv'|]. split.
      * intros Hd2. destruct (Hd Hd2) as [Hd1|Hge]; [|exact Hge].
        specialize (H9 Hd1). lia.
      * exists (moves ++ [t]). rewrite Hcalls', Hcalls, <- app_assoc.
        split; [reflexivity|]. split.
        -- apply Forall_app. split; [exact Hreal|]. now constructor.
        -- rewrite length_app, Hm, <- Hlen. simpl. lia.
  - split; [apply episode_inv_start|]. split; [discriminate|].
    exists []. cbn [episode_start snd fst learner_calls board].
    rewrite app_nil_r. split; [reflexivity|]. split; [constructor|reflexivity].
Qed.

Lemma train_ai_moves (episodes : nat) (tape tape' : list draw) g g' :
  train_ai episodes tape g = Ok (g', tape') ->
  exists moves,
    learner_calls g' = learner_calls g ++ moves
    /\ Forall real_move moves
    /\ (9 * episodes <= length moves <= 25 * episodes)%nat.
Proof.
  revert tape g. induction episodes as [|episodes IH]; intros tape g E.
  - simpl in E. injection E as <- <-. exists []. rewrite app_nil_r.
    split; [reflexivity|]. split; [constructor|simpl; lia].
  - simpl in E. apply bind_Ok in E as ([[l2 g2] tape2] & E1 & E).
    apply (play_moves tape g) in E1 as (moves1 & Hc1 & Hr1 & _ & Hl1).
    apply IH in E as (moves2 & Hc2 & Hr2 & Hl2).
    exists (moves1 ++ moves2). cbn [decay learner_calls] in Hc2.
    rewrite Hc2, Hc1, <- app_assoc. split; [reflexivity|]. split.
    + apply Forall_app. now split.
    + rewrite length_app. lia.
Qed.

End EpisodeFacts.

(** X6 ([train_ai], the [while] of one episode). An episode that ends has
    called the learner once for each mark on its final board and not
    otherwise: nine times at least, since nobody owns a line before O's fifth
    mark, and twenty-five times at most. *)
Theorem episode_makes_9_to_25_moves {V : Type} `{Number V}
    (tape tape' : list draw) (g g' : globals) (l' : episode) :
  play tape (fst (episode_start g)) (snd (episode_start g)) = Ok (l', g', tape') ->
  done l' = true
  /\ length (learner_calls g') = (length (learner_calls g) + marks (board l'))%nat
  /\ (9 <= marks (board l') <= 25)%nat.
Proof.
  intros E. split; [exact (play_done _ _ _ _ _ _ E)|].
  apply play_moves in E as (moves & Hcalls & _ & Hlen & Hbounds).
  rewrite Hcalls, length_app, Hlen. split; [reflexivity|]. now rewrite <- Hlen.
Qed.

Lemma episode_makes_9_to_25_moves_witness :
  exists (l' : episode) (g' : @globals Q),
    play tape_O_wins (fst (episode_start initial_globals))
      (snd (episode_start initial_globals)) = Ok (l', g', [])
    /\ done l' = true
    /\ length (learner_calls g')
       = (length (learner_calls (@initial_globals Q _)) + marks (board l'))%nat
    /\ (9 <= marks (board l') <= 25)%nat.
Proof.
  destruct replay_actions_O_wins as [l' Hr].
  destruct (play_exploring 0%Q actions_O_wins []
              (fst (episode_start (@initial_globals Q _)))
              (snd (episode_start (@initial_globals Q _))) l') as (g' & Ep & _).
  - apply (loop_inv_start (@initial_globals Q _)). apply map_Forall_empty.
  - reflexivity.
  - unfold actions_O_wins. repeat constructor; vm_compute; lia.
  - apply Hr.
  - exists l', g'. unfold tape_O_wins. rewrite app_nil_r in Ep. split; [exact Ep|].
    exact (episode_makes_9_to_25_moves _ _ _ _ _ Ep).
Defined.

(** X7 ([train_ai], [update_q_table]). Every call of the learner that training
    makes records a real move: the action's cell is blank in the state before,
    the state after is the state before with the mover's symbol, O or X, in
    that cell (so never the state itself), and the reward is 1 when O has
    completed a line with it, -1 when X has, and 0 otherwise. *)
Theorem learner_is_called_with_real_moves {V : Type} `{Number V}
    (episodes : nat) (tape tape' : list draw) (g g' : globals) :
  train_ai episodes tape g = Ok (g', tape') ->
  exists moves,
    learner_calls g' = learner_calls g ++ moves
    /\ Forall real_move moves
    /\ (9 * episodes <= length moves <= 25 * episodes)%nat.
Proof. apply train_ai_moves. Qed.

Lemma learner_is_called_with_real_moves_witness :
  exists (g' : @globals Q),
    train_ai 1 (concat (replicate 1 tape_O_wins)) initial_globals = Ok (g', [])
    /\ exists moves,
         learner_calls g' = learner_calls (@initial_globals Q _) ++ moves
         /\ Forall real_move moves
         /\ (9 * 1 <= length moves <= 25 * 1)%nat.
Proof.
  destruct (training_completes 1) as (g' & E & _).
  exists g'. split; [exact E|].
  exact (learner_is_called_with_real_moves 1 _ [] initial_globals g' E).
Defined.

(** ** The positions training enters into the table *)

Section SeenLegal.
Context {V : Type} `{Number V}.
Implicit Types (l : episode) (g : @globals V) (d : @draw V).

Lemma episode_inv_legal l : episode_inv l -> legal_position (board l).
Proof.
  intros (_ & Hwf & Hsum & Halt). split; [exact Hwf|]. split; [exact Hsum|].
  destruct Halt as [[_ E]|[_ E]]; auto.
Qed.

(** A turn keeps every key of the table and adds at most the key of the board
    it leaves. *)
Lemma turn_keys d l g l' g' :
  turn d l g = Ok (l', g') ->
  forall k,
    (is_Some (Q_table g !! k) -> is_Some (Q_table g' !! k))
    /\ (is_Some (Q_table g' !! k) ->
        is_Some (Q_table g !! k) \/ k = board_to_tuple (board l')).
Proof.
  intros E k.
  apply turn_Ok in E as (action & cell & _ & _ & [(_ & -> & ->)|(_ & E)]);
    [split; auto|].
  destruct E as (won & Qt2 & _ & Eu & -> & ->). cbv zeta in Eu.
  cbn [Q_table board].
  apply update_q_table_Ok in Eu
    as (values & old & next_values & best & best_next & E1 & _ & _ & _ & _ & ->).
  split.
  - intros [v Hv]. destruct (decide (state l = k)) as [<-|Hne].
    + rewrite lookup_insert_eq. eauto.
    + rewrite lookup_insert_ne by exact Hne.
      rewrite (initialize_q_table_keeps _ _ _ _ Hv). eauto.
  - intros Hk.
    assert (Hk1 : is_Some (initialize_q_table
                             (setitem2 (board l) (action / BOARD_SIZE)
                                (action mod BOARD_SIZE) (current_player l))
                             (Q_table g) !! k)).
    { destruct (decide (state l = k)) as [<-|Hne].
      - rewrite E1. eauto.
      - now rewrite lookup_insert_ne in Hk. }
    destruct Hk1 as [v Hv].
    apply initialize_q_table_lookup in Hv as [Hv|(_ & -> & _)]; [left; eauto|now right].
Qed.

Lemma play_keys (tape : list draw) l g l' g' tape' :
  play tape l g = Ok (l', g', tape') ->
  forall k, is_Some (Q_table g !! k) -> is_Some (Q_table g' !! k).
Proof.
  intros E.
  refine (play_invariant
            (fun _ g1 => forall k, is_Some (Q_table g !! k) -> is_Some (Q_table g1 !! k))
            _ tape l g l' g' tape' _ E); [|auto].
  intros d l1 g1 l2 g2 HP Et k Hk. apply (turn_keys d l1 g1 l2 g2 Et k). now apply HP.
Qed.

Lemma train_ai_keys (episodes : nat) (tape tape' : list draw) g g' :
  train_ai episodes tape g = Ok (g', tape') ->
  forall k, is_Some (Q_table g !! k) -> is_Some (Q_table g' !! k).
Proof.
  revert tape g. induction episodes as [|episodes IH]; intros tape g E k Hk.
  - simpl in E. now injection E as <- <-.
  - simpl in E. apply bind_Ok in E as ([[l2 g2] tape2] & E1 & E).
    apply (IH _ _ E). cbn [decay Q_table].
    apply (play_keys _ _ _ _ _ _ E1). cbn [Q_table].
    destruct Hk as [v Hv]. rewrite (initialize_q_table_keeps _ _ _ _ Hv). eauto.
Qed.

(** Once an episode has begun, the empty board is a key of the table. *)
Lemma train_ai_key_empty (episodes : nat) (tape tape' : list draw) g g' :
  train_ai (S episodes) tape g = Ok (g', tape') ->
  is_Some (Q_table g' !! board_to_tuple empty_board).
Proof.
  intros E. simpl in E. apply bind_Ok in E as ([[l2 g2] tape2] & E1 & E).
  apply (train_ai_keys _ _ _ _ _ E). cbn [decay Q_table].
  apply (play_keys _ _ _ _ _ _ E1). cbn [Q_table].
  destruct (initialize_q_table_present empty_board (Q_table g)) as [v Hv]. eauto.
Qed.

Lemma turn_legal_keys d l g l' g' :
  legal_keys (Q_table g) /\ episode_inv l ->
  turn d l g = Ok (l', g') ->
  legal_keys (Q_table g') /\ episode_inv l'.
Proof.
  intros [Hkeys Hinv] E.
  assert (Hinv' : episode_inv l').
  { destruct (turn_step d l g l' g' Hinv E) as [[-> _]|(t & _ & _ & Hinv' & _)];
      assumption. }
  split; [|exact Hinv'].
  intros k Hk. destruct (proj2 (turn_keys d l g l' g' E k) Hk) as [Hold| ->].
  - now apply Hkeys.
  - rewrite key_board_board_to_tuple. now apply episode_inv_legal.
Qed.

Lemma train_ai_legal_keys (episodes : nat) (tape tape' : list draw) g g' :
  legal_keys (Q_table g) ->
  train_ai episodes tape g = Ok (g', tape') ->
  legal_keys (Q_table g').
Proof.
  apply (train_ai_invariant
           (fun g => legal_keys (Q_table g))
           (fun l g => legal_keys (Q_table g) /\ episode_inv l)).
  - intros g0 Hkeys. split; [|apply episode_inv_start].
    intros k [v Hv]. cbn [episode_start snd Q_table] in Hv.
    apply initialize_q_table_lookup in Hv as [Hv|(_ & -> & _)].
    + apply Hkeys. eauto.
    + rewrite key_board_board_to_tuple.
      exact (episode_inv_legal _ (episode_inv_start g0)).
  - intros d l g0 l' g0'. apply turn_legal_keys.
  - intros l g0 [Hkeys _]. exact Hkeys.
Qed.

End SeenLegal.

(** X8 ([train_ai], [initialize_q_table], [board_to_tuple]). Whatever the
    random outcomes, every key that training a fresh program has entered into
    the table is a position of a game that O opens and in which the players
    alternate: a 5x5 board of blanks, O and X on which O has as many marks as
    X, or one more. *)
Theorem trained_keys_are_legal_positions {V : Type} `{Number V}
    (episodes : nat) (tape tape' : list draw) (g : globals)
    (k : StateKey) (values : list V) :
  train_ai episodes tape initial_globals = Ok (g, tape') ->
  Q_table g !! k = Some values ->
  legal_position (key_board k).
Proof.
  intros Et Ek.
  apply (train_ai_legal_keys episodes tape tape' initial_globals g); [|exact Et|eauto].
  intros k0 [v Hv]. cbn [initial_globals Q_table] in Hv. now rewrite lookup_empty in Hv.
Qed.

Lemma trained_keys_are_legal_positions_witness :
  exists (g : @globals Q) (values : list Q),
    train_ai 1 (concat (replicate 1 tape_O_wins)) initial_globals = Ok (g, [])
    /\ Q_table g !! key_empty = Some values
    /\ legal_position (key_board key_empty).
Proof.
  destruct (training_completes 1) as (g & E & _).
  destruct (train_ai_key_empty 0 _ [] initial_globals g E) as [values Ek].
  exists g, values. split; [exact E|]. split; [exact Ek|].
  exact (trained_keys_are_legal_positions 1 _ [] g key_empty values E Ek).
Defined.

(** X9 ([train_ai], [initialize_q_table], [update_q_table]). Training never
    removes a key from the table, and after one episode or more the empty
    board is one of its keys. *)
Theorem training_keeps_every_key {V : Type} `{Number V}
    (episodes : nat) (tape tape' : list draw) (g g' : globals) :
  train_ai episodes tape g = Ok (g', tape') ->
  (forall k, is_Some (Q_table g !! k) -> is_Some (Q_table g' !! k))
  /\ ((0 < episodes)%nat -> is_Some (Q_table g' !! board_to_tuple empty_board)).
Proof.
  intros E. split; [exact (train_ai_keys _ _ _ _ _ E)|].
  destruct episodes as [|episodes]; [lia|]. intros _.
  exact (train_ai_key_empty _ _ _ _ _ E).
Qed.

Lemma training_keeps_every_key_witness :
  exists (g' : @globals Q),
    train_ai 1 (concat (replicate 1 tape_O_wins)) initial_globals = Ok (g', [])
    /\ (forall k, is_Some (Q_table (@initial_globals Q _) !! k) ->
                  is_Some (Q_table g' !! k))
    /\ ((0 < 1)%nat -> is_Some (Q_table g' !! board_to_tuple empty_board)).
Proof.
  destruct (training_completes 1) as (g' & E & _).
  exists g'. split; [exact E|].
  exact (training_keeps_every_key 1 _ [] initial_globals g' E).
Defined.

(** ** A game the AI opens *)

Lemma getitem2_empty_board (row col : nat) :
  (row < BOARD_SIZE)%nat -> (col < BOARD_SIZE)%nat ->
  getitem2 empty_board row col = Ok " "%string.
Proof.
  unfold BOARD_SIZE. intros Hrow Hcol.
  do 5 (destruct row as [|row]; [do 5 (destruct col as [|col]; [reflexivity|]); lia|]).
  lia.
Qed.

Lemma count_symbol_empty_board (symbol : string) :
  symbol <> " "%string -> count_symbol symbol empty_board = 0%nat.
Proof.
  intros Hne. assert (E : String.eqb " " symbol = false).
  { apply String.eqb_neq. congruence. }
  unfold count_symbol, count_in_row, empty_board, BOARD_SIZE.
  cbn [replicate map sum_list sum_list_with id]. now rewrite E.
Qed.

(** One mark on the empty board neither wins nor fills it. *)
Lemma first_mark_goes_on (row col : nat) (symbol : string) :
  (row < BOARD_SIZE)%nat -> (col < BOARD_SIZE)%nat -> symbol <> " "%string ->
  is_winner (setitem2 empty_board row col symbol) symbol = Ok false
  /\ is_draw (setitem2 empty_board row col symbol) = false.
Proof.
  intros Hrow Hcol Hne.
  pose proof (getitem2_empty_board row col Hrow Hcol) as Ec.
  assert (Hwf : wf_board (setitem2 empty_board row col symbol))
    by (apply wf_board_setitem2; exact wf_board_empty).
  assert (E1 : String.eqb " " symbol = false) by (apply String.eqb_neq; congruence).
  assert (E2 : String.eqb symbol " " = false) by (apply String.eqb_neq; congruence).
  split.
  - destruct (is_winner_returns _ symbol Hwf) as [[|] Ew]; [exfalso|exact Ew].
    apply winner_has_five in Ew; [|exact Hwf].
    pose proof (count_symbol_setitem2 symbol empty_board row col " " symbol Ec) as Hc.
    rewrite count_symbol_empty_board, E1, String.eqb_refl in Hc by exact Hne. lia.
  - destruct (is_draw _) eqn:Hd; [exfalso|reflexivity].
    apply is_draw_no_blank in Hd.
    pose proof (count_symbol_setitem2 " " empty_board row col " " symbol Ec) as Hc.
    rewrite Hd, E2 in Hc.
    change (count_symbol " " empty_board) with 25%nat in Hc.
    cbn [String.eqb Ascii.eqb Bool.eqb] in Hc. lia.
Qed.

(** X10 ([TicTacToeGame.__init__], [ai_move], after [train_ai]). After one
    training episode or more, a game the AI opens, as in the mode the program
    calls AI vs AI, starts without an exception: the AI puts its symbol on the
    cell of the greedy action of the empty board, on the board and on the
    button, nothing is shown, and the turn passes to the human. *)
Theorem trained_ai_opens_the_game {V : Type} `{Number V}
    (episodes : nat) (tape tape' : list draw) (g g' : globals)
    (depth : nat) (human ai : string) :
  table_ok (Q_table g) ->
  train_ai (S episodes) tape g = Ok (g', tape') ->
  ai <> " "%string ->
  exists values action,
    Q_table g' !! board_to_tuple empty_board = Some values
    /\ argmax values = Ok action
    /\ (action < BOARD_SIZE * BOARD_SIZE)%nat
    /\ TicTacToeGame.init (Q_table g') (S depth) human ai false
       = (Ok tt,
          TicTacToeGame.set_current_player human
            (TicTacToeGame.marked (action / BOARD_SIZE) (action mod BOARD_SIZE) ai
               (TicTacToeGame.created human ai false))).
Proof.
  intros Hok Et Hai.
  destruct (train_ai_key_empty _ _ _ _ _ Et) as [values Ek].
  pose proof (train_ai_table_ok _ _ _ _ _ Hok Et _ _ Ek) as Hlen.
  destruct (argmax_nonempty values) as [action Ea].
  { intros ->. discriminate. }
  pose proof (argmax_lt _ _ Ea) as Hlt. rewrite Hlen in Hlt.
  assert (Hrow : (action / BOARD_SIZE < BOARD_SIZE)%nat)
    by (apply Nat.Div0.div_lt_upper_bound; exact Hlt).
  assert (Hcol : (action mod BOARD_SIZE < BOARD_SIZE)%nat)
    by (apply Nat.mod_upper_bound; discriminate).
  exists values, action. split; [exact Ek|]. split; [exact Ea|]. split; [exact Hlt|].
  destruct (first_mark_goes_on _ _ ai Hrow Hcol Hai) as [Hw Hd].
  unfold TicTacToeGame.init.
  exact (ai_move_continue (Q_table g') depth (TicTacToeGame.created human ai false)
           values action " " Ek Ea (getitem2_empty_board _ _ Hrow Hcol)
           (getitem2_empty_board _ _ Hrow Hcol) Hw Hd).
Qed.

Lemma trained_ai_opens_the_game_witness :
  exists (g' : @globals Q),
    train_ai 1 (concat (replicate 1 tape_O_wins)) initial_globals = Ok (g', [])
    /\ exists values action,
         Q_table g' !! board_to_tuple empty_board = Some values
         /\ argmax values = Ok action
         /\ (action < BOARD_SIZE * BOARD_SIZE)%nat
         /\ TicTacToeGame.init (Q_table g') 1 "X" "O" false
            = (Ok tt,
               TicTacToeGame.set_current_player "X"
                 (TicTacToeGame.marked (action / BOARD_SIZE) (action mod BOARD_SIZE) "O"
                    (TicTacToeGame.created "X" "O" false))).
Proof.
  destruct (training_completes 1) as (g' & E & _).
  exists g'. split; [exact E|].
  apply (trained_ai_opens_the_game 0 (concat (replicate 1 tape_O_wins)) []
           initial_globals g' 0 "X" "O").
  - apply map_Forall_empty.
  - exact E.
  - discriminate.
Defined.

(** ** Turns that make no progress *)

Section Spinning.
Context {V : Type} `{Number V}.
Implicit Types (l : episode) (g : @globals V) (d : @draw V).

(** As long as the draws do not explore, a greedy action that targets an
    occupied cell is chosen again and again. *)
Lemma play_spins (tape rest : list draw) l g values action cell :
  done l = false ->
  Q_table g !! state l = Some values ->
  argmax values = Ok action ->
  getitem2 (board l) (action / BOARD_SIZE) (action mod BOARD_SIZE) = Ok cell ->
  cell <> " "%string ->
  Forall (fun d => num_lt (uniform d) (EXPLORATION_RATE g) = false) tape ->
  play (tape ++ rest) l g = play rest l g.
Proof.
  intros Hd Ek Ea Ec Hcell Htape.
  induction tape as [|d tape IH]; [reflexivity|].
  apply Forall_cons in Htape as [Hu Htape].
  assert (Et : turn d l g = Ok (l, g)).
  { apply (turn_occupied d l g action cell); [|exact Ec|exact Hcell].
    unfold choose_action. rewrite Hu. apply getkey_Ok in Ek.
    now rewrite Ek, result_bind_Ok. }
  cbn [app play]. rewrite Hd, Et, result_bind_Ok. exact (IH Htape).
Qed.

End Spinning.

(** X11 ([train_ai], [choose_action]). The [while] of an episode makes no
    progress while its draws do not explore and the greedy action of the
    current state targets an occupied cell: the locals, the table and the
    learner's calls stay as they are whatever the number of such draws, so
    only an exploring draw can end the episode. *)
Theorem exploiting_an_occupied_cell_spins {V : Type} `{Number V}
    (tape rest : list draw) (l : episode) (g : globals)
    (values : list V) (action : nat) (cell : string) :
  done l = false ->
  Q_table g !! state l = Some values ->
  argmax values = Ok action ->
  getitem2 (board l) (action / BOARD_SIZE) (action mod BOARD_SIZE) = Ok cell ->
  cell <> " "%string ->
  Forall (fun d => num_lt (uniform d) (EXPLORATION_RATE g) = false) tape ->
  play (tape ++ rest) l g = play rest l g
  /\ play tape l g = Starved.
Proof.
  intros Hd Ek Ea Ec Hcell Htape. split.
  - exact (play_spins tape rest l g values action cell Hd Ek Ea Ec Hcell Htape).
  - rewrite <- (app_nil_r tape).
    rewrite (play_spins tape [] l g values action cell Hd Ek Ea Ec Hcell Htape).
    cbn [play]. now rewrite Hd.
Qed.

Lemma exploiting_an_occupied_cell_spins_witness :
  play ([Draw 0.999%Q 7; Draw 0.998%Q 12] ++ [Draw 0.5%Q 7]) corner_episode corner_globals
  = play [Draw 0.5%Q 7] corner_episode corner_globals
  /\ play [Draw 0.999%Q 7; Draw 0.998%Q 12] corner_episode corner_globals = Starved.
Proof.
  apply (exploiting_an_occupied_cell_spins [Draw 0.999%Q 7; Draw 0.998%Q 12]
           [Draw 0.5%Q 7] corner_episode corner_globals (replicate 25 0%Q) 0 "O").
  - reflexivity.
  - apply lookup_insert_eq.
  - reflexivity.
  - reflexivity.
  - discriminate.
  - repeat constructor.
Defined.

(** ** How the learner and the policy fail *)

Section Failures.
Context {V : Type} `{Number V}.
Implicit Types (Qt : gmap StateKey (list V)).

(** The outcome of [update_q_table] on a well-formed table, by what the table
    holds. *)
Lemma update_q_table_outcome Qt state action reward next_state :
  table_ok Qt ->
  match Qt !! next_state, Qt !! state with
  | None, _ | _, None =>
      update_q_table state action reward next_state Qt = Raise KeyError
  | Some _, Some _ =>
      if decide (action < BOARD_SIZE * BOARD_SIZE)%nat
      then returns (update_q_table state action reward next_state Qt)
      else update_q_table state action reward next_state Qt = Raise IndexError
  end.
Proof.
  intros Hok.
  destruct (Qt !! next_state) as [next_values|] eqn:En;
    [|unfold update_q_table, getkey; now rewrite En].
  pose proof (Hok _ _ En) as Hn.
  destruct (argmax_nonempty next_values) as [best Eb].
  { intros ->. discriminate. }
  destruct (lookup_lt_is_Some_2 next_values best (argmax_lt _ _ Eb)) as [best_next Ebn].
  assert (Estart : forall Qt1 : result (gmap StateKey (list V)),
            update_q_table state action reward next_state Qt = Qt1 <->
            (values ← getkey Qt state;
             old ← getitem values action;
             values ← getkey Qt state;
             old' ← getitem values action;
             Ok (<[state := <[action :=
                   num_add old'
                     (num_mul LEARNING_RATE
                        (num_sub (num_add (num_of_int reward)
                                    (num_mul DISCOUNT_FACTOR best_next)) old))]> values]>
                   Qt)) = Qt1).
  { intros Qt1. unfold update_q_table. set (ks := getkey Qt state). unfold getkey.
    rewrite En, !result_bind_Ok, Eb, !result_bind_Ok.
    apply getitem_Ok in Ebn. rewrite Ebn, !result_bind_Ok. cbv zeta. reflexivity. }
  unfold getkey in Estart.
  destruct (Qt !! state) as [values|] eqn:Es; [|now apply Estart].
  pose proof (Hok _ _ Es) as Hs.
  destruct (decide (action < BOARD_SIZE * BOARD_SIZE)%nat) as [Hlt|Hge].
  - destruct (lookup_lt_is_Some_2 values action) as [old Eo]; [now rewrite Hs|].
    apply getitem_Ok in Eo. eexists. apply Estart.
    rewrite result_bind_Ok, Eo, !result_bind_Ok, Eo, result_bind_Ok. reflexivity.
  - assert (Eg : getitem values action = Raise IndexError).
    { unfold getitem. rewrite (lookup_ge_None_2 values action); [reflexivity|].
      rewrite Hs. lia. }
    apply Estart. rewrite result_bind_Ok, Eg. reflexivity.
Qed.

End Failures.

(** X12 ([update_q_table]). On a table whose vectors have 25 values the
    learner raises [KeyError] exactly when the state or the next state is not
    a key, raises [IndexError] exactly when both are keys and the action is 25
    or more, and otherwise returns; it fails in no other way. *)
Theorem update_q_table_fails_on_missing_keys_and_large_actions {V : Type} `{Number V}
    (Qt : gmap StateKey (list V)) (state : StateKey) (action : nat) (reward : Z)
    (next_state : StateKey) :
  table_ok Qt ->
  (update_q_table state action reward next_state Qt = Raise KeyError
   <-> Qt !! state = None \/ Qt !! next_state = None)
  /\ (update_q_table state action reward next_state Qt = Raise IndexError
      <-> is_Some (Qt !! state) /\ is_Some (Qt !! next_state)
          /\ (BOARD_SIZE * BOARD_SIZE <= action)%nat)
  /\ (returns (update_q_table state action reward next_state Qt)
      <-> is_Some (Qt !! state) /\ is_Some (Qt !! next_state)
          /\ (action < BOARD_SIZE * BOARD_SIZE)%nat).
Proof.
  intros Hok.
  pose proof (update_q_table_outcome Qt state action reward next_state Hok) as Hout.
  destruct (Qt !! next_state) as [next_values|] eqn:En.
  - destruct (Qt !! state) as [values|] eqn:Es.
    + destruct (decide (action < BOARD_SIZE * BOARD_SIZE)%nat) as [Hlt|Hge].
      * destruct Hout as [Qt' E]. rewrite E. split; [|split].
        -- split; [discriminate|]. intros [?|?]; discriminate.
        -- split; [discriminate|]. intros (_ & _ & Hge). lia.
        -- split; [|eexists; reflexivity]. intros _. repeat split; eauto.
      * rewrite Hout. split; [|split].
        -- split; [discriminate|]. intros [?|?]; discriminate.
        -- split; [|reflexivity]. intros _. repeat split; eauto. lia.
        -- split; [intros [? ?]; discriminate|]. intros (_ & _ & Hlt). lia.
    + rewrite Hout. split; [|split].
      * split; [auto|reflexivity].
      * split; [discriminate|]. intros ([? ?] & _). discriminate.
      * split; [intros [? ?]; discriminate|]. intros ([? ?] & _). discriminate.
  - assert (E : update_q_table state action reward next_state Qt = Raise KeyError)
      by (destruct (Qt !! state); exact Hout).
    rewrite E. split; [|split].
    + split; [auto|reflexivity].
    + split; [discriminate|]. intros (_ & [? ?] & _). discriminate.
    + split; [intros [? ?]; discriminate|]. intros (_ & [? ?] & _). discriminate.
Qed.

Lemma table_ok_table_08 : table_ok table_08.
Proof.
  unfold table_08. apply map_Forall_insert_2; [reflexivity|].
  apply map_Forall_insert_2; [reflexivity|apply map_Forall_empty].
Qed.

Lemma update_q_table_fails_on_missing_keys_and_large_actions_witness :
  (update_q_table key_empty 25 0 key_corner table_08 = Raise KeyError
   <-> table_08 !! key_empty = None \/ table_08 !! key_corner = None)
  /\ (update_q_table key_empty 25 0 key_corner table_08 = Raise IndexError
      <-> is_Some (table_08 !! key_empty) /\ is_Some (table_08 !! key_corner)
          /\ (BOARD_SIZE * BOARD_SIZE <= 25)%nat)
  /\ (returns (update_q_table key_empty 25 0 key_corner table_08)
      <-> is_Some (table_08 !! key_empty) /\ is_Some (table_08 !! key_corner)
          /\ (25 < BOARD_SIZE * BOARD_SIZE)%nat).
Proof.
  apply (update_q_table_fails_on_missing_keys_and_large_actions
           table_08 key_empty 25 0 key_corner).
  exact table_ok_table_08.
Defined.

(** X13 ([choose_action]). On a table whose vectors have 25 values and an
    outcome of [random.randint(0, 24)], the policy fails in one way only: it
    raises [KeyError] exactly when the draw does not explore and the state is
    not a key of the table; otherwise it returns an index of the board, the
    random one when it explores whatever the table holds. *)
Theorem choose_action_fails_only_on_an_unseen_state {V : Type} `{Number V}
    (Qt : gmap StateKey (list V)) (state : StateKey) (exploration_rate : V)
    (d : draw) :
  table_ok Qt -> valid_draw d ->
  (choose_action Qt state exploration_rate d = Raise KeyError
   <-> num_lt (uniform d) exploration_rate = false /\ Qt !! state = None)
  /\ (num_lt (uniform d) exploration_rate = true ->
      choose_action Qt state exploration_rate d = Ok (randint d))
  /\ (choose_action Qt state exploration_rate d = Raise KeyError
      \/ exists action,
           choose_action Qt state exploration_rate d = Ok action
           /\ (action < BOARD_SIZE * BOARD_SIZE)%nat).
Proof.
  intros Hok Hd. unfold choose_action.
  destruct (num_lt (uniform d) exploration_rate) eqn:Hu.
  - split; [|split].
    + split; [discriminate|]. intros [? _]. discriminate.
    + reflexivity.
    + right. exists (randint d). split; [reflexivity|exact Hd].
  - unfold getkey. destruct (Qt !! state) as [values|] eqn:Es.
    + rewrite result_bind_Ok.
      destruct (argmax_nonempty values) as [action Ea].
      { intros ->. specialize (Hok _ _ Es). discriminate. }
      pose proof (argmax_lt _ _ Ea) as Hlt. rewrite (Hok _ _ Es) in Hlt.
      rewrite Ea. split; [|split].
      * split; [discriminate|]. intros [_ ?]. discriminate.
      * discriminate.
      * right. exists action. now split.
    + split; [|split].
      * split; [auto|reflexivity].
      * discriminate.
      * now left.
Qed.

Lemma choose_action_fails_only_on_an_unseen_state_witness :
  (choose_action table_08 key_corner 0.995%Q (Draw 0.999%Q 3) = Raise KeyError
   <-> num_lt (uniform (Draw 0.999%Q 3)) 0.995%Q = false /\ table_08 !! key_corner = None)
  /\ (num_lt (uniform (Draw 0.999%Q 3)) 0.995%Q = true ->
      choose_action table_08 key_corner 0.995%Q (Draw 0.999%Q 3)
      = Ok (randint (Draw 0.999%Q 3)))
  /\ (choose_action table_08 key_corner 0.995%Q (Draw 0.999%Q 3) = Raise KeyError
      \/ exists action,
           choose_action table_08 key_corner 0.995%Q (Draw 0.999%Q 3) = Ok action
           /\ (action < BOARD_SIZE * BOARD_SIZE)%nat).
Proof.
  apply (choose_action_fails_only_on_an_unseen_state table_08 key_corner 0.995%Q
           (Draw 0.999%Q 3)).
  - exact table_ok_table_08.
  - unfold valid_draw. cbn [randint]. unfold BOARD_SIZE. lia.
Defined.

(** ** The size of the learned values *)

(** The temporal-difference rule maps values between -10 and 10 and a reward
    between -1 and 1 to a value between -10 and 10. *)
Lemma td_update_bounded (old best_next : Q) (reward : Z) :
  (-10 <= old <= 10)%Q -> (-10 <= best_next <= 10)%Q -> (-1 <= reward <= 1)%Z ->
  (-10 <= td_update old reward best_next <= 10)%Q.
Proof.
  intros Ho Hb Hr.
  assert (Hq : (-1 <= inject_Z reward <= 1)%Q).
  { split.
    - change (-1)%Q with (inject_Z (-1)). rewrite <- Zle_Qle. lia.
    - change 1%Q with (inject_Z 1). rewrite <- Zle_Qle. lia. }
  unfold td_update, LEARNING_RATE, DISCOUNT_FACTOR.
  cbn [num_add num_sub num_mul num_of_int num_lit Q_Number].
  generalize dependent (inject_Z reward). intros r Hq. lra.
Qed.

Lemma initialize_q_table_bounded (board : Board) (Qt : gmap StateKey (list Q)) :
  bounded_values Qt -> bounded_values (initialize_q_table board Qt).
Proof.
  intros Hb k values E.
  apply initialize_q_table_lookup in E as [E|(_ & _ & ->)]; [exact (Hb _ _ E)|].
  apply Forall_replicate. cbn [num_zero Q_Number]. lra.
Qed.

Lemma update_q_table_bounded (state next_state : StateKey) (action : nat) (reward : Z)
    (Qt Qt' : gmap StateKey (list Q)) :
  bounded_values Qt -> (-1 <= reward <= 1)%Z ->
  update_q_table state action reward next_state Qt = Ok Qt' ->
  bounded_values Qt'.
Proof.
  intros Hb Hr E.
  apply update_q_table_Ok in E
    as (values & old & next_values & best & best_next & E1 & E2 & E3 & _ & E5 & ->).
  apply map_Forall_insert_2; [|exact Hb].
  apply Forall_insert; [exact (Hb _ _ E1)|].
  apply td_update_bounded; [| |exact Hr].
  - exact (Forall_lookup_1 _ _ _ _ (Hb _ _ E1) E2).
  - exact (Forall_lookup_1 _ _ _ _ (Hb _ _ E3) E5).
Qed.

Lemma judged_reward (won : bool) (board' : Board) (player : string) (done : bool) :
  (-1 <= fst (judged won board' player done) <= 1)%Z.
Proof.
  unfold judged. destruct won; [destruct (String.eqb player "O")|destruct (is_draw board')];
    cbn [fst]; lia.
Qed.

(** X14 ([update_q_table], [initialize_q_table], in exact arithmetic). Any
    series of calls of the two functions that write to the table, with rewards
    between -1 and 1, keeps every value between -10 and 10, that is within
    1 / (1 - DISCOUNT_FACTOR) of zero, whatever the states and actions and
    whether the calls return or raise: the rule cannot make the values
    diverge. *)
Theorem table_values_stay_within_10 (ops : list table_op)
    (Qt : gmap StateKey (list Q)) :
  bounded_values Qt ->
  Forall (fun op => match op with
                    | Update _ _ reward _ => (-1 <= reward <= 1)%Z
                    | Initialize _ => True
                    end) ops ->
  bounded_values (run_ops ops Qt).
Proof.
  unfold run_ops. revert Qt. induction ops as [|op ops IH]; intros Qt Hb Hops.
  - exact Hb.
  - apply Forall_cons in Hops as [Hop Hops]. cbn [foldl]. apply IH; [|exact Hops].
    destruct op as [board|state action reward next_state]; cbn [run_op].
    + now apply initialize_q_table_bounded.
    + destruct (update_q_table state action reward next_state Qt) as [Qt'| |] eqn:E;
        [|exact Hb|exact Hb].
      exact (update_q_table_bounded _ _ _ _ _ _ Hb Hop E).
Qed.

Lemma table_values_stay_within_10_witness :
  bounded_values
    (run_ops [Initialize empty_board; Update key_empty 3 1 key_empty;
              Update key_empty 3 (-1) key_corner] ∅).
Proof.
  apply (table_values_stay_within_10
           [Initialize empty_board; Update key_empty 3 1 key_empty;
            Update key_empty 3 (-1) key_corner] ∅).
  - apply map_Forall_empty.
  - repeat constructor; lia.
Defined.

(** ** The positions at which an episode ends *)

Lemma getitem2_setitem2_other (b : Board) (row col i j : nat) (x p : string) :
  getitem2 (setitem2 b row col x) i j = Ok p -> p <> x -> getitem2 b i j = Ok p.
Proof.
  intros E Hne. apply getitem2_Ok in E as (r & Hr & Hp). apply getitem2_Ok.
  unfold setitem2 in Hr.
  destruct (decide (row = i)) as [->|Hrow].
  - rewrite list_lookup_alter_eq in Hr.
    destruct (b !! i) as [r0|] eqn:Hr0; [|discriminate].
    injection Hr as <-. exists r0. split; [reflexivity|].
    apply list_lookup_insert_Some in Hp as [(_ & -> & _)|(_ & Hp)]; [congruence|exact Hp].
  - rewrite list_lookup_alter_ne in Hr by exact Hrow. eauto.
Qed.

(** A move by one player completes no line of the other. *)
Lemma line_of_before (b : Board) (row col : nat) (x p : string) (line : list (nat * nat)) :
  line_of (setitem2 b row col x) p line -> p <> x -> line_of b p line.
Proof.
  unfold line_of. intros Hof Hne. eapply Forall_impl; [exact Hof|].
  intros [i j] E. exact (getitem2_setitem2_other b row col i j x p E Hne).
Qed.

Lemma not_over_empty_board : ~ over empty_board.
Proof.
  intros [(player & line & Hp & Hline & Hof)|Hd]; [|discriminate].
  pose proof (line_count _ _ _ wf_board_empty Hline Hof) as H5.
  rewrite count_symbol_empty_board in H5; [lia|].
  destruct Hp as [-> | ->]; discriminate.
Qed.

Section RunningFacts.
Context {V : Type} `{Number V}.
Implicit Types (l : episode) (g : @globals V) (d : @draw V).

(** The [while] runs its body only while [done] is false. *)
Lemma play_invariant_running (P : episode -> @globals V -> Prop) :
  (forall d l g l' g', done l = false -> P l g -> turn d l g = Ok (l', g') -> P l' g') ->
  forall tape l g l' g' tape',
    P l g -> play tape l g = Ok (l', g', tape') -> P l' g'.
Proof.
  intros Hturn tape. induction tape as [|d tape IH]; intros l g l' g' tape' HP E.
  - simpl in E. destruct (done l); [|discriminate]. now injection E as <- <- <-.
  - simpl in E. destruct (done l) eqn:Hd; [now injection E as <- <- <-|].
    apply bind_Ok in E as ([l1 g1] & E1 & E).
    apply (IH l1 g1 l' g' tape'); [|exact E]. exact (Hturn _ _ _ _ _ Hd HP E1).
Qed.

Lemma train_ai_invariant_running (R : @globals V -> Prop)
    (P : episode -> @globals V -> Prop) :
  (forall g, R g -> P (fst (episode_start g)) (snd (episode_start g))) ->
  (forall d l g l' g', done l = false -> P l g -> turn d l g = Ok (l', g') -> P l' g') ->
  (forall l g, P l g -> R (decay g)) ->
  forall episodes tape g g' tape',
    R g -> train_ai episodes tape g = Ok (g', tape') -> R g'.
Proof.
  intros Hstart Hturn Hdecay episodes.
  induction episodes as [|episodes IH]; intros tape g g' tape' HR E.
  - simpl in E. now injection E as <- <-.
  - simpl in E. apply bind_Ok in E as ([[l2 g2] tape2] & E1 & E).
    apply (IH tape2 (decay g2) g' tape'); [|exact E].
    apply (Hdecay l2).
    exact (play_invariant_running P Hturn _ _ _ _ _ _ (Hstart g HR) E1).
Qed.

Lemma initialize_q_table_final (board : Board) (Qt : gmap StateKey (list V)) :
  final_keys_zero Qt -> final_keys_zero (initialize_q_table board Qt).
Proof.
  intros Hz k values E Hover.
  apply initialize_q_table_lookup in E as [E|(_ & _ & ->)];
    [exact (Hz _ _ E Hover)|reflexivity].
Qed.

Lemma running_inv_start g :
  final_keys_zero (Q_table g) ->
  running_inv (fst (episode_start g)) (snd (episode_start g)).
Proof.
  intros Hz. split; [apply episode_inv_start|]. split.
  - intros _. exact not_over_empty_board.
  - cbn [episode_start snd Q_table]. now apply initialize_q_table_final.
Qed.

(** The board a turn leaves with [done] false is not one at which an episode
    ends. *)
Lemma judged_running (won : bool) (b : Board) (row col : nat) (mover : string) :
  wf_board b ->
  (mover = "O" \/ mover = "X")%string ->
  ~ over b ->
  is_winner (setitem2 b row col mover) mover = Ok won ->
  snd (judged won (setitem2 b row col mover) mover false) = false ->
  ~ over (setitem2 b row col mover).
Proof.
  intros Hwf Hmover Hnot Ew Hj.
  assert (Hwf' : wf_board (setitem2 b row col mover)) by now apply wf_board_setitem2.
  unfold judged in Hj. destruct won; [discriminate|].
  destruct (is_draw (setitem2 b row col mover)) eqn:Hd; [discriminate|].
  intros [(player & line & Hp & Hline & Hof)|Hd']; [|congruence].
  destruct (decide (player = mover)) as [->|Hne].
  - assert (E : is_winner (setitem2 b row col mover) mover = Ok true)
      by (apply is_winner_true; eauto).
    congruence.
  - apply Hnot. left. exists player, line. split; [exact Hp|]. split; [exact Hline|].
    exact (line_of_before b row col mover player line Hof Hne).
Qed.

(** A board with [done] true after a turn that began with [done] false is one
    at which an episode ends. *)
Lemma judged_over (won : bool) (b : Board) (row col : nat) (mover : string) :
  wf_board b ->
  (mover = "O" \/ mover = "X")%string ->
  is_winner (setitem2 b row col mover) mover = Ok won ->
  snd (judged won (setitem2 b row col mover) mover false) = true ->
  over (setitem2 b row col mover).
Proof.
  intros Hwf Hmover Ew Hj.
  assert (Hwf' : wf_board (setitem2 b row col mover)) by now apply wf_board_setitem2.
  unfold judged in Hj. destruct won.
  - apply is_winner_true in Ew as (line & Hline & Hof); [|exact Hwf'].
    left. exists mover, line. auto.
  - destruct (is_draw (setitem2 b row col mover)) eqn:Hd; [now right|discriminate].
Qed.

Lemma turn_running d l g l' g' :
  done l = false -> running_inv l g -> turn d l g = Ok (l', g') -> running_inv l' g'.
Proof.
  intros Hd (Hinv & Hnot & Hz) E.
  assert (Hinv' : episode_inv l').
  { destruct (turn_step d l g l' g' Hinv E) as [[-> _]|(t & _ & _ & Hinv' & _)];
      assumption. }
  split; [exact Hinv'|].
  destruct Hinv as (Hstate & Hwf & _ & Halt).
  assert (Hmover : current_player l = "O"%string \/ current_player l = "X"%string)
    by (destruct Halt as [[Hp _]|[Hp _]]; auto).
  apply turn_Ok in E as (action & cell & _ & Ec & [(_ & -> & ->)|(-> & E)]);
    [now split|].
  destruct E as (won & Qt2 & Ew & Eu & -> & ->). cbv zeta in Ew, Eu.
  cbn [board done Q_table]. rewrite Hd in *. split.
  - intros Hj. exact (judged_running won _ _ _ _ Hwf Hmover (Hnot eq_refl) Ew Hj).
  - intros k values Ek Hover.
    apply update_q_table_Ok in Eu
      as (values0 & old & next_values & best & best_next & E1 & _ & _ & _ & _ & ->).
    destruct (decide (state l = k)) as [<-|Hne].
    + exfalso. apply (Hnot eq_refl).
      now rewrite Hstate, key_board_board_to_tuple in Hover.
    + rewrite lookup_insert_ne in Ek by exact Hne.
      exact (initialize_q_table_final _ _ Hz _ _ Ek Hover).
Qed.

Lemma train_ai_final_keys_zero (episodes : nat) (tape tape' : list draw) g g' :
  final_keys_zero (Q_table g) ->
  train_ai episodes tape g = Ok (g', tape') ->
  final_keys_zero (Q_table g').
Proof.
  apply (train_ai_invariant_running (fun g => final_keys_zero (Q_table g)) running_inv).
  - intros g0. apply running_inv_start.
  - intros d l g0 l' g0'. apply turn_running.
  - intros l g0 (_ & _ & Hz). exact Hz.
Qed.

End RunningFacts.

(** X15 ([train_ai], [update_q_table], [initialize_q_table]). Training a
    fresh program never changes the values of a position at which an episode
    ends, one where O or X owns a line or no cell is blank: whatever the
    random outcomes, its vector is the 25 zeros that [initialize_q_table]
    entered, because the learner is only ever called on the state before a
    move. *)
Theorem final_positions_keep_value_zero {V : Type} `{Number V}
    (episodes : nat) (tape tape' : list draw) (g : globals)
    (k : StateKey) (values : list V) :
  train_ai episodes tape initial_globals = Ok (g, tape') ->
  Q_table g !! k = Some values ->
  over (key_board k) ->
  values = replicate 25 num_zero.
Proof.
  intros Et Ek Hover.
  apply (train_ai_final_keys_zero episodes tape tape' initial_globals g) with (k := k);
    [|exact Et|exact Ek|exact Hover].
  intros k0 values0 E. cbn [initial_globals Q_table] in E. now rewrite lookup_empty in E.
Qed.

Lemma replay_O_has_won (g0 : @globals Q) :
  replay actions_O_wins (fst (episode_start g0)) = Some O_has_won.
Proof. vm_compute. reflexivity. Qed.

Lemma over_O_has_won : over (key_board (state O_has_won)).
Proof.
  left. exists "O"%string, (map (fun j => (0, j)%nat) (seq 0 BOARD_SIZE)).
  split; [now left|]. split.
  - apply elem_of_lines. left. exists 0%nat. split; [unfold BOARD_SIZE; lia|reflexivity].
  - unfold line_of. repeat constructor.
Qed.

(** The episode that plays [actions_O_wins], as the whole of a training run. *)
Lemma train_ai_O_wins :
  exists (g : @globals Q),
    train_ai 1 tape_O_wins initial_globals = Ok (g, [])
    /\ is_Some (Q_table g !! state O_has_won).
Proof.
  destruct (play_exploring 0%Q actions_O_wins []
              (fst (episode_start (@initial_globals Q _)))
              (snd (episode_start (@initial_globals Q _))) O_has_won)
    as (g2 & Ep & (_ & _ & Hk) & _).
  - apply (loop_inv_start (@initial_globals Q _)). apply map_Forall_empty.
  - reflexivity.
  - unfold actions_O_wins. repeat constructor; vm_compute; lia.
  - apply replay_O_has_won.
  - exists (decay g2). split; [|exact Hk].
    rewrite app_nil_r in Ep. unfold tape_O_wins.
    cbn [train_ai]. unfold episode_start in Ep. cbn [fst snd] in Ep.
    unfold episode_start. rewrite Ep, result_bind_Ok. reflexivity.
Qed.

Lemma final_positions_keep_value_zero_witness :
  exists (g : @globals Q) (values : list Q),
    train_ai 1 tape_O_wins initial_globals = Ok (g, [])
    /\ Q_table g !! state O_has_won = Some values
    /\ over (key_board (state O_has_won))
    /\ values = replicate 25 0%Q.
Proof.
  destruct train_ai_O_wins as (g & E & [values Ek]).
  exists g, values. split; [exact E|]. split; [exact Ek|]. split; [exact over_O_has_won|].
  exact (final_positions_keep_value_zero 1 tape_O_wins [] g (state O_has_won) values
           E Ek over_O_has_won).
Defined.

(** ** Values between -1 and 1 *)

(** The rule keeps a value between -1 and 1 when the move ends the episode
    and the next state is valued 0, and when the reward is 0. *)
Lemma td_update_unit (old best_next : Q) (reward : Z) :
  (-1 <= old <= 1)%Q ->
  ((-1 <= reward <= 1)%Z /\ best_next = 0%Q)
  \/ (reward = 0%Z /\ (-1 <= best_next <= 1)%Q) ->
  (-1 <= td_update old reward best_next <= 1)%Q.
Proof.
  intros Ho Hcase.
  unfold td_update, LEARNING_RATE, DISCOUNT_FACTOR.
  cbn [num_add num_sub num_mul num_of_int num_lit Q_Number].
  destruct Hcase as [[Hr ->]|[-> Hb]].
  - assert (Hq : (-1 <= inject_Z reward <= 1)%Q).
    { split.
      - change (-1)%Q with (inject_Z (-1)). rewrite <- Zle_Qle. lia.
      - change 1%Q with (inject_Z 1). rewrite <- Zle_Qle. lia. }
    generalize dependent (inject_Z reward). intros r Hq. lra.
  - change (inject_Z 0) with 0%Q. lra.
Qed.

Lemma initialize_q_table_unit (board : Board) (Qt : gmap StateKey (list Q)) :
  unit_values Qt -> unit_values (initialize_q_table board Qt).
Proof.
  intros Hb k values E.
  apply initialize_q_table_lookup in E as [E|(_ & _ & ->)]; [exact (Hb _ _ E)|].
  apply Forall_replicate. cbn [num_zero Q_Number]. lra.
Qed.

Lemma judged_going_on (won : bool) (board' : Board) (player : string) :
  snd (judged won board' player false) = false ->
  fst (judged won board' player false) = 0%Z.
Proof.
  unfold judged. destruct won; [discriminate|]. now destruct (is_draw board').
Qed.

Lemma turn_unit (d : draw) (l l' : episode) (g g' : @globals Q) :
  done l = false ->
  running_inv l g /\ unit_values (Q_table g) ->
  turn d l g = Ok (l', g') ->
  running_inv l' g' /\ unit_values (Q_table g').
Proof.
  intros Hd [Hrun Hunit] E.
  split; [exact (turn_running d l g l' g' Hd Hrun E)|].
  destruct Hrun as ((Hstate & Hwf & _ & Halt) & _ & Hz).
  assert (Hmover : current_player l = "O"%string \/ current_player l = "X"%string)
    by (destruct Halt as [[Hp _]|[Hp _]]; auto).
  apply turn_Ok in E as (action & cell & _ & _ & [(_ & _ & ->)|(_ & E)]);
    [exact Hunit|].
  destruct E as (won & Qt2 & Ew & Eu & _ & ->). cbv zeta in Ew, Eu.
  cbn [Q_table]. rewrite Hd in Eu.
  set (board' := setitem2 (board l) (action / BOARD_SIZE) (action mod BOARD_SIZE)
                   (current_player l)) in *.
  pose proof (initialize_q_table_unit board' _ Hunit) as Hunit1.
  pose proof (initialize_q_table_final board' _ Hz) as Hz1.
  apply update_q_table_Ok in Eu
    as (values & old & next_values & best & best_next & E1 & E2 & E3 & _ & E5 & ->).
  apply map_Forall_insert_2; [|exact Hunit1].
  apply Forall_insert; [exact (Hunit1 _ _ E1)|].
  apply td_update_unit; [exact (Forall_lookup_1 _ _ _ _ (Hunit1 _ _ E1) E2)|].
  destruct (snd (judged won board' (current_player l) false)) eqn:Hj.
  - left. split; [apply judged_reward|].
    assert (Hover : over (key_board (board_to_tuple board'))).
    { rewrite key_board_board_to_tuple.
      exact (judged_over won _ _ _ _ Hwf Hmover Ew Hj). }
    rewrite (Hz1 _ _ E3 Hover) in E5.
    apply lookup_replicate in E5 as [-> _]. reflexivity.
  - right. split; [exact (judged_going_on _ _ _ Hj)|].
    exact (Forall_lookup_1 _ _ _ _ (Hunit1 _ _ E3) E5).
Qed.

Lemma train_ai_unit (episodes : nat) (tape tape' : list draw) (g g' : @globals Q) :
  final_keys_zero (Q_table g) /\ unit_values (Q_table g) ->
  train_ai episodes tape g = Ok (g', tape') ->
  final_keys_zero (Q_table g') /\ unit_values (Q_table g').
Proof.
  apply (train_ai_invariant_running
           (fun g => final_keys_zero (Q_table g) /\ unit_values (Q_table g))
           (fun l g => running_inv l g /\ unit_values (Q_table g))).
  - intros g0 [Hz Hunit]. split; [now apply running_inv_start|].
    cbn [episode_start snd Q_table]. now apply initialize_q_table_unit.
  - intros d l g0 l' g0'. apply turn_unit.
  - intros l g0 [(_ & _ & Hz) Hunit]. split; assumption.
Qed.

(** X16 ([train_ai], [update_q_table], in exact arithmetic). Whatever the
    random outcomes and the number of episodes, every value of the table that
    training a fresh program leaves lies between -1 and 1: a reward of 1 or -1
    is only ever paired with a next state valued 0. *)
Theorem trained_values_stay_within_1
    (episodes : nat) (tape tape' : list draw) (g : @globals Q)
    (k : StateKey) (values : list Q) (action : nat) (v : Q) :
  train_ai episodes tape initial_globals = Ok (g, tape') ->
  Q_table g !! k = Some values ->
  values !! action = Some v ->
  (-1 <= v <= 1)%Q.
Proof.
  intros Et Ek Ev.
  assert (Hb : unit_values (Q_table g)).
  { apply (train_ai_unit episodes tape tape' initial_globals g); [|exact Et].
    split; [|apply map_Forall_empty].
    intros k0 values0 E. cbn [initial_globals Q_table] in E.
    now rewrite lookup_empty in E. }
  exact (Forall_lookup_1 _ _ _ _ (Hb _ _ Ek) Ev).
Qed.

Lemma trained_values_stay_within_1_witness :
  exists (g : @globals Q) (values : list Q) (v : Q),
    train_ai 1 (concat (replicate 1 tape_O_wins)) initial_globals = Ok (g, [])
    /\ Q_table g !! key_empty = Some values
    /\ values !! 0%nat = Some v
    /\ (-1 <= v <= 1)%Q.
Proof.
  destruct (training_completes 1) as (g & E & Hok).
  destruct (train_ai_key_empty 0 _ [] initial_globals g E) as [values Ek].
  destruct (lookup_lt_is_Some_2 values 0) as [v Ev].
  { rewrite (Hok _ _ Ek). unfold BOARD_SIZE. lia. }
  exists g, values, v. split; [exact E|]. split; [exact Ek|]. split; [exact Ev|].
  exact (trained_values_stay_within_1 1 _ [] g key_empty values 0 v E Ek Ev).
Defined.

(** ** Progress *)

(** A board that is not full has a blank cell. *)
Lemma is_draw_false_blank (b : Board) :
  is_draw b = false -> exists i j, getitem2 b i j = Ok " "%string.
Proof.
  unfold is_draw. induction b as [|row b IH]; [discriminate|].
  cbn [forallb]. intros E. apply andb_false_iff in E as [Erow|Erest].
  - assert (Hj : exists j, row !! j = Some " "%string).
    { clear IH. induction row as [|c row IHrow]; [discriminate|].
      cbn [forallb] in Erow. apply andb_false_iff in Erow as [Ec|Erow].
      - apply negb_false_iff, String.eqb_eq in Ec. subst c. now exists 0%nat.
      - destruct (IHrow Erow) as [j Hj]. now exists (S j). }
    destruct Hj as [j Hj]. exists 0%nat, j. apply getitem2_Ok. eauto.
  - destruct (IH Erest) as (i & j & E). apply getitem2_Ok in E as (r & Hr & Hc).
    exists (S i), j. apply getitem2_Ok. eauto.
Qed.

Lemma blank_action (b : Board) :
  wf_board b -> is_draw b = false ->
  exists action,
    (action < BOARD_SIZE * BOARD_SIZE)%nat
    /\ getitem2 b (action / BOARD_SIZE) (action mod BOARD_SIZE) = Ok " "%string.
Proof.
  intros Hwf Hd. destruct (is_draw_false_blank b Hd) as (i & j & E).
  destruct (wf_board_getitem2_lt b i j " " Hwf E) as [Hi Hj].
  unfold BOARD_SIZE in *. exists (i * 5 + j)%nat. split; [lia|].
  replace ((i * 5 + j) / 5)%nat with i
    by (apply (Nat.div_unique (i * 5 + j) 5 i j); lia).
  replace ((i * 5 + j) mod 5)%nat with j
    by (apply (Nat.mod_unique (i * 5 + j) 5 i j); lia).
  exact E.
Qed.

Section Progress.
Context {V : Type} `{Number V}.
Implicit Types (l : episode) (g : @globals V).

Lemma turn_blank_moves (d : draw) l g l' g' action :
  episode_inv l ->
  choose_action (Q_table g) (state l) (EXPLORATION_RATE g) d = Ok action ->
  getitem2 (board l) (action / BOARD_SIZE) (action mod BOARD_SIZE) = Ok " "%string ->
  turn d l g = Ok (l', g') ->
  marks (board l') = S (marks (board l))
  /\ length (learner_calls g') = S (length (learner_calls g)).
Proof.
  intros Hinv Ea Ec Et.
  destruct (turn_step d l g l' g' Hinv Et) as [[-> ->]|(t & _ & Hcalls & _ & Hm & _)].
  - exfalso.
    apply turn_Ok in Et as (action0 & cell & Ea0 & Ec0 & [(Hcell & _)|(_ & Hmove)]).
    + rewrite Ea in Ea0. injection Ea0 as <-. rewrite Ec in Ec0. congruence.
    + destruct Hmove as (won & Qt2 & _ & _ & _ & Hg).
      apply (f_equal (fun g0 => length (learner_calls g0))) in Hg.
      cbn [learner_calls] in Hg. rewrite length_app in Hg. simpl in Hg. lia.
  - split; [exact Hm|]. rewrite Hcalls, length_app. simpl. lia.
Qed.

End Progress.

(** X17 ([train_ai], [choose_action]). An episode that is not over can always
    go on: as long as [done] is false the board has a blank cell, and an
    exploring draw of that cell returns, puts one more mark on the board,
    calls the learner once and keeps what holds at each test of
    [while not done]. *)
Theorem unfinished_episode_can_move {V : Type} `{Number V}
    (l : episode) (g : globals) (u : V) :
  loop_inv l g -> running_inv l g ->
  done l = false ->
  num_lt u (EXPLORATION_RATE g) = true ->
  exists action l' g',
    (action < BOARD_SIZE * BOARD_SIZE)%nat
    /\ getitem2 (board l) (action / BOARD_SIZE) (action mod BOARD_SIZE) = Ok " "%string
    /\ turn (Draw u action) l g = Ok (l', g')
    /\ marks (board l') = S (marks (board l))
    /\ length (learner_calls g') = S (length (learner_calls g))
    /\ loop_inv l' g' /\ running_inv l' g'.
Proof.
  intros Hloop Hrun Hd Hu.
  assert (Hfull : is_draw (board l) = false).
  { destruct (is_draw (board l)) eqn:E; [|reflexivity].
    exfalso. apply (proj1 (proj2 Hrun) Hd). now right. }
  destruct (blank_action (board l) (proj1 Hloop) Hfull) as (action & Hlt & Ec).
  assert (Ea : choose_action (Q_table g) (state l) (EXPLORATION_RATE g) (Draw u action)
               = Ok action).
  { unfold choose_action. cbn [uniform randint]. now rewrite Hu. }
  destruct (turn_returns (Draw u action) l g action Hloop Ea Hlt) as (g' & Et & Hloop' & _).
  exists action, (move action l), g'.
  split; [exact Hlt|]. split; [exact Ec|]. split; [exact Et|].
  destruct (turn_blank_moves _ _ _ _ _ _ (proj1 Hrun) Ea Ec Et) as [Hm Hc].
  split; [exact Hm|]. split; [exact Hc|]. split; [exact Hloop'|].
  exact (turn_running _ _ _ _ _ Hd Hrun Et).
Qed.

Lemma unfinished_episode_can_move_witness :
  exists action l' (g' : @globals Q),
    (action < BOARD_SIZE * BOARD_SIZE)%nat
    /\ getitem2 (board (fst (episode_start (@initial_globals Q _))))
         (action / BOARD_SIZE) (action mod BOARD_SIZE) = Ok " "%string
    /\ turn (Draw 0%Q action) (fst (episode_start initial_globals))
         (snd (episode_start initial_globals)) = Ok (l', g')
    /\ marks (board l') = S (marks (board (fst (episode_start (@initial_globals Q _)))))
    /\ length (learner_calls g')
       = S (length (learner_calls (snd (episode_start (@initial_globals Q _)))))
    /\ loop_inv l' g' /\ running_inv l' g'.
Proof.
  apply (unfinished_episode_can_move (fst (episode_start (@initial_globals Q _)))
           (snd (episode_start (@initial_globals Q _))) 0%Q).
  - apply (loop_inv_start (@initial_globals Q _)). apply map_Forall_empty.
  - apply (running_inv_start (@initial_globals Q _)).
    intros k values E. cbn [initial_globals Q_table] in E. now rewrite lookup_empty in E.
  - reflexivity.
  - reflexivity.
Defined.
